(** * prompt-toolkit: template engine core

    A shallow embedding of the TypeScript sources

    - [src/implementations/PromptConstructor.ts]  (interpolation, context validation)
    - [src/implementations/TemplateRegistry.ts]   (registry, inheritance resolution)
    - [src/implementations/XmlTemplateParser.ts]  (parseXmlContent and the sections it reads)

    Conventions of the embedding.

    - A JavaScript string is a [string]: a sequence of 8-bit code units, that
      is the Latin-1 range of UTF-16.  Regular expressions without the [u]
      flag work on code units, so nothing is lost for such texts.
    - A JavaScript number is written as an integer [n : Z] and is the
      double nearest to [n] (the integer itself in the safe-integer range, an
      infinity beyond the largest double), or it is [NaN]; fractions and [-0]
      are outside the model.
    - The values of a context and of a metadata record are data:
      [undefined], [null], booleans, numbers, BigInts, strings, arrays and
      plain objects of data.  A plain object is the list of its own
      properties in the order of their creation, and its prototype is
      [Object.prototype]: reading a name that is no own property gives the
      member of [Object.prototype] of that name, if there is one.  Listing an
      object visits the array indices first.
    - An exception that the source can throw on such values ([String] of an
      object with an own [toString], [JSON.stringify] of a BigInt) is a
      result of the model, and so is the failure that a [catch] makes of it.
    - [Map] keeps insertion order and is an association list as well.
    - The logger is kept where a statement speaks of diagnostics (the warnings
      of the interpolation engine) and dropped elsewhere.
    - Unbounded call depth (recursive interpolation, recursive resolution) is
      bounded by a fuel argument; running out of fuel is [None]. *)

From Stdlib Require Import String Ascii List ZArith Bool Arith Lia.
From Stdlib Require Import Numbers.DecimalString Sorting.Permutation.
Import ListNotations.
Open Scope list_scope.
Open Scope string_scope.

Set Implicit Arguments.
Set Warnings "-register-all".

(* ===================================================================== *)
(** * Strings *)
(* ===================================================================== *)

Module Str.

Definition DQ : ascii := "034"%char.
Definition NL : ascii := "010"%char.
Definition dq : string := String DQ "".
Definition nl : string := String NL "".

(** [\s] of a regular expression and the characters removed by
    [String.prototype.trim], restricted to code units below 256:
    TAB, LF, VT, FF, CR, SPACE and NBSP. *)
Definition isSpace (c : ascii) : bool :=
  match nat_of_ascii c with
  | 9 | 10 | 11 | 12 | 13 | 32 | 160 => true
  | _ => false
  end.

Fixpoint trimStart (s : string) : string :=
  match s with
  | String c s' => if isSpace c then trimStart s' else s
  | EmptyString => EmptyString
  end.

Fixpoint trimEnd (s : string) : string :=
  match s with
  | String c s' =>
      let t := trimEnd s' in
      if isSpace c && (t =? "") then "" else String c t
  | EmptyString => EmptyString
  end.

Definition trim (s : string) : string := trimEnd (trimStart s).

(** [String.prototype.toLowerCase] on Latin-1 code units. *)
Definition lowerChar (c : ascii) : ascii :=
  let n := nat_of_ascii c in
  if (((65 <=? n) && (n <=? 90)) || ((192 <=? n) && (n <=? 222) && negb (n =? 215)))%nat
  then ascii_of_nat (n + 32) else c.

Fixpoint toLowerCase (s : string) : string :=
  match s with
  | String c s' => String (lowerChar c) (toLowerCase s')
  | EmptyString => EmptyString
  end.

(** [s.startsWith(p)] *)
Fixpoint startsWith (p s : string) : bool :=
  match p, s with
  | EmptyString, _ => true
  | String a p', String b s' => Ascii.eqb a b && startsWith p' s'
  | String _ _, EmptyString => false
  end.

(** [haystack.includes(needle)] *)
Fixpoint includes (needle haystack : string) : bool :=
  startsWith needle haystack ||
  match haystack with
  | String _ h => includes needle h
  | EmptyString => false
  end.

(** [s] without its first [n] code units *)
Fixpoint drop (n : nat) (s : string) : string :=
  match n, s with
  | S n', String _ s' => drop n' s'
  | _, _ => s
  end.

Fixpoint take (n : nat) (s : string) : string :=
  match n, s with
  | S n', String c s' => String c (take n' s')
  | _, _ => EmptyString
  end.

Definition stripPrefix (p s : string) : option string :=
  if startsWith p s then Some (drop (String.length p) s) else None.

(** [true] when the code unit [c] occurs in [s] *)
Fixpoint hasChar (c : ascii) (s : string) : bool :=
  match s with
  | String d s' => Ascii.eqb c d || hasChar c s'
  | EmptyString => false
  end.

Definition join (sep : string) (l : list string) : string := String.concat sep l.

End Str.

(* ===================================================================== *)
(** * JavaScript values *)
(* ===================================================================== *)

Module JS.
Import Str.

(** ** Data

    The values that a context, a metadata record or an array holds.  [VNum n]
    is the number nearest to the integer [n]: the integer itself up to 2^53,
    a double beyond, and an infinity beyond the doubles. *)
Inductive value : Type :=
| VUndefined
| VNull
| VBool (b : bool)
| VNum (n : Z)
| VNaN
| VStr (s : string)
| VArr (l : list value)
| VObj (l : list (string * value))
| VBigInt (n : Z).

(** A record of named values ([Record<string, unknown>]): the own
    properties with the values they were created with, in the order of their
    creation.  Where a name occurs twice the first entry is the property. *)
Definition object := list (string * value).

(** ** Exceptions

    The two [TypeError]s that the operations below can throw. *)
Inductive TypeError : Type :=
| CannotConvertToPrimitive
| CannotSerializeBigInt.

Definition typeErrorMessage (e : TypeError) : string :=
  match e with
  | CannotConvertToPrimitive => "Cannot convert object to primitive value"
  | CannotSerializeBigInt => "Do not know how to serialize a BigInt"
  end.

(** how an evaluation ends: with a result, or with an exception thrown *)
Inductive completion (A : Type) : Type :=
| Normal (a : A)
| Thrown (e : TypeError).
Arguments Normal {A} a.
Arguments Thrown {A} e.

(** the results in order; the first exception ends the evaluation *)
Fixpoint gather (A : Type) (l : list (completion A)) : completion (list A) :=
  match l with
  | [] => Normal []
  | Normal a :: l' =>
      match gather l' with
      | Normal r => Normal (a :: r)
      | Thrown e => Thrown e
      end
  | Thrown e :: _ => Thrown e
  end.

(** ** Property access

    [o[name]] on a plain object looks at the own properties and then at
    [Object.prototype]. *)

(** What a property access evaluates to: a data value, or one of the
    functions of [Object.prototype], given by its [name] property. *)
Inductive found : Type :=
| Data (v : value)
| Builtin (f : string).

(** The properties of [Object.prototype].  [constructor] is the function
    [Object].  [__proto__] is an accessor that returns [Object.prototype]
    itself: an object without own enumerable properties, which [typeof],
    [Array.isArray], [String], [JSON.stringify] and the tests of truth cannot
    tell from [{}]. *)
Definition inherited (name : string) : found :=
  if name =? "__proto__" then Data (VObj [])
  else if name =? "constructor" then Builtin "Object"
  else if existsb (String.eqb name)
            [ "__defineGetter__"; "__defineSetter__"; "hasOwnProperty";
              "__lookupGetter__"; "__lookupSetter__"; "isPrototypeOf";
              "propertyIsEnumerable"; "toString"; "valueOf"; "toLocaleString" ]
  then Builtin name
  else Data VUndefined.

(** [o[name]] *)
Fixpoint getProp (o : object) (name : string) : found :=
  match o with
  | (k, v) :: o' => if k =? name then Data v else getProp o' name
  | [] => inherited name
  end.

(** [Object.hasOwn(o, name)] *)
Fixpoint hasOwn (o : object) (name : string) : bool :=
  match o with
  | (k, _) :: o' => (k =? name) || hasOwn o' name
  | [] => false
  end.

(** the property [name: v] of an object literal or of a spread: an own
    property is defined, and one already there keeps its place *)
Fixpoint setProp (o : object) (name : string) (v : value) : object :=
  match o with
  | (k, w) :: o' => if k =? name then (k, v) :: o' else (k, w) :: setProp o' name v
  | [] => [(name, v)]
  end.

(** ** The order of the own properties

    [Object.entries], [JSON.stringify] and a spread visit the array indices
    first, in ascending order, and then the other names in the order of their
    creation. *)

Definition isDigit (c : ascii) : bool :=
  let n := nat_of_ascii c in ((48 <=? n) && (n <=? 57))%nat.

Fixpoint digitsToN (s : string) (acc : N) : N :=
  match s with
  | String c s' => digitsToN s' (acc * 10 + N.of_nat (nat_of_ascii c - 48))%N
  | EmptyString => acc
  end.

Fixpoint allDigits (s : string) : bool :=
  match s with
  | String c s' => isDigit c && allDigits s'
  | EmptyString => true
  end.

(** the integer of which [k] is the canonical decimal form, when [k] is an
    array index: an integer from 0 to 2^32 - 2 *)
Definition arrayIndex (k : string) : option N :=
  match k with
  | EmptyString => None
  | String c rest =>
      if allDigits k && (negb (Ascii.eqb c "0") || (rest =? ""))
         && (String.length k <=? 10)%nat
      then let n := digitsToN k 0 in
           if (n <=? 4294967294)%N then Some n else None
      else None
  end.

Section Entries.
Variable A : Type.

(** the entries that are properties: the first of each name *)
Fixpoint firsts (seen : list string) (o : list (string * A)) : list (string * A) :=
  match o with
  | [] => []
  | (k, v) :: o' =>
      if existsb (String.eqb k) seen then firsts seen o'
      else (k, v) :: firsts (k :: seen) o'
  end.

Fixpoint insertByIndex (i : N) (kv : string * A) (l : list (N * (string * A)))
  : list (N * (string * A)) :=
  match l with
  | [] => [(i, kv)]
  | (j, kv') :: l' =>
      if (i <? j)%N then (i, kv) :: l else (j, kv') :: insertByIndex i kv l'
  end.

Definition byIndex (l : list (N * (string * A))) : list (N * (string * A)) :=
  fold_right (fun e acc => insertByIndex (fst e) (snd e) acc) [] l.

Definition indexed (o : list (string * A)) : list (N * (string * A)) :=
  flat_map (fun kv => match arrayIndex (fst kv) with
                      | Some i => [(i, kv)]
                      | None => []
                      end) o.

Definition named (o : list (string * A)) : list (string * A) :=
  filter (fun kv => match arrayIndex (fst kv) with
                    | Some _ => false
                    | None => true
                    end) o.

(** the own properties in the order of [Object.entries] *)
Definition ownEntries (o : list (string * A)) : list (string * A) :=
  let properties := firsts [] o in
  (map snd (byIndex (indexed properties)) ++ named properties)%list.
End Entries.

(** [{...a, ...b}]: the properties of [b] are defined one after the other
    on a copy of [a] *)
Definition spread (a b : object) : object :=
  fold_left (fun acc kv => setProp acc (fst kv) (snd kv)) (ownEntries b) a.

(** ** Conversions *)

(** the decimal digits of an integer *)
Definition decimal (n : Z) : string :=
  NilEmpty.string_of_int (Z.to_int n).

(** The double nearest to the integer [n], ties going to the even
    significand; [None] is an infinity. *)
Definition toDouble (n : Z) : option Z :=
  let a := Z.abs n in
  if (a <? 2 ^ 53)%Z then Some n
  else
    let shift := (Z.log2 a - 52)%Z in
    let q := Z.shiftr a shift in
    let r := (a - Z.shiftl q shift)%Z in
    let half := Z.shiftl 1 (shift - 1) in
    let q' := if (half <? r)%Z || ((r =? half)%Z && Z.odd q) then (q + 1)%Z else q in
    let m := Z.shiftl q' shift in
    if (2 ^ 1024 <=? m)%Z then None else Some (Z.sgn n * m)%Z.

(** The decimal number with the fewest significant digits that the double
    [x] is the nearest double of, and among those the one closest to [x]:
    the search of Number::toString, from [k] significant digits upwards.
    [digits] is the number of digits of [x]. *)
Fixpoint shortestFrom (fuel : nat) (x : Z) (digits k : Z) : Z :=
  match fuel with
  | O => x
  | S fuel' =>
      let scale := (10 ^ (digits - k))%Z in
      let s := (x / scale)%Z in
      let low := (s * scale)%Z in
      let high := ((s + 1) * scale)%Z in
      let lowFits := match toDouble low with Some y => (y =? x)%Z | None => false end in
      let highFits := match toDouble high with Some y => (y =? x)%Z | None => false end in
      if lowFits && highFits
      then if (x - low <? high - x)%Z then low
           else if (high - x <? x - low)%Z then high
           else if Z.even s then low else high
      else if lowFits then low
      else if highFits then high
      else shortestFrom fuel' x digits (k + 1)%Z
  end.

(** a text of digits without the zeros at its end *)
Fixpoint stripZeros (s : string) : string :=
  match s with
  | String c s' =>
      match stripZeros s' with
      | EmptyString => if Ascii.eqb c "0" then EmptyString else String c EmptyString
      | t => String c t
      end
  | EmptyString => EmptyString
  end.

(** Number::toString of a positive double that is an integer: its digits
    when there are 21 at most, and the exponent form beyond *)
Definition positiveToString (x : Z) : string :=
  let digits := String.length (decimal x) in
  let v := decimal (shortestFrom digits x (Z.of_nat digits) 1) in
  let n := String.length v in
  if (n <=? 21)%nat then v
  else match stripZeros v with
       | String d EmptyString => String d ("e+" ++ decimal (Z.of_nat (n - 1)))
       | String d rest => String d ("." ++ rest ++ "e+" ++ decimal (Z.of_nat (n - 1)))
       | EmptyString => v
       end.

(** [String(x)] for the number [x] that [VNum n] stands for *)
Definition numberToString (n : Z) : string :=
  match toDouble n with
  | None => if (n <? 0)%Z then "-Infinity" else "Infinity"
  | Some x =>
      if (x =? 0)%Z then "0"
      else if (x <? 0)%Z then "-" ++ positiveToString (- x)
      else positiveToString x
  end.

(** [JSON.stringify(x)] for a number: an infinity is [null] *)
Definition numberToJSON (n : Z) : string :=
  match toDouble n with
  | None => "null"
  | Some _ => numberToString n
  end.

Definition boolToString (b : bool) : string := if b then "true" else "false".

(** the text of a built-in function, as V8 prints it *)
Definition functionText (f : string) : string :=
  "function " ++ f ++ "() { [native code] }".

(** [String(v)] on data.  An array is joined with commas, [undefined] and
    [null] counting as empty.  A plain object gives the text of
    [Object.prototype.toString] unless it has an own property [toString]:
    its value is no function, [valueOf] gives back the object, and the
    conversion throws. *)
Fixpoint dataToString (v : value) : completion string :=
  match v with
  | VUndefined => Normal "undefined"
  | VNull => Normal "null"
  | VBool b => Normal (boolToString b)
  | VNum n => Normal (numberToString n)
  | VNaN => Normal "NaN"
  | VBigInt n => Normal (decimal n)
  | VStr s => Normal s
  | VArr l =>
      match gather (map (fun x => match x with
                                  | VUndefined | VNull => Normal ""
                                  | _ => dataToString x
                                  end) l) with
      | Normal parts => Normal (join "," parts)
      | Thrown e => Thrown e
      end
  | VObj o =>
      if hasOwn o "toString" then Thrown CannotConvertToPrimitive
      else Normal "[object Object]"
  end.

(** [String(v)] *)
Definition toStr (v : found) : completion string :=
  match v with
  | Data d => dataToString d
  | Builtin f => Normal (functionText f)
  end.

(** [Array.isArray(v) ? 'array' : typeof v] *)
Definition typeName (v : found) : string :=
  match v with
  | Data VUndefined => "undefined"
  | Data VNull => "object"
  | Data (VBool _) => "boolean"
  | Data (VNum _) | Data VNaN => "number"
  | Data (VBigInt _) => "bigint"
  | Data (VStr _) => "string"
  | Data (VArr _) => "array"
  | Data (VObj _) => "object"
  | Builtin _ => "function"
  end.

(** [ToBoolean(v)], the test of [if (v)] and of [v || w] *)
Definition toBoolean (v : found) : bool :=
  match v with
  | Data VUndefined | Data VNull | Data VNaN => false
  | Data (VBool b) => b
  | Data (VNum n) | Data (VBigInt n) => negb (n =? 0)%Z
  | Data (VStr s) => negb (s =? "")
  | Data (VArr _) | Data (VObj _) => true
  | Builtin _ => true
  end.

(** [v || w] *)
Definition orElse (v w : found) : found := if toBoolean v then v else w.

(** [v === undefined || v === null] *)
Definition isNullish (v : found) : bool :=
  match v with
  | Data VUndefined | Data VNull => true
  | _ => false
  end.

(** ** [JSON.stringify] *)

Definition hexDigit (n : nat) : ascii :=
  ascii_of_nat (if (n <? 10)%nat then 48 + n else 87 + n).

Definition quoteChar (c : ascii) : string :=
  let n := nat_of_ascii c in
  match n with
  | 8 => "\b"
  | 9 => "\t"
  | 10 => "\n"
  | 12 => "\f"
  | 13 => "\r"
  | 34 => String "\" dq
  | 92 => "\\"
  | _ => if (n <? 32)%nat
         then "\u00" ++ String (hexDigit (n / 16)) (String (hexDigit (n mod 16)) "")
         else String c ""
  end.

Fixpoint quoteBody (s : string) : string :=
  match s with
  | String c s' => quoteChar c ++ quoteBody s'
  | EmptyString => EmptyString
  end.

Definition quoteJSONString (s : string) : string := dq ++ quoteBody s ++ dq.

(** The brackets around the serialised members, as SerializeJSONObject and
    SerializeJSONArray lay them out. *)
Definition wrapMembers (opening closing gap stepback indent : string)
           (partial : list string) : string :=
  match partial with
  | [] => opening ++ closing
  | _ =>
      if gap =? ""
      then opening ++ join "," partial ++ closing
      else opening ++ nl ++ indent ++ join ("," ++ nl ++ indent) partial
                   ++ nl ++ stepback ++ closing
  end.

(** a member of an object with its serialised value *)
Definition member (gap : string) (kv : string * option string) : list string :=
  match snd kv with
  | Some t => [quoteJSONString (fst kv) ++ ":" ++ (if gap =? "" then "" else " ") ++ t]
  | None => []
  end.

(** SerializeJSONProperty on data; [None] stands for [undefined].  An own
    property [toJSON] of data is no function and is not called.  A BigInt
    anywhere in the value makes the serialisation throw. *)
Fixpoint serialize (gap indent : string) (v : value) {struct v}
  : completion (option string) :=
  match v with
  | VUndefined => Normal None
  | VNull => Normal (Some "null")
  | VBool b => Normal (Some (boolToString b))
  | VNum n => Normal (Some (numberToJSON n))
  | VNaN => Normal (Some "null")
  | VBigInt _ => Thrown CannotSerializeBigInt
  | VStr s => Normal (Some (quoteJSONString s))
  | VArr l =>
      let inner := indent ++ gap in
      match gather (map (serialize gap inner) l) with
      | Normal parts =>
          Normal (Some (wrapMembers "[" "]" gap indent inner
                          (map (fun p => match p with
                                         | Some t => t
                                         | None => "null"
                                         end) parts)))
      | Thrown e => Thrown e
      end
  | VObj l =>
      let inner := indent ++ gap in
      let serialised :=
        ownEntries (map (fun kv => (fst kv, serialize gap inner (snd kv))) l) in
      match gather (map (fun kc => match snd kc with
                                   | Normal p => Normal (fst kc, p)
                                   | Thrown e => Thrown e
                                   end) serialised) with
      | Normal members =>
          Normal (Some (wrapMembers "{" "}" gap indent inner
                          (flat_map (member gap) members)))
      | Thrown e => Thrown e
      end
  end.

Definition serialised (c : completion (option string)) : completion string :=
  match c with
  | Normal (Some t) => Normal t
  | Normal None => Normal "undefined"
  | Thrown e => Thrown e
  end.

(** [JSON.stringify(v, null, 2)] on a value that is not [undefined] *)
Definition stringifyPretty (v : value) : completion string :=
  serialised (serialize "  " "" v).

(** [JSON.stringify(v)] on a value that is not [undefined] *)
Definition stringify (v : value) : completion string :=
  serialised (serialize "" "" v).

End JS.

(* ===================================================================== *)
(** * Regular expressions *)
(* ===================================================================== *)

(** The source scans text with JavaScript regular expressions.  Each one is
    written here as a backtracking matcher in continuation-passing style:
    a piece of a pattern takes the matcher [k] of what follows it, and asks
    [k] again with another split of the input whenever [k] fails.  Greedy
    quantifiers try the longest repetition first, lazy ones the shortest. *)

Module Regex.
Import Str.

(** A pattern anchored at the start of the input: its captures and the
    input left after the match. *)
Definition regex (C : Type) := string -> option (C * string).

Section Pieces.
Variable R : Type.

(** a literal text *)
Definition lit (p : string) (k : string -> option R) (s : string) : option R :=
  match stripPrefix p s with
  | Some rest => k rest
  | None => None
  end.

(** a captured greedy star of a character class: the longest run first *)
Fixpoint starGreedy (P : ascii -> bool) (k : string -> string -> option R)
         (s : string) : option R :=
  match s with
  | String c s' =>
      if P c
      then match starGreedy P (fun cap rest => k (String c cap) rest) s' with
           | Some r => Some r
           | None => k "" s
           end
      else k "" s
  | EmptyString => k "" s
  end.

(** a captured lazy star: the shortest run first *)
Fixpoint starLazy (P : ascii -> bool) (k : string -> string -> option R)
         (s : string) : option R :=
  match k "" s with
  | Some r => Some r
  | None =>
      match s with
      | String c s' =>
          if P c then starLazy P (fun cap rest => k (String c cap) rest) s' else None
      | EmptyString => None
      end
  end.

(** a captured greedy plus *)
Definition plusGreedy (P : ascii -> bool) (k : string -> string -> option R)
           (s : string) : option R :=
  match s with
  | String c s' =>
      if P c then starGreedy P (fun cap rest => k (String c cap) rest) s' else None
  | EmptyString => None
  end.

(** a captured lazy plus *)
Definition plusLazy (P : ascii -> bool) (k : string -> string -> option R)
           (s : string) : option R :=
  match s with
  | String c s' =>
      if P c then starLazy P (fun cap rest => k (String c cap) rest) s' else None
  | EmptyString => None
  end.
End Pieces.

(** character classes *)
Definition anyChar (_ : ascii) : bool := true.            (* [.] with the s flag *)
Definition notChar (c d : ascii) : bool := negb (Ascii.eqb c d).  (* [[^c]] *)

(** ** Scanning with the [g] flag

    [replace], [matchAll] and a loop of [exec] all walk the text from left
    to right: at each position the pattern is tried; where it matches, the
    matched text is one hit and the walk resumes behind it; elsewhere the
    code unit is kept as it is.  None of the patterns below matches the
    empty text. *)

Inductive segment (C : Type) : Type :=
| Keep (c : ascii)
| Hit (text : string) (caps : C).
Arguments Keep {C} c.
Arguments Hit {C} text caps.

Fixpoint scanFrom (C : Type) (rx : regex C) (s : string) (skip : nat)
  : list (segment C) :=
  match s with
  | EmptyString => []
  | String c s' =>
      match skip with
      | S n => scanFrom rx s' n
      | O =>
          match rx s with
          | Some (caps, rest) =>
              let len := String.length s - String.length rest in
              Hit (take len s) caps :: scanFrom rx s' (len - 1)
          | None => Keep c :: scanFrom rx s' 0
          end
      end
  end.

Definition scan (C : Type) (rx : regex C) (s : string) : list (segment C) :=
  scanFrom rx s 0.

(** [text.match(rx)] without the [g] flag: the leftmost match *)
Fixpoint search (C : Type) (rx : regex C) (s : string) : option C :=
  match rx s with
  | Some (caps, _) => Some caps
  | None =>
      match s with
      | String _ s' => search rx s'
      | EmptyString => None
      end
  end.

(** the hits alone, as [matchAll] and a loop of [exec] see them *)
Fixpoint hits (C : Type) (l : list (segment C)) : list (string * C) :=
  match l with
  | Hit t c :: l' => (t, c) :: hits l'
  | Keep _ :: l' => hits l'
  | [] => []
  end.

(** ** Vocabulary for statements about the matchers *)

(** every code unit of [s] is in the class [P] *)
Fixpoint allIn (P : ascii -> bool) (s : string) : bool :=
  match s with
  | String c s' => P c && allIn P s'
  | EmptyString => true
  end.

(** [s] is empty or starts outside the class [P] *)
Definition stopsAt (P : ascii -> bool) (s : string) : bool :=
  match s with
  | String c _ => negb (P c)
  | EmptyString => true
  end.

(** the code units outside the hits *)
Fixpoint kept (C : Type) (l : list (segment C)) : string :=
  match l with
  | Keep c :: l' => String c (kept l')
  | Hit _ _ :: l' => kept l'
  | [] => EmptyString
  end.

(** a text in which the pattern matches nowhere, as [scan] returns it *)
Fixpoint keeps (C : Type) (s : string) : list (segment C) :=
  match s with
  | String c s' => Keep c :: keeps C s'
  | EmptyString => []
  end.

End Regex.

(* ===================================================================== *)
(** * The data model (interfaces/IPromptTemplate.ts) *)
(* ===================================================================== *)

Module Types.
Import JS.

(** An optional property of an object.  JavaScript tells a property that
    is missing from one that is there and holds [undefined]: both read as
    [undefined], but an object spread copies the second and so overwrites
    what the target had. *)
Inductive prop (A : Type) : Type :=
| Absent
| Undef
| Val (a : A).
Arguments Absent {A}.
Arguments Undef {A}.
Arguments Val {A} a.

(** reading [o.p] *)
Definition read (A : Type) (p : prop A) : option A :=
  match p with
  | Val a => Some a
  | Absent | Undef => None
  end.

(** the property [p] of [{...a, ...b}] *)
Definition overlay (A : Type) (a b : prop A) : prop A :=
  match b with
  | Absent => a
  | Undef | Val _ => b
  end.

Record IVariable : Type := {
  var_name : string;
  var_type : string;   (* 'string' | 'number' | 'boolean' | 'array' | 'object' *)
  var_required : option bool;
  var_default : option value;
  var_description : option string
}.

Inductive ICondition : Type :=
| Condition (ctype : string) (variable : option string) (val : option value)
            (conditions : option (list ICondition)).

Record IContextLevel : Type := {
  depth : Z;
  condition : option ICondition;
  load : list string;
  purpose : option string
}.

Record IContextLoading : Type := {
  strategy : option string;   (* 'progressive' | 'all' | 'minimal' *)
  levels : option (list IContextLevel)
}.

Record ITask : Type := {
  task_id : option string;
  task_description : string;
  priority : option string;   (* 'high' | 'medium' | 'low' *)
  dependencies : option (list string);
  estimate : option string
}.

Record ITaskDefinition : Type := {
  objective : string;
  requirements : list ITask;
  constraints : option (list string);
  deliverables : option (list string)
}.

Record IThinkingLevel : Type := {
  thinking_depth : option string;
  focus : option string;
  duration : option string
}.

Record IPromptTemplate : Type := {
  id : string;
  name : string;
  description : prop string;
  version : prop string;
  author : prop string;
  extends : prop string;
  variables : prop (list IVariable);
  contextLoading : prop IContextLoading;
  taskDefinition : prop ITaskDefinition;
  thinkingLevel : prop IThinkingLevel;
  content : string;
  metadata : prop object
}.

Record IPromptContext : Type := {
  ctx_variables : object;
  environment : option object;
  timestamp : option Z;
  sessionId : option string
}.

Inductive ValidationErrorType : Type :=
| syntax | semantic | missing_variable | circular_dependency.

Record ITemplateValidationError : Type := {
  err_type : ValidationErrorType;
  message : string
}.

Record ITemplateValidationResult : Type := {
  valid : bool;
  errors : list ITemplateValidationError;
  warnings : list ITemplateValidationError
}.

(** [IResult<T>] of the di-framework: [success(data)] or [failure(error)] *)
Inductive IResult (T E : Type) : Type :=
| success (data : T)
| failure (error : E).
Arguments success {T E} data.
Arguments failure {T E} error.

End Types.

(* ===================================================================== *)
(** * PromptConstructor: interpolation and context validation *)
(* ===================================================================== *)

Module PromptConstructor.
Import Str JS Regex Types.

(** ** A computation with the warnings logged on the way

    It ends with a result or with an exception, and has logged its warnings
    by then; [None] is a computation that ran out of call depth. *)
Definition M (A : Type) : Type := option (completion A * list string).

Definition ret (A : Type) (a : A) : M A := Some (Normal a, []).

Definition bind (A B : Type) (m : M A) (f : A -> M B) : M B :=
  match m with
  | Some (Normal a, w) =>
      match f a with
      | Some (b, w') => Some (b, (w ++ w')%list)
      | None => None
      end
  | Some (Thrown e, w) => Some (Thrown e, w)
  | None => None
  end.

(** [this.logger.warn(msg)] *)
Definition warn (msg : string) : M unit := Some (Normal tt, [msg]).

(** an evaluation that logs nothing *)
Definition eval (A : Type) (c : completion A) : M A := Some (c, []).

Notation "x <- m ;; k" := (bind m (fun x => k))
  (at level 61, m at next level, right associativity).
Notation "m ;;; k" := (bind m (fun _ => k))
  (at level 61, right associativity).

(** [text.replace(rx, callback)] once the hits are known *)
Fixpoint replaceWith (C : Type) (callback : string -> C -> M string)
         (l : list (segment C)) : M string :=
  match l with
  | [] => ret ""
  | Keep c :: l' => t <- replaceWith callback l' ;; ret (String c t)
  | Hit text caps :: l' =>
      r <- callback text caps ;;
      t <- replaceWith callback l' ;;
      ret (r ++ t)
  end.

Definition replace (C : Type) (rx : regex C) (callback : string -> C -> M string)
           (content : string) : M string :=
  replaceWith callback (scan rx content).

(** ** The patterns *)

Definition notRBrace : ascii -> bool := notChar "}".
Definition notDQ : ascii -> bool := notChar DQ.

(** [/\{\{([^}]+)\}\}/g] *)
Definition simpleRegex : regex string :=
  lit "{{" (plusGreedy notRBrace (fun name =>
  lit "}}" (fun rest => Some (name, rest)))).

(** [/\{\{#if\s+([^}]+)\}\}(.*?)\{\{\/if\}\}/gs] *)
Definition ifRegex : regex (string * string) :=
  lit "{{#if" (plusGreedy isSpace (fun _ =>
  plusGreedy notRBrace (fun condition =>
  lit "}}" (starLazy anyChar (fun innerContent =>
  lit "{{/if}}" (fun rest => Some ((condition, innerContent), rest))))))).

(** [/\{\{#each\s+([^}]+)\}\}(.*?)\{\{\/each\}\}/gs] *)
Definition eachRegex : regex (string * string) :=
  lit "{{#each" (plusGreedy isSpace (fun _ =>
  plusGreedy notRBrace (fun arrayName =>
  lit "}}" (starLazy anyChar (fun template =>
  lit "{{/each}}" (fun rest => Some ((arrayName, template), rest))))))).

(** [/\{\{#if_equals\s+([^}]+?)\s+Q([^Q]+)Q\}\}(.*?)\{\{\/if_equals\}\}/gs],
    with Q for the double quote *)
Definition ifEqualsRegex : regex (string * string * string) :=
  lit "{{#if_equals" (plusGreedy isSpace (fun _ =>
  plusLazy notRBrace (fun variableName =>
  plusGreedy isSpace (fun _ =>
  lit dq (plusGreedy notDQ (fun expectedValue =>
  lit (dq ++ "}}") (starLazy anyChar (fun innerContent =>
  lit "{{/if_equals}}" (fun rest =>
    Some ((variableName, expectedValue, innerContent), rest)))))))))).

(** [/\{\{#switch\s+([^}]+)\}\}(.*?)\{\{\/switch\}\}/gs] *)
Definition switchRegex : regex (string * string) :=
  lit "{{#switch" (plusGreedy isSpace (fun _ =>
  plusGreedy notRBrace (fun variableName =>
  lit "}}" (starLazy anyChar (fun switchContent =>
  lit "{{/switch}}" (fun rest => Some ((variableName, switchContent), rest))))))).

(** [/\{\{#case\s+Q([^Q]+)Q\}\}(.*?)\{\{\/case\}\}/gs], with Q for the double quote *)
Definition caseRegex : regex (string * string) :=
  lit "{{#case" (plusGreedy isSpace (fun _ =>
  lit dq (plusGreedy notDQ (fun caseValue =>
  lit (dq ++ "}}") (starLazy anyChar (fun caseContent =>
  lit "{{/case}}" (fun rest => Some ((caseValue, caseContent), rest)))))))).

(** ** formatValue, isTruthy *)

(** [formatValue] on data: the items of an array are data *)
Fixpoint formatData (v : value) : completion string :=
  match v with
  | VStr s => Normal s
  | VNum _ | VNaN | VBool _ => dataToString v
  | VArr l =>
      match gather (map formatData l) with
      | Normal parts => Normal (join ", " parts)
      | Thrown e => Thrown e
      end
  | VObj _ => stringifyPretty v
  | VUndefined | VNull | VBigInt _ => dataToString v
  end.

Definition formatValue (v : found) : completion string :=
  match v with
  | Data d => formatData d
  | Builtin _ => toStr v
  end.

Definition isTruthy (v : found) : bool :=
  match v with
  | Data VUndefined | Data VNull => false
  | Data (VBool b) => b
  | Data (VNum n) => negb (n =? 0)%Z
  | Data VNaN => true
  | Data (VStr s) => negb (String.length s =? 0)%nat
  | Data (VArr l) => negb (List.length l =? 0)%nat
  | Data (VObj _) | Data (VBigInt _) | Builtin _ => true
  end.

(** ** The stages

    Every stage that expands a block calls the whole of
    [interpolateVariables] on the inner text; [interp] is that call. *)

Definition undefinedWarning (name : string) : string :=
  "Variable '" ++ name ++ "' is undefined during interpolation".

Definition notArrayWarning (name : string) : string :=
  "Variable '" ++ name ++ "' is not an array for #each loop".

(** the callback of the simple [{{variable}}] replacement *)
Definition simpleCallback (variables : object) (text variableName : string)
  : M string :=
  let name := trim variableName in
  let value := getProp variables name in
  if isNullish value
  then warn (undefinedWarning name) ;;; ret text
  else eval (formatValue value).

Definition substituteSimple (content : string) (variables : object) : M string :=
  replace simpleRegex (simpleCallback variables) content.

Section Stages.
Variable interp : string -> object -> M string.

Definition conditionalCallback (variables : object) (text : string)
           (caps : string * string) : M string :=
  let '(condition, innerContent) := caps in
  let variableName := trim condition in
  let value := getProp variables variableName in
  if isTruthy value then interp innerContent variables else ret "".

Definition processConditionals (content : string) (variables : object) : M string :=
  replace ifRegex (conditionalCallback variables) content.

Definition itemContext (variables : object) (item : value) (index len : nat)
  : object :=
  setProp (setProp (setProp (setProp variables
    "this" item)
    "@index" (VNum (Z.of_nat index)))
    "@first" (VBool (index =? 0)%nat))
    "@last" (VBool (index =? len - 1)%nat).

(** [array.map((item, index) => ...)] from [index] on *)
Fixpoint mapItems (template : string) (variables : object) (len : nat)
         (items : list value) (index : nat) : M (list string) :=
  match items with
  | [] => ret []
  | item :: items' =>
      r <- interp template (itemContext variables item index len) ;;
      rs <- mapItems template variables len items' (S index) ;;
      ret (r :: rs)
  end.

Definition loopCallback (variables : object) (text : string)
           (caps : string * string) : M string :=
  let '(arrayName, template) := caps in
  let name := trim arrayName in
  match getProp variables name with
  | Data (VArr array) =>
      rs <- mapItems template variables (List.length array) array 0 ;;
      ret (join "" rs)
  | _ => warn (notArrayWarning name) ;;; ret ""
  end.

Definition processLoops (content : string) (variables : object) : M string :=
  replace eachRegex (loopCallback variables) content.

Definition equalityCallback (variables : object) (text : string)
           (caps : string * string * string) : M string :=
  let '(variableName, expectedValue, innerContent) := caps in
  let name := trim variableName in
  let value := getProp variables name in
  actual <- eval (toStr value) ;;
  if actual =? expectedValue then interp innerContent variables else ret "".

Definition processEqualityConditionals (content : string) (variables : object)
  : M string :=
  replace ifEqualsRegex (equalityCallback variables) content.

(** the loop of [caseRegex.exec]: the first case whose literal is [value] *)
Fixpoint firstCase (value : string) (variables : object)
         (cases : list (string * (string * string))) : M string :=
  match cases with
  | (_, (caseValue, caseContent)) :: cases' =>
      if value =? caseValue
      then interp caseContent variables
      else firstCase value variables cases'
  | [] => ret ""
  end.

Definition switchCallback (variables : object) (text : string)
           (caps : string * string) : M string :=
  let '(variableName, switchContent) := caps in
  let name := trim variableName in
  value <- eval (toStr (orElse (getProp variables name) (Data (VStr "")))) ;;
  firstCase value variables (hits (scan caseRegex switchContent)).

Definition processSwitchStatements (content : string) (variables : object)
  : M string :=
  replace switchRegex (switchCallback variables) content.

(** the four block stages in the order of the source *)
Definition processBlocks (content : string) (variables : object) : M string :=
  s1 <- processConditionals content variables ;;
  s2 <- processLoops s1 variables ;;
  s3 <- processEqualityConditionals s2 variables ;;
  processSwitchStatements s3 variables.

End Stages.

(** ** interpolateVariables *)

Fixpoint interpolateVariables (fuel : nat) (content : string) (variables : object)
  : M string :=
  match fuel with
  | O => None
  | S fuel' =>
      let interp := interpolateVariables fuel' in
      interpolated <- substituteSimple content variables ;;
      interpolated <- processConditionals interp interpolated variables ;;
      interpolated <- processLoops interp interpolated variables ;;
      interpolated <- processEqualityConditionals interp interpolated variables ;;
      processSwitchStatements interp interpolated variables
  end.

(** stages applied one after the other, each to the whole text that the
    one before returned *)
Fixpoint pipeline (stages : list (string -> object -> M string))
         (content : string) (variables : object) : M string :=
  match stages with
  | [] => ret content
  | stage :: stages' =>
      interpolated <- stage content variables ;;
      pipeline stages' interpolated variables
  end.

(** [f] returns whatever [g] returns *)
Definition below (g f : string -> object -> M string) : Prop :=
  forall content variables r,
    g content variables = Some r -> f content variables = Some r.

(** The order of stages as the specification words it: conditionals, loops,
    equality conditionals, switch, and the simple substitution last.  The
    stages themselves are those of the source. *)
Fixpoint interpolateSpecOrder (fuel : nat) (content : string) (variables : object)
  : M string :=
  match fuel with
  | O => None
  | S fuel' =>
      let interp := interpolateSpecOrder fuel' in
      interpolated <- processConditionals interp content variables ;;
      interpolated <- processLoops interp interpolated variables ;;
      interpolated <- processEqualityConditionals interp interpolated variables ;;
      interpolated <- processSwitchStatements interp interpolated variables ;;
      substituteSimple interpolated variables
  end.

(** ** validateContext *)

Definition typeMismatchMessage (name expectedType actualType : string) : string :=
  "Variable '" ++ name ++ "' expected type '" ++ expectedType
    ++ "' but got '" ++ actualType ++ "'".

Definition missingMessage (name : string) : string :=
  "Required variable '" ++ name ++ "' is missing".

Definition notDeclaredMessage (name : string) : string :=
  "Variable '" ++ name ++ "' is not defined in template but provided in context".

Definition isArray (v : found) : bool :=
  match v with Data (VArr _) => true | _ => false end.

Definition isNull (v : found) : bool :=
  match v with Data VNull => true | _ => false end.

Definition validateVariableType (name : string) (v : found) (expectedType : string)
  : option ITemplateValidationError :=
  let actualType := typeName v in
  if (expectedType =? "object") && (actualType =? "object")
     && negb (isNull v) && negb (isArray v)
  then None
  else if negb (actualType =? expectedType)
  then Some {| err_type := semantic;
               message := typeMismatchMessage name expectedType actualType |}
  else None.

(** the first loop: one pass over the declared variables *)
Fixpoint checkVariables (vars : list IVariable) (variables : object)
  : list ITemplateValidationError :=
  match vars with
  | [] => []
  | variable :: vars' =>
      let value := getProp variables (var_name variable) in
      if match var_required variable with Some true => true | _ => false end
         && isNullish value
      then {| err_type := missing_variable;
              message := missingMessage (var_name variable) |}
           :: checkVariables vars' variables
      else
        if negb (isNullish value)
        then match validateVariableType (var_name variable) value (var_type variable) with
             | Some typeError => typeError :: checkVariables vars' variables
             | None => checkVariables vars' variables
             end
        else checkVariables vars' variables
  end.

Definition isUndefined (v : value) : bool :=
  match v with VUndefined => true | _ => false end.

(** the second loop: one pass over [Object.entries(context.variables)] *)
Fixpoint checkEntries (vars : list IVariable) (entries : object)
  : list ITemplateValidationError :=
  match entries with
  | [] => []
  | (name, value) :: entries' =>
      let defined := existsb (fun v => var_name v =? name) vars in
      if negb defined && negb (isUndefined value)
      then {| err_type := semantic; message := notDeclaredMessage name |}
           :: checkEntries vars entries'
      else checkEntries vars entries'
  end.

Definition validateContext (template : IPromptTemplate) (context : IPromptContext)
  : ITemplateValidationResult :=
  match read (variables template) with
  | None => {| valid := true; errors := []; warnings := [] |}
  | Some vars =>
      let errs := checkVariables vars (ctx_variables context) in
      let warns := checkEntries vars (ownEntries (ctx_variables context)) in
      {| valid := (List.length errs =? 0)%nat; errors := errs; warnings := warns |}
  end.

End PromptConstructor.

(* ===================================================================== *)
(** * TemplateRegistry *)
(* ===================================================================== *)

Module TemplateRegistry.
Import Str JS Types.

(** ** [Map<string, V>] in insertion order *)
Section MapOps.
Variable V : Type.
Definition jsmap := list (string * V).

Fixpoint mapGet (m : jsmap) (k : string) : option V :=
  match m with
  | (k', v) :: m' => if k' =? k then Some v else mapGet m' k
  | [] => None
  end.

Definition mapHas (m : jsmap) (k : string) : bool :=
  match mapGet m k with Some _ => true | None => false end.

(** [m.set(k, v)]: a key already there keeps its place *)
Fixpoint mapSet (m : jsmap) (k : string) (v : V) : jsmap :=
  match m with
  | (k', w) :: m' => if k' =? k then (k', v) :: m' else (k', w) :: mapSet m' k v
  | [] => [(k, v)]
  end.

(** [m.delete(k)]: no entry for [k] is left *)
Fixpoint mapDelete (m : jsmap) (k : string) : jsmap :=
  match m with
  | (k', w) :: m' => if k' =? k then mapDelete m' k else (k', w) :: mapDelete m' k
  | [] => []
  end.

Definition mapValues (m : jsmap) : list V := map snd m.
Definition mapKeys (m : jsmap) : list string := map fst m.
End MapOps.

(** ** Errors: [new Error(message)], or an exception that was caught *)
Inductive RegistryError : Type :=
| IdRequired
| NameRequired
| ContentRequired
| TemplateNotFound (id : string)
| HasDependents (id : string) (dependents : list string)
| ParentResolutionFailed (parent id : string) (cause : RegistryError)
| CircularInheritance (visited : list string) (currentId : string)
| SelfInheritance (templateId : string)
| ParentNotFound (currentId : string)
| Caught (e : TypeError).

Fixpoint errorMessage (e : RegistryError) : string :=
  match e with
  | IdRequired => "Template ID is required"
  | NameRequired => "Template name is required"
  | ContentRequired => "Template content is required"
  | TemplateNotFound id => "Template not found: " ++ id
  | HasDependents id dependents =>
      "Cannot remove template " ++ id ++ ": other templates inherit from it: "
        ++ join ", " dependents
  | ParentResolutionFailed parent id cause =>
      "Failed to resolve parent template '" ++ parent ++ "' for template '" ++ id
        ++ "': " ++ errorMessage cause
  | CircularInheritance visited currentId =>
      "Circular inheritance detected: " ++ join " -> " visited ++ " -> " ++ currentId
  | SelfInheritance templateId => "Template cannot inherit from itself: " ++ templateId
  | ParentNotFound currentId => "Parent template not found: " ++ currentId
  | Caught e => typeErrorMessage e
  end.

Definition Result (T : Type) : Type := IResult T RegistryError.

(** ** The state of a registry *)
Record Registry : Type := {
  templates : jsmap IPromptTemplate;
  inheritanceCache : jsmap IPromptTemplate
}.

Definition empty : Registry := {| templates := []; inheritanceCache := [] |}.

(** [template.extends] where a string is wanted: the test [if (e)] and the
    value of [e || ''] *)
Definition extendsOrEmpty (t : IPromptTemplate) : string :=
  match read (extends t) with Some e => e | None => "" end.

(** ** checkCircularInheritance *)

Fixpoint checkLoop (fuel : nat) (ts : jsmap IPromptTemplate) (templateId : string)
         (visited : list string) (currentId : string) : option (Result unit) :=
  match fuel with
  | O => None
  | S fuel' =>
      if currentId =? "" then Some (success tt)
      else if existsb (String.eqb currentId) visited
      then Some (failure (CircularInheritance visited currentId))
      else if currentId =? templateId
      then Some (failure (SelfInheritance templateId))
      else match mapGet ts currentId with
           | None => Some (failure (ParentNotFound currentId))
           | Some template =>
               checkLoop fuel' ts templateId (visited ++ [currentId])%list
                         (extendsOrEmpty template)
           end
  end.

(** Every turn of the loop that goes on adds a stored identifier not yet
    visited, so one turn more than there are stored templates is enough. *)
Definition checkCircularInheritance (ts : jsmap IPromptTemplate)
           (templateId parentId : string) : option (Result unit) :=
  checkLoop (S (List.length ts)) ts templateId [] parentId.

(** ** findDependentTemplates *)
Definition extendsIs (parentId : string) (t : IPromptTemplate) : bool :=
  match read (extends t) with
  | Some e => e =? parentId
  | None => false
  end.

Fixpoint findDependentTemplates (ts : jsmap IPromptTemplate) (parentId : string)
  : list string :=
  match ts with
  | (id, template) :: ts' =>
      if extendsIs parentId template
      then id :: findDependentTemplates ts' parentId
      else findDependentTemplates ts' parentId
  | [] => []
  end.

(** ** clearInheritanceCache *)
Fixpoint clearInheritanceCache (fuel : nat) (ts cache : jsmap IPromptTemplate)
         (templateId : string) : option (jsmap IPromptTemplate) :=
  match fuel with
  | O => None
  | S fuel' =>
      fold_left
        (fun acc dependent =>
           match acc with
           | Some c => clearInheritanceCache fuel' ts c dependent
           | None => None
           end)
        (findDependentTemplates ts templateId)
        (Some (mapDelete cache templateId))
  end.

(** ** mergeTemplates *)
Definition orEmptyList (A : Type) (p : prop (list A)) : list A :=
  match read p with Some l => l | None => [] end.

Definition mergeTemplates (parent child : IPromptTemplate) : IPromptTemplate :=
  (* { ...parent, ...child, variables: [...], metadata: {...} } *)
  let merged :=
    {| id := id child;
       name := name child;
       description := overlay (description parent) (description child);
       version := overlay (version parent) (version child);
       author := overlay (author parent) (author child);
       extends := overlay (extends parent) (extends child);
       variables := Val (orEmptyList (variables parent) ++ orEmptyList (variables child))%list;
       contextLoading := overlay (contextLoading parent) (contextLoading child);
       taskDefinition := overlay (taskDefinition parent) (taskDefinition child);
       thinkingLevel := overlay (thinkingLevel parent) (thinkingLevel child);
       content := content child;
       metadata := Val (spread (orEmptyList (metadata parent))
                               (orEmptyList (metadata child))) |} in
  (* if (child.content) merged.content = child.content *)
  let content1 := if negb (content child =? "") then content child else content merged in
  (* if (child.contextLoading) merged.contextLoading = child.contextLoading *)
  let contextLoading1 :=
    match read (contextLoading child) with
    | Some c => Val c
    | None => contextLoading merged
    end in
  let taskDefinition1 :=
    match read (taskDefinition child) with
    | Some t => Val t
    | None => taskDefinition merged
    end in
  let thinkingLevel1 :=
    match read (thinkingLevel child) with
    | Some t => Val t
    | None => thinkingLevel merged
    end in
  (* delete merged.extends *)
  {| id := id merged;
     name := name merged;
     description := description merged;
     version := version merged;
     author := author merged;
     extends := Absent;
     variables := variables merged;
     contextLoading := contextLoading1;
     taskDefinition := taskDefinition1;
     thinkingLevel := thinkingLevel1;
     content := content1;
     metadata := metadata merged |}.

(** ** The operations

    A shallow copy [{ ...template }] of a record is the record itself.
    Operations that may recurse without bound take the call depth [fuel]
    they may use and return an [option]: [register] and [remove] recurse in
    [clearInheritanceCache], [getResolved] in itself. *)

Definition register (fuel : nat) (reg : Registry) (template : IPromptTemplate)
  : option (Result unit * Registry) :=
  if id template =? "" then Some (failure IdRequired, reg)
  else if name template =? "" then Some (failure NameRequired, reg)
  else if content template =? "" then Some (failure ContentRequired, reg)
  else
    let circularCheck :=
      if negb (extendsOrEmpty template =? "")
      then checkCircularInheritance (templates reg) (id template) (extendsOrEmpty template)
      else Some (success tt) in
    match circularCheck with
    | None => None
    | Some (failure e) => Some (failure e, reg)
    | Some (success _) =>
        let ts := mapSet (templates reg) (id template) template in
        match clearInheritanceCache fuel ts (inheritanceCache reg) (id template) with
        | Some cache => Some (success tt, {| templates := ts; inheritanceCache := cache |})
        | None => None
        end
    end.

Definition get (reg : Registry) (id : string) : Result IPromptTemplate :=
  match mapGet (templates reg) id with
  | None => failure (TemplateNotFound id)
  | Some template => success template
  end.

(** [list] and [exists] of the source; the names are taken in Rocq *)
Definition list_ (reg : Registry) : Result (list IPromptTemplate) :=
  success (map (fun t => t) (mapValues (templates reg))).

(** [JSON.stringify(template.metadata || {})] may throw *)
Definition searchableText (template : IPromptTemplate) : completion string :=
  match stringify (VObj (orEmptyList (metadata template))) with
  | Normal json =>
      Normal (toLowerCase
                (join " " [ name template;
                            match read (description template) with
                            | Some d => d
                            | None => ""
                            end;
                            id template;
                            json ]))
  | Thrown e => Thrown e
  end.

(** the loop over the stored templates: the matches from [ts] on, or the
    exception of the first template whose metadata cannot be serialised *)
Fixpoint searchLoop (lowerQuery : string) (ts : list IPromptTemplate)
  : completion (list IPromptTemplate) :=
  match ts with
  | template :: ts' =>
      match searchableText template with
      | Thrown e => Thrown e
      | Normal text =>
          match searchLoop lowerQuery ts' with
          | Thrown e => Thrown e
          | Normal matches =>
              Normal (if includes lowerQuery text then template :: matches else matches)
          end
      end
  | [] => Normal []
  end.

(** the [catch] of [search] turns the exception into a failure *)
Definition search (reg : Registry) (query : string) : Result (list IPromptTemplate) :=
  let lowerQuery := toLowerCase query in
  match searchLoop lowerQuery (mapValues (templates reg)) with
  | Normal matches => success matches
  | Thrown e => failure (Caught e)
  end.

Definition remove (fuel : nat) (reg : Registry) (id : string)
  : option (Result unit * Registry) :=
  if negb (mapHas (templates reg) id)
  then Some (failure (TemplateNotFound id), reg)
  else
    let dependents := findDependentTemplates (templates reg) id in
    if (0 <? List.length dependents)%nat
    then Some (failure (HasDependents id dependents), reg)
    else
      let ts := mapDelete (templates reg) id in
      match clearInheritanceCache fuel ts (inheritanceCache reg) id with
      | Some cache => Some (success tt, {| templates := ts; inheritanceCache := cache |})
      | None => None
      end.

Definition exists_ (reg : Registry) (id : string) : bool :=
  mapHas (templates reg) id.

Fixpoint getResolved (fuel : nat) (reg : Registry) (id : string)
  : option (Result IPromptTemplate * Registry) :=
  match fuel with
  | O => None
  | S fuel' =>
      match mapGet (inheritanceCache reg) id with
      | Some cached => Some (success cached, reg)
      | None =>
          match get reg id with
          | failure e => Some (failure e, reg)
          | success template =>
              let resolved :=
                if negb (extendsOrEmpty template =? "")
                then
                  match getResolved fuel' reg (extendsOrEmpty template) with
                  | None => None
                  | Some (failure e, reg1) =>
                      Some (failure (ParentResolutionFailed (extendsOrEmpty template) id e),
                            reg1)
                  | Some (success parent, reg1) =>
                      Some (success (mergeTemplates parent template), reg1)
                  end
                else Some (success template, reg) in
              match resolved with
              | None => None
              | Some (failure e, reg1) => Some (failure e, reg1)
              | Some (success t, reg1) =>
                  Some (success t,
                        {| templates := templates reg1;
                           inheritanceCache := mapSet (inheritanceCache reg1) id t |})
              end
          end
      end
  end.

End TemplateRegistry.

(* ===================================================================== *)
(** * XmlTemplateParser: parseXmlContent *)
(* ===================================================================== *)

Module XmlTemplateParser.
Import Str JS Regex Types.

Definition notGT : ascii -> bool := notChar ">".
Definition notDQ : ascii -> bool := notChar DQ.

(** [.] without the s flag: any code unit but LF and CR *)
Definition dot (c : ascii) : bool :=
  match nat_of_ascii c with
  | 10 | 13 => false
  | _ => true
  end.

(** [\w] *)
Definition isWord (c : ascii) : bool :=
  let n := nat_of_ascii c in
  (((48 <=? n) && (n <=? 57)) || ((65 <=? n) && (n <=? 90))
   || ((97 <=? n) && (n <=? 122)) || (n =? 95))%nat.

(** [<tag>(.*?)</tag>], the body lazy over [any] *)
Definition element (tag : string) (any : ascii -> bool) : regex string :=
  lit ("<" ++ tag ++ ">") (starLazy any (fun body =>
  lit ("</" ++ tag ++ ">") (fun rest => Some (body, rest)))).

(** [<tag([^>]*?)>(.*?)</tag>] with the s flag *)
Definition elementWithAttributes (tag : string) : regex (string * string) :=
  lit ("<" ++ tag) (starLazy notGT (fun attrs =>
  lit ">" (starLazy anyChar (fun body =>
  lit ("</" ++ tag ++ ">") (fun rest => Some ((attrs, body), rest)))))).

(** [/<prompt_template(A)>/] where the group A is [[^>]*] *)
Definition rootRegex : regex string :=
  lit "<prompt_template" (starGreedy notGT (fun attrs =>
  lit ">" (fun rest => Some (attrs, rest)))).

(** [/(\w+)=Q([^Q]+)Q/g], with Q for the double quote *)
Definition attributeRegex : regex (string * string) :=
  plusGreedy isWord (fun key =>
  lit ("=" ++ dq) (plusGreedy notDQ (fun v =>
  lit dq (fun rest => Some ((key, v), rest))))).

(** [/<description>\s*(.*?)\s*<\/description>/s] *)
Definition descriptionRegex : regex string :=
  lit "<description>" (starGreedy isSpace (fun _ =>
  starLazy anyChar (fun d =>
  starGreedy isSpace (fun _ =>
  lit "</description>" (fun rest => Some (d, rest)))))).

(** [/<thinking_level([^>]*?)>/] *)
Definition thinkingLevelRegex : regex string :=
  lit "<thinking_level" (starLazy notGT (fun attrs =>
  lit ">" (fun rest => Some (attrs, rest)))).

(** [/<constraint[^>]*?>(.*?)<\/constraint>/gs] *)
Definition constraintRegex : regex string :=
  lit "<constraint" (starLazy notGT (fun _ =>
  lit ">" (starLazy anyChar (fun body =>
  lit "</constraint>" (fun rest => Some (body, rest)))))).

(** [/^<[^>]*>/] *)
Definition leadingTagRegex : regex unit :=
  lit "<" (starGreedy notGT (fun _ =>
  lit ">" (fun rest => Some (tt, rest)))).

(** [/<content>\s*<!\[CDATA\[(.*?)\]\]>\s*<\/content>/s] *)
Definition cdataRegex : regex string :=
  lit "<content>" (starGreedy isSpace (fun _ =>
  lit "<![CDATA[" (starLazy anyChar (fun body =>
  lit "]]>" (starGreedy isSpace (fun _ =>
  lit "</content>" (fun rest => Some (body, rest)))))))).

(** ** parseAttributes

    The record of attributes holds its own properties in the order of their
    creation; the source reads it by name only and never lists it.  The names
    that are read ([id], [name], [depth], ...) are none of [Object.prototype]. *)
Definition attributes := list (string * string).

Fixpoint attrGet (a : attributes) (key : string) : option string :=
  match a with
  | (k, v) :: a' => if k =? key then Some v else attrGet a' key
  | [] => None
  end.

Fixpoint attrSet (a : attributes) (key v : string) : attributes :=
  match a with
  | (k, w) :: a' => if k =? key then (k, v) :: a' else (k, w) :: attrSet a' key v
  | [] => [(key, v)]
  end.

(** [attributes[key] = v] with a string [v]: the name [__proto__] reaches the
    setter of [Object.prototype], which ignores a string; any other name
    becomes an own property *)
Definition attrAssign (a : attributes) (key v : string) : attributes :=
  if key =? "__proto__" then a else attrSet a key v.

Definition parseAttributes (attributeString : string) : attributes :=
  fold_left (fun acc h => attrAssign acc (fst (snd h)) (snd (snd h)))
            (hits (scan attributeRegex attributeString)) [].

(** ** parseInt *)
Definition digitValue (radix : Z) (c : ascii) : option Z :=
  let n := Z.of_nat (nat_of_ascii c) in
  let d := (if (48 <=? n) && (n <=? 57) then n - 48
            else if (97 <=? n) && (n <=? 122) then n - 87
            else if (65 <=? n) && (n <=? 90) then n - 55
            else 99)%Z in
  if (d <? radix)%Z then Some d else None.

Fixpoint digitsValue (radix : Z) (s : string) (acc : option Z) : option Z :=
  match s with
  | String c s' =>
      match digitValue radix c with
      | Some d => digitsValue radix s' (Some (match acc with
                                              | Some a => a * radix + d
                                              | None => d
                                              end))
      | None => acc
      end
  | EmptyString => acc
  end%Z.

(** [parseInt(text)]; [None] is [NaN].  The result is the number nearest to
    the integer that the digits denote. *)
Definition parseInt (text : string) : option Z :=
  let s := trimStart text in
  let '(sign, s) :=
    match s with
    | String "-" s' => ((-1)%Z, s')
    | String "+" s' => (1%Z, s')
    | _ => (1%Z, s)
    end in
  let '(radix, s) :=
    if startsWith "0x" s || startsWith "0X" s then (16%Z, drop 2 s) else (10%Z, s) in
  match digitsValue radix s None with
  | Some n => Some (sign * n)%Z
  | None => None
  end.

(** ** The sections *)

Definition parseContextLoading (content : string) : option IContextLoading :=
  match search (elementWithAttributes "context_loading") content with
  | None => None
  | Some (attrs, levelsContent) =>
      let attributes := parseAttributes attrs in
      let levels :=
        map (fun h =>
               let '(levelAttrsText, levelContent) := snd h in
               let levelAttrs := parseAttributes levelAttrsText in
               {| depth := match match attrGet levelAttrs "depth" with
                                 | Some d => parseInt d
                                 | None => None
                                 end with
                           | Some n => if (n =? 0)%Z then 1%Z else n
                           | None => 1%Z
                           end;
                  condition := None;
                  load := map (fun m => trim (snd m))
                              (hits (scan (element "load" dot) levelContent));
                  purpose := match search (element "purpose" dot) levelContent with
                             | Some p => Some (trim p)
                             | None => None
                             end |})
            (hits (scan (elementWithAttributes "level") levelsContent)) in
      Some {| strategy := attrGet attributes "strategy"; levels := Some levels |}
  end.

Definition parseTaskDefinition (content : string) : option ITaskDefinition :=
  match search (element "task_definition" anyChar) content with
  | None => None
  | Some taskContent =>
      let objective :=
        match search (element "objective" anyChar) taskContent with
        | Some o => trim o
        | None => ""
        end in
      let requirements :=
        match search (element "requirements" anyChar) taskContent with
        | Some requirementsContent =>
            map (fun h =>
                   let '(reqAttrsText, body) := snd h in
                   let reqAttrs := parseAttributes reqAttrsText in
                   {| task_id := attrGet reqAttrs "id";
                      task_description := trim body;
                      priority := attrGet reqAttrs "priority";
                      dependencies := match attrGet reqAttrs "depends_on" with
                                      | Some d => Some [d]
                                      | None => None
                                      end;
                      estimate := None |})
                (hits (scan (elementWithAttributes "requirement") requirementsContent))
        | None => []
        end in
      let constraints :=
        map (fun h =>
               let constraintText := trim (snd h) in
               trim (match leadingTagRegex constraintText with
                     | Some (_, rest) => rest
                     | None => constraintText
                     end))
            (hits (scan constraintRegex taskContent)) in
      Some {| objective := objective;
              requirements := requirements;
              constraints := match constraints with [] => None | _ => Some constraints end;
              deliverables := None |}
  end.

Definition parseThinkingLevel (content : string) : option IThinkingLevel :=
  match search thinkingLevelRegex content with
  | None => None
  | Some attrs =>
      let attributes := parseAttributes attrs in
      Some {| thinking_depth := attrGet attributes "depth";
              focus := attrGet attributes "focus";
              duration := attrGet attributes "duration" |}
  end.

Definition parseMetadata (content : string) : option object :=
  match search (element "metadata" anyChar) content with
  | None => None
  | Some metadataContent =>
      let metadata : object := [] in
      let metadata :=
        match search (element "category" dot) metadataContent with
        | Some c => setProp metadata "category" (VStr (trim c))
        | None => metadata
        end in
      let metadata :=
        match search (element "estimated_tokens" dot) metadataContent with
        | Some t =>
            let text := if trim t =? "" then "0" else trim t in
            setProp metadata "estimated_tokens"
                    (match parseInt text with Some n => VNum n | None => VNaN end)
        | None => metadata
        end in
      match metadata with
      | [] => None
      | _ => Some metadata
      end
  end.

(** an assignment [template.p = e] where [e] may be [undefined]: the
    property is there afterwards in either case *)
Definition assigned (A : Type) (o : option A) : prop A :=
  match o with
  | Some a => Val a
  | None => Undef
  end.

(** an assignment made only under [if (match)] *)
Definition assignedIf (A : Type) (o : option A) : prop A :=
  match o with
  | Some a => Val a
  | None => Absent
  end.

Section ParseXmlContent.

(** [parseVariables] is left open.  A [<variable>] element may lack its
    [name] or [type] attribute and then yields a record that [IVariable]
    does not type; nothing below depends on how variables are read. *)
Variable parseVariables : string -> list IVariable.

(** [None]: the source throws
    ['Missing required template fields: id, name, or content'] *)
Definition parseXmlContent (content : string) : option IPromptTemplate :=
  let rootAttributes :=
    match search rootRegex content with
    | Some attrs => Some (parseAttributes attrs)
    | None => None
    end in
  let fromRoot (key : string) : option string :=
    match rootAttributes with
    | Some a => attrGet a key
    | None => None
    end in
  let body :=
    match search cdataRegex content with
    | Some c => c
    | None =>
        match search (element "content" anyChar) content with
        | Some c => c
        | None => ""
        end
    end in
  match fromRoot "id", fromRoot "name" with
  | Some templateId, Some templateName =>
      if body =? "" then None
      else
        Some {| id := templateId;
                name := templateName;
                description := assignedIf (option_map trim (search descriptionRegex content));
                version := assigned (fromRoot "version");
                author := assigned (fromRoot "author");
                extends := assignedIf (option_map trim (search (element "extends" dot) content));
                variables := Val (parseVariables content);
                contextLoading := assigned (parseContextLoading content);
                taskDefinition := assigned (parseTaskDefinition content);
                thinkingLevel := assigned (parseThinkingLevel content);
                content := body;
                metadata := assigned (parseMetadata content) |}
  | _, _ => None
  end.

End ParseXmlContent.

(** ** extractVariableReferences, validate *)

(** [/\{\{([^}]+)\}\}/g] *)
Definition referenceRegex : regex string :=
  lit "{{" (plusGreedy (notChar "}") (fun name =>
  lit "}}" (fun rest => Some (name, rest)))).

(** [references.add(variable)] on a [Set], which keeps the order of
    insertion *)
Definition setAdd (references : list string) (variable : string) : list string :=
  if existsb (String.eqb variable) references then references
  else (references ++ [variable])%list.

Definition extractVariableReferences (content : string) : list string :=
  fold_left (fun references h =>
               let variable := trim (snd h) in
               if negb (variable =? "") then setAdd references variable else references)
            (hits (scan referenceRegex content)) [].

Definition semanticError (msg : string) : ITemplateValidationError :=
  {| err_type := semantic; message := msg |}.

Definition variableErrors (variable : IVariable) : list ITemplateValidationError :=
  ((if var_name variable =? "" then [semanticError "Variable name is required"] else [])
   ++ (if var_type variable =? ""
       then [semanticError ("Variable " ++ var_name variable ++ " must have a type")]
       else []))%list.

Definition inheritanceWarning : ITemplateValidationError :=
  semanticError "Template inheritance circular dependency check requires registry access".

Definition referenceWarning (ref : string) : ITemplateValidationError :=
  {| err_type := missing_variable;
     message := "Referenced variable '" ++ ref ++ "' is not defined in template variables" |}.

Definition validate (template : IPromptTemplate) : ITemplateValidationResult :=
  let errors :=
    ((if id template =? "" then [semanticError "Template ID is required"] else [])
     ++ (if name template =? "" then [semanticError "Template name is required"] else [])
     ++ (if content template =? ""
         then [semanticError "Template content is required"] else [])
     ++ match read (variables template) with
        | Some vars => flat_map variableErrors vars
        | None => []
        end)%list in
  let warnings1 :=
    match read (extends template) with
    | Some e => if negb (e =? "") then [inheritanceWarning] else []
    | None => []
    end in
  let variableRefs := extractVariableReferences (content template) in
  let definedVariables :=
    match read (variables template) with
    | Some vars => map var_name vars
    | None => []
    end in
  let warnings2 :=
    flat_map (fun ref => if existsb (String.eqb ref) definedVariables
                         then [] else [referenceWarning ref]) variableRefs in
  {| valid := (List.length errors =? 0)%nat;
     errors := errors;
     warnings := (warnings1 ++ warnings2)%list |}.

(** ** parse *)

Inductive PromptTemplateFormat : Type := xml | yaml | json.

Definition formatName (f : PromptTemplateFormat) : string :=
  match f with xml => "xml" | yaml => "yaml" | json => "json" end.

Record ITemplateParseResult : Type := {
  parsed_template : IPromptTemplate;
  parsed_format : PromptTemplateFormat;
  parsed_raw : string
}.

Definition detectFormat (content : string) : PromptTemplateFormat :=
  let trimmed := trim content in
  if startsWith "<?xml" trimmed || startsWith "<prompt_template" trimmed
  then xml
  else xml.

(** the errors of [parse]: [new Error(message)] *)
Inductive ParseError : Type :=
| UnsupportedFormat (f : PromptTemplateFormat)
| MissingRequiredFields.

Definition parseErrorMessage (e : ParseError) : string :=
  match e with
  | UnsupportedFormat f => "Unsupported format: " ++ formatName f
  | MissingRequiredFields => "Missing required template fields: id, name, or content"
  end.

Section Parse.
Variable parseVariables : string -> list IVariable.

Definition parse (content : string) (format : option PromptTemplateFormat)
  : IResult ITemplateParseResult ParseError :=
  let detectedFormat :=
    match format with
    | Some f => f
    | None => detectFormat content
    end in
  match detectedFormat with
  | xml =>
      match parseXmlContent parseVariables content with
      | Some t =>
          success {| parsed_template := t; parsed_format := detectedFormat;
                     parsed_raw := content |}
      | None => failure MissingRequiredFields
      end
  | _ => failure (UnsupportedFormat detectedFormat)
  end.

End Parse.

End XmlTemplateParser.

(* ===================================================================== *)
(** * Vocabulary of the statements *)
(* ===================================================================== *)

(** ** Bodies made of plain text and simple references *)

Module SimpleBody.
Import Str JS PromptConstructor.

Inductive piece : Type :=
| Text (t : string)
| Ref (name : string).

(** the text of a body *)
Fixpoint render (ps : list piece) : string :=
  match ps with
  | [] => ""
  | Text t :: ps' => t ++ render ps'
  | Ref n :: ps' => "{{" ++ n ++ "}}" ++ render ps'
  end.

Definition noBrace (s : string) : bool :=
  negb (hasChar "{" s) && negb (hasChar "}" s).

(** Braces occur in the body only as the delimiters of its references. *)
Definition wellFormedPiece (p : piece) : bool :=
  match p with
  | Text t => noBrace t
  | Ref n => negb (n =? "") && noBrace n
  end.

Definition wellFormed (ps : list piece) : bool := forallb wellFormedPiece ps.

(** A directive form is a reference whose name starts with [#] or [/]. *)
Definition isDirectiveName (n : string) : bool :=
  match trim n with
  | String c _ => Ascii.eqb c "#" || Ascii.eqb c "/"
  | EmptyString => false
  end.

Definition simpleOnly (ps : list piece) : bool :=
  forallb (fun p => match p with
                    | Text _ => true
                    | Ref n => negb (isDirectiveName n)
                    end) ps.

(** the context gives every referenced key a value that is not null *)
Definition provides (variables : object) (ps : list piece) : bool :=
  forallb (fun p => match p with
                    | Text _ => true
                    | Ref n => negb (isNullish (getProp variables (trim n)))
                    end) ps.

(** a value is formatted, and the text is free of braces *)
Definition plainText (c : completion string) : bool :=
  match c with
  | Normal t => noBrace t
  | Thrown _ => false
  end.

(** the text of a value that is formatted *)
Definition formatted (v : found) : string :=
  match formatValue v with
  | Normal t => t
  | Thrown _ => ""
  end.

(** ... and whose formatted text is free of braces *)
Definition providesPlain (variables : object) (ps : list piece) : bool :=
  forallb (fun p => match p with
                    | Text _ => true
                    | Ref n =>
                        let v := getProp variables (trim n) in
                        negb (isNullish v) && plainText (formatValue v)
                    end) ps.

(** the body with every reference replaced by its formatted value *)
Fixpoint expand (variables : object) (ps : list piece) : string :=
  match ps with
  | [] => ""
  | Text t :: ps' => t ++ expand variables ps'
  | Ref n :: ps' => formatted (getProp variables (trim n)) ++ expand variables ps'
  end.

End SimpleBody.

(** ** States of a registry *)

Module RegistryStates.
Import Str JS Types TemplateRegistry.

(** The fields of a registry are private: its states are those that the
    public operations lead to from the empty registry. *)
Inductive reachable : Registry -> Prop :=
| reach_empty : reachable empty
| reach_register (fuel : nat) (reg reg' : Registry) (template : IPromptTemplate)
                 (r : Result unit) :
    reachable reg -> register fuel reg template = Some (r, reg') -> reachable reg'
| reach_remove (fuel : nat) (reg reg' : Registry) (id : string) (r : Result unit) :
    reachable reg -> remove fuel reg id = Some (r, reg') -> reachable reg'
| reach_getResolved (fuel : nat) (reg reg' : Registry) (id : string)
                    (r : Result IPromptTemplate) :
    reachable reg -> getResolved fuel reg id = Some (r, reg') -> reachable reg'.

(** Following the [extends] links from [id] comes to an end: at an
    identifier that is not stored or at a template that extends nothing. *)
Inductive Resolves (ts : jsmap IPromptTemplate) : string -> Prop :=
| resolves_missing (id : string) :
    mapGet ts id = None -> Resolves ts id
| resolves_root (id : string) (template : IPromptTemplate) :
    mapGet ts id = Some template -> extendsOrEmpty template = "" -> Resolves ts id
| resolves_step (id : string) (template : IPromptTemplate) :
    mapGet ts id = Some template -> Resolves ts (extendsOrEmpty template) ->
    Resolves ts id.

(** one [extends] link, and one link or more *)
Definition Step (ts : jsmap IPromptTemplate) (a b : string) : Prop :=
  exists t, mapGet ts a = Some t /\ extendsOrEmpty t = b /\ b <> "".

Inductive Steps (ts : jsmap IPromptTemplate) : string -> string -> Prop :=
| steps_one (a b : string) : Step ts a b -> Steps ts a b
| steps_more (a b c : string) : Step ts a b -> Steps ts b c -> Steps ts a c.

(** stored templates of which each extends the next *)
Fixpoint Linked (ts : jsmap IPromptTemplate) (p : list string) : Prop :=
  match p with
  | [] => True
  | a :: r =>
      match r with
      | [] => mapHas ts a = true
      | b :: _ => Step ts a b /\ Linked ts r
      end
  end.

(** the keys of a map are distinct, and no stored identifier is empty *)
Definition wellKeyed (ts : jsmap IPromptTemplate) : Prop :=
  NoDup (mapKeys ts) /\ forall k, In k (mapKeys ts) -> k <> "".

(** every template that is extended is stored *)
Definition parentsStored (ts : jsmap IPromptTemplate) : Prop :=
  forall d t, In (d, t) ts -> extendsOrEmpty t <> "" ->
              mapHas ts (extendsOrEmpty t) = true.

(** the two errors with which [checkCircularInheritance] reports a cycle *)
Definition isCircularError (e : RegistryError) : bool :=
  match e with
  | CircularInheritance _ _ | SelfInheritance _ => true
  | _ => false
  end.

(** a template that only says what it extends *)
Definition plain (id name content : string) (extends : prop string) : IPromptTemplate :=
  {| Types.id := id; Types.name := name; description := Absent; version := Absent;
     author := Absent; Types.extends := extends; variables := Absent;
     contextLoading := Absent; taskDefinition := Absent; thinkingLevel := Absent;
     Types.content := content; metadata := Absent |}.

End RegistryStates.

(** ** Concrete inputs used by the examples and counterexamples *)

Module Samples.
Import Str JS Types PromptConstructor SimpleBody TemplateRegistry RegistryStates.

Definition variable (name type : string) : IVariable :=
  {| var_name := name; var_type := type; var_required := Some true;
     var_default := None; var_description := None |}.

Definition templateWith (vars : list IVariable) (content : string) : IPromptTemplate :=
  {| id := "test"; name := "Test Template"; description := Absent; version := Absent;
     author := Absent; extends := Absent; variables := Val vars;
     contextLoading := Absent; taskDefinition := Absent; thinkingLevel := Absent;
     Types.content := content; metadata := Absent |}.

Definition contextOf (variables : object) : IPromptContext :=
  {| ctx_variables := variables; environment := None; timestamp := None;
     sessionId := None |}.

(** a loop over [items] that prints the current item, and a context that
    also has a variable named [this] *)
Definition loopBody : string := "{{#each items}}{{this}}{{/each}}".
Definition loopVariables : object :=
  [("items", VArr [VStr "A"]); ("this", VStr "outer")].

(** a greeting shown only when [show] holds; [name] is not given *)
Definition greetingBody : string := "{{#if show}}Hello {{name}}{{/if}}".
Definition greetingVariables : object := [("show", VBool false)].

(** a body that is one reference, and a value that is a text about
    placeholders *)
Definition quotingBody : list piece := [Ref "x"].
Definition quotingVariables : object := [("x", VStr "write {{name}} for the name")].

Definition helloBody : list piece :=
  [Text "Hello "; Ref "name"; Text ", you are "; Ref " age "; Text " years old!"].
Definition helloVariables : object := [("name", VStr "John"); ("age", VNum 30)].

(** a switch with one case, for the literal [lit] *)
Definition switchCases (lit : string) : string :=
  "{{#case " ++ dq ++ lit ++ dq ++ "}}hit{{/case}}".
Definition switchBlock (lit : string) : string :=
  "{{#switch v}}" ++ switchCases lit ++ "{{/switch}}".

(** two templates that extend each other *)
Definition templateA : IPromptTemplate := plain "A" "Template A" "Content A" (Val "B").
Definition templateB : IPromptTemplate := plain "B" "Template B" "Content B" (Val "A").

(** a base template and one that extends it, both stored *)
Definition baseTemplate : IPromptTemplate := plain "base" "Base" "Base body" Absent.
Definition childTemplate : IPromptTemplate := plain "child" "Child" "Child body" (Val "base").
Definition familyRegistry : Registry :=
  {| templates := [("base", baseTemplate); ("child", childTemplate)];
     inheritanceCache := [] |}.

(** a template that says it extends the empty string *)
Definition orphanTemplate : IPromptTemplate := plain "orphan" "Orphan" "Orphan body" (Val "").

(** a template whose metadata holds a BigInt *)
Definition countedTemplate : IPromptTemplate :=
  {| Types.id := "counted"; Types.name := "Counted"; description := Absent;
     version := Absent; author := Absent; Types.extends := Absent; variables := Absent;
     contextLoading := Absent; taskDefinition := Absent; thinkingLevel := Absent;
     Types.content := "Counted body"; metadata := Val [("uses", VBigInt 1)] |}.

(** a parent document with all three optional sections and a child
    document that extends it and has none of them *)
Definition attribute (key v : string) : string := " " ++ key ++ "=" ++ dq ++ v ++ dq.

Definition parentXml : string :=
  "<prompt_template" ++ attribute "id" "base" ++ attribute "name" "Base" ++ ">"
  ++ "<context_loading" ++ attribute "strategy" "progressive" ++ ">"
  ++ "<level" ++ attribute "depth" "1" ++ "><load>README.md</load></level>"
  ++ "</context_loading>"
  ++ "<task_definition><objective>Analyse</objective></task_definition>"
  ++ "<thinking_level" ++ attribute "depth" "analysis" ++ "/>"
  ++ "<content><![CDATA[Base {{title}}]]></content>"
  ++ "</prompt_template>".

Definition childXml : string :=
  "<prompt_template" ++ attribute "id" "child" ++ attribute "name" "Child" ++ ">"
  ++ "<extends>base</extends>"
  ++ "<content><![CDATA[Child {{title}}]]></content>"
  ++ "</prompt_template>".

Definition parentContextLoading : IContextLoading :=
  {| strategy := Some "progressive";
     levels := Some [ {| depth := 1; condition := None; load := ["README.md"];
                         purpose := None |} ] |}.

Definition parentTaskDefinition : ITaskDefinition :=
  {| objective := "Analyse"; requirements := []; constraints := None;
     deliverables := None |}.

Definition parentThinkingLevel : IThinkingLevel :=
  {| thinking_depth := Some "analysis"; focus := None; duration := None |}.

End Samples.

(** ** Resolution without a cache *)

Module Resolution.
Import Str JS Types TemplateRegistry RegistryStates.

(** the registry with the same templates and nothing cached *)
Definition cold (reg : Registry) : Registry :=
  {| templates := templates reg; inheritanceCache := [] |}.

(** What resolving [id] amounts to when nothing is cached: the stored
    template where it extends nothing, and otherwise the merge of the resolved
    parent with it. *)
Inductive Resolved (ts : jsmap IPromptTemplate) : string -> IPromptTemplate -> Prop :=
| resolved_root (id : string) (t : IPromptTemplate) :
    mapGet ts id = Some t -> extendsOrEmpty t = "" -> Resolved ts id t
| resolved_child (id : string) (t p : IPromptTemplate) :
    mapGet ts id = Some t -> extendsOrEmpty t <> "" ->
    Resolved ts (extendsOrEmpty t) p -> Resolved ts id (mergeTemplates p t).

(** every cached template is the resolution of its key *)
Definition coherent (ts cache : jsmap IPromptTemplate) : Prop :=
  forall id t, mapGet cache id = Some t -> Resolved ts id t.

(** [n] links lead from [k] to [x] *)
Fixpoint StepsN (ts : jsmap IPromptTemplate) (n : nat) (k x : string) : Prop :=
  match n with
  | O => k = x
  | S n' => exists d, StepsN ts n' k d /\ Step ts d x
  end.

(** every template is stored under its own identifier and has a name and a
    content *)
Definition keyed (ts : jsmap IPromptTemplate) : Prop :=
  forall k t, In (k, t) ts -> id t = k /\ name t <> "" /\ content t <> "".

End Resolution.

(** ** Templates with variables and metadata *)

Module RegistrySamples.
Import Str JS Types TemplateRegistry Samples.

Definition tagged (id name content : string) (extends : prop string)
           (vars : list IVariable) (md : object) : IPromptTemplate :=
  {| Types.id := id; Types.name := name; description := Absent; version := Absent;
     author := Absent; Types.extends := extends; variables := Val vars;
     contextLoading := Absent; taskDefinition := Absent; thinkingLevel := Absent;
     Types.content := content; metadata := Val md |}.

Definition taggedBase : IPromptTemplate :=
  tagged "base" "Base" "Base body" Absent [variable "title" "string"]
         [("category", VStr "general"); ("owner", VStr "core")].

Definition taggedChild : IPromptTemplate :=
  tagged "child" "Child" "Child body" (Val "base")
         [variable "title" "string"; variable "count" "number"]
         [("category", VStr "special")].

End RegistrySamples.

(** ** The simple stage on bodies of texts and references *)

Module Substitution.
Import Str JS Regex Types PromptConstructor SimpleBody.

(** the body after the simple stage: a reference whose key has a value is
    replaced by the formatted value, any other is kept as it is *)
Fixpoint substituted (variables : object) (ps : list piece) : string :=
  match ps with
  | [] => ""
  | Text t :: ps' => t ++ substituted variables ps'
  | Ref n :: ps' =>
      (if isNullish (getProp variables (trim n))
       then "{{" ++ n ++ "}}"
       else formatted (getProp variables (trim n)))
      ++ substituted variables ps'
  end.

(** the warnings of the simple stage: one for each reference without a
    value, in the order of the body *)
Fixpoint warningsOf (variables : object) (ps : list piece) : list string :=
  match ps with
  | [] => []
  | Text _ :: ps' => warningsOf variables ps'
  | Ref n :: ps' =>
      if isNullish (getProp variables (trim n))
      then undefinedWarning (trim n) :: warningsOf variables ps'
      else warningsOf variables ps'
  end.

(** the values that the context has for the references are formatted
    without a brace *)
Definition plainValues (variables : object) (ps : list piece) : bool :=
  forallb (fun p => match p with
                    | Text _ => true
                    | Ref n =>
                        let v := getProp variables (trim n) in
                        isNullish v || plainText (formatValue v)
                    end) ps.

(** the pieces of the body after the simple stage *)
Definition resolvedPieces (variables : object) (ps : list piece) : list piece :=
  map (fun p => match p with
                | Text t => Text t
                | Ref n =>
                    if isNullish (getProp variables (trim n))
                    then Ref n
                    else Text (formatted (getProp variables (trim n)))
                end) ps.

(** [x] starts nowhere inside [s], whatever follows [s] *)
Definition startsNowhere (x s : string) : Prop :=
  forall pre b rest, s = pre ++ b -> b <> "" -> startsWith x (b ++ rest) = false.


End Substitution.

(** ** Blocks *)

Module Blocks.
Import Str JS Regex Types PromptConstructor SimpleBody Substitution.







End Blocks.

Module EqualityBlocks.
Import Str JS Regex Types PromptConstructor SimpleBody Substitution Blocks.


(** what stands between the braces of the opening directive *)
Definition equalsDirective (n lit : string) : string :=
  "#if_equals " ++ n ++ " " ++ dq ++ lit ++ dq.

(** [{{#if_equals n Qlit Q}}body{{/if_equals}}], with Q for the double quote *)
Definition equalsBlock (n lit body : string) : string :=
  "{{" ++ equalsDirective n lit ++ "}}" ++ body ++ "{{/if_equals}}".

End EqualityBlocks.

(* ===================================================================== *)
(** * PromptConstructor: construct, constructFromTemplate *)
(* ===================================================================== *)

Module Construction.
Import Str JS Types PromptConstructor TemplateRegistry.

(** [IPromptConstructionOptions]; the fields [estimateTokens] and [context]
    are named [wantTokens] and [extraContext] here *)
Record IPromptConstructionOptions : Type := {
  validateVariables : option bool;
  includeMetadata : option bool;
  wantTokens : option bool;
  extraContext : option IPromptContext
}.

Record PromptMetadata : Type := {
  constructedAt : Z;
  templateVersion : option string;
  estimatedTokens : option Z
}.

Record IConstructedPrompt : Type := {
  prompt_id : string;
  templateId : string;
  prompt_content : string;
  prompt_context : IPromptContext;
  prompt_metadata : PromptMetadata
}.

(** the errors with which a construction fails: that of the registry,
    [new Error('Context validation failed: ...')], or the exception that the
    interpolation threw and [constructFromTemplate] caught *)
Inductive ConstructionError : Type :=
| RegistryFailure (e : RegistryError)
| ValidationFailed (messages : list string)
| InterpolationFailed (e : TypeError).

Definition constructionErrorMessage (e : ConstructionError) : string :=
  match e with
  | RegistryFailure e' => errorMessage e'
  | ValidationFailed messages => "Context validation failed: " ++ join ", " messages
  | InterpolationFailed e' => typeErrorMessage e'
  end.

(** [options?.flag] as a condition *)
Definition enabled (options : option IPromptConstructionOptions)
           (flag : IPromptConstructionOptions -> option bool) : bool :=
  match options with
  | Some o => match flag o with Some true => true | _ => false end
  | None => false
  end.

Section Environment.

(** What the construction takes from its surroundings: the identifier that
    [generateId] makes from the clock and [Math.random], the time of [new
    Date()], and [estimateTokens], whose arithmetic is in floating point. *)
Variable generateId : string.
Variable now : Z.
Variable estimateTokens : string -> Z.

(** the result and the warnings logged; [None] is a computation that ran
    out of call depth *)
Definition constructFromTemplate (fuel : nat) (template : IPromptTemplate)
           (context : IPromptContext) (options : option IPromptConstructionOptions)
  : option (IResult IConstructedPrompt ConstructionError * list string) :=
  let validation := validateContext template context in
  if enabled options validateVariables && negb (valid validation)
  then Some (failure (ValidationFailed (map message (errors validation))), [])
  else
    match interpolateVariables fuel (content template) (ctx_variables context) with
    | None => None
    | Some (Thrown e, log) => Some (failure (InterpolationFailed e), log)
    | Some (Normal interpolatedContent, log) =>
        Some (success
                {| prompt_id := generateId;
                   templateId := id template;
                   prompt_content := interpolatedContent;
                   prompt_context := context;
                   prompt_metadata :=
                     {| constructedAt := now;
                        templateVersion := read (version template);
                        estimatedTokens :=
                          if enabled options wantTokens
                          then Some (estimateTokens interpolatedContent)
                          else None |} |},
              log)
    end.

Definition construct (fuel : nat) (reg : Registry) (id : string)
           (context : IPromptContext) (options : option IPromptConstructionOptions)
  : option (IResult IConstructedPrompt ConstructionError * list string * Registry) :=
  match getResolved fuel reg id with
  | None => None
  | Some (failure e, reg') => Some (failure (RegistryFailure e), [], reg')
  | Some (success template, reg') =>
      match constructFromTemplate fuel template context options with
      | None => None
      | Some (r, log) => Some (r, log, reg')
      end
  end.

End Environment.

(** construction with validation of the variables *)
Definition validating : option IPromptConstructionOptions :=
  Some {| validateVariables := Some true; includeMetadata := None;
          wantTokens := None; extraContext := None |}.

End Construction.

Module ConstructionSamples.
Import Str JS Types PromptConstructor TemplateRegistry Samples RegistrySamples Construction.

(** a base template that declares [title] and a child that declares
    [name] and uses both *)
Definition promptBase : IPromptTemplate :=
  tagged "base" "Base" "Base {{title}}" Absent [variable "title" "string"] [].

Definition promptChild : IPromptTemplate :=
  tagged "child" "Child" "Dear {{name}}, {{title}}" (Val "base")
         [variable "name" "string"] [].

Definition promptRegistry : Registry :=
  {| templates := [("base", promptBase); ("child", promptChild)];
     inheritanceCache := [] |}.

End ConstructionSamples.

(** ** Documents as they are written, for the properties of the parser *)

Module ParserVocabulary.
Import Str JS Regex Types SimpleBody XmlTemplateParser Samples.

(** the attributes of an element as a document writes them *)
Definition renderAttributes (kvs : attributes) : string :=
  String.concat "" (map (fun kv => attribute (fst kv) (snd kv)) kvs).

(** a key of word characters and a value without a double quote, neither
    of them empty *)
Definition validAttribute (kv : string * string) : bool :=
  negb (fst kv =? "") && allIn isWord (fst kv)
  && negb (snd kv =? "") && negb (hasChar DQ (snd kv)).

(** the value that a list of attributes gives a key: that of the last
    attribute of that key *)
Fixpoint lastValue (kvs : attributes) (key : string) : option string :=
  match kvs with
  | [] => None
  | (k, v) :: kvs' =>
      match lastValue kvs' key with
      | Some w => Some w
      | None => if k =? key then Some v else None
      end
  end.

(** the references of a body: the trimmed names that are not empty, each
    once, in the order of their first occurrence *)
Definition referencesOf (ps : list piece) : list string :=
  fold_left (fun references p =>
               match p with
               | Text _ => references
               | Ref n => if negb (trim n =? "") then setAdd references (trim n)
                          else references
               end) ps [].

(** a template with the given content and declared variables *)
Definition authored (content : string) (vars : list IVariable) (extends : prop string)
  : IPromptTemplate :=
  {| id := "authored"; name := "Authored"; description := Absent; version := Absent;
     author := Absent; Types.extends := extends; variables := Val vars;
     contextLoading := Absent; taskDefinition := Absent; thinkingLevel := Absent;
     Types.content := content; metadata := Absent |}.

End ParserVocabulary.

(* ===================================================================== *)
(** * Facts about strings *)
(* ===================================================================== *)

Unset Implicit Arguments.

Module StrFacts.
Import Str.

Lemma append_nil_r (s : string) : s ++ "" = s.
Proof. induction s as [|c s IH]; simpl; [reflexivity | now rewrite IH]. Qed.

Lemma append_assoc (a b c : string) : (a ++ b) ++ c = a ++ b ++ c.
Proof. induction a as [|x a IH]; simpl; [reflexivity | now rewrite IH]. Qed.

Lemma length_append (a b : string) :
  String.length (a ++ b) = String.length a + String.length b.
Proof. induction a as [|x a IH]; simpl; [reflexivity | now rewrite IH]. Qed.

Lemma startsWith_append (p s : string) : startsWith p (p ++ s) = true.
Proof.
  induction p as [|c p IH]; simpl; [reflexivity|].
  now rewrite Ascii.eqb_refl.
Qed.

Lemma startsWith_split (p s : string) :
  startsWith p s = true -> s = p ++ drop (String.length p) s.
Proof.
  revert s; induction p as [|c p IH]; intros s H; simpl in *; [reflexivity|].
  destruct s as [|d s]; [discriminate|].
  apply andb_true_iff in H as [Hc H]. apply Ascii.eqb_eq in Hc as ->.
  simpl. f_equal. now apply IH.
Qed.

Lemma startsWith_append_false (a b s : string) :
  startsWith a s = false -> startsWith (a ++ b) s = false.
Proof.
  revert s; induction a as [|c a IH]; intros s H; simpl in *; [discriminate|].
  destruct s as [|d s]; [reflexivity|].
  destruct (Ascii.eqb c d); simpl in *; [now apply IH | reflexivity].
Qed.

Lemma drop_append (a b : string) : drop (String.length a) (a ++ b) = b.
Proof. induction a as [|c a IH]; simpl; [now destruct b | exact IH]. Qed.

Lemma take_append (a b : string) : take (String.length a) (a ++ b) = a.
Proof.
  induction a as [|c a IH]; simpl; [now destruct b | now rewrite IH].
Qed.

Lemma stripPrefix_Some (p s rest : string) :
  stripPrefix p s = Some rest -> s = p ++ rest.
Proof.
  unfold stripPrefix. destruct (startsWith p s) eqn:E; [|discriminate].
  intros [= <-]. now apply startsWith_split.
Qed.

Lemma stripPrefix_append (p rest : string) : stripPrefix p (p ++ rest) = Some rest.
Proof. unfold stripPrefix. now rewrite startsWith_append, drop_append. Qed.

Lemma stripPrefix_None (p s : string) : startsWith p s = false -> stripPrefix p s = None.
Proof. unfold stripPrefix. now intros ->. Qed.

(** ** [includes] *)

Lemma includes_empty (s : string) : includes "" s = true.
Proof. destruct s; reflexivity. Qed.

Lemma includes_middle (pre x post : string) : includes x (pre ++ x ++ post) = true.
Proof.
  induction pre as [|c pre IH]; simpl.
  - destruct (x ++ post) eqn:E; simpl.
    + destruct x; [reflexivity | discriminate].
    + rewrite <- E, startsWith_append. reflexivity.
  - rewrite IH. apply orb_true_r.
Qed.

Lemma includes_false_suffix (x pre s : string) :
  includes x (pre ++ s) = false -> startsWith x s = false.
Proof.
  induction pre as [|c pre IH]; simpl; intros H.
  - destruct s; simpl in H; apply orb_false_iff in H; tauto.
  - apply orb_false_iff in H. tauto.
Qed.

(** ** Texts without a given code unit *)

Lemma hasChar_append (c : ascii) (a b : string) :
  hasChar c (a ++ b) = hasChar c a || hasChar c b.
Proof.
  induction a as [|d a IH]; simpl; [reflexivity|].
  now rewrite IH, orb_assoc.
Qed.

Lemma includes_needs_first (c : ascii) (x s : string) :
  hasChar c s = false -> includes (String c x) s = false.
Proof.
  induction s as [|d s IH]; simpl; intros H; [reflexivity|].
  apply orb_false_iff in H as [Hd Hs].
  rewrite (IH Hs), orb_false_r.
  destruct s; simpl; now rewrite Hd.
Qed.

End StrFacts.

(* ===================================================================== *)
(** * Facts about objects *)
(* ===================================================================== *)

Module ObjectFacts.
Import Str JS.

(** ** The own properties in the order of [Object.entries] *)

Section OwnEntries.
Variable A : Type.

Lemma insertByIndex_permutation (i : N) (kv : string * A) (l : list (N * (string * A))) :
  Permutation (insertByIndex i kv l) ((i, kv) :: l).
Proof.
  induction l as [|[j kv'] l IH]; cbn [insertByIndex]; [reflexivity|].
  destruct (i <? j)%N; [reflexivity|].
  rewrite IH. apply perm_swap.
Qed.

Lemma byIndex_permutation (l : list (N * (string * A))) : Permutation (byIndex l) l.
Proof.
  induction l as [|[i kv] l IH]; cbn [byIndex fold_right fst snd]; [reflexivity|].
  fold (byIndex l). rewrite insertByIndex_permutation. now constructor.
Qed.

Lemma partition_permutation (o : list (string * A)) :
  Permutation (map snd (indexed o) ++ named o)%list o.
Proof.
  induction o as [|[k v] o IH]; [reflexivity|].
  unfold indexed, named in *. cbn [flat_map filter fst].
  destruct (arrayIndex k); cbn [app map snd].
  - now constructor.
  - apply Permutation_sym, Permutation_cons_app, Permutation_sym, IH.
Qed.

Lemma ownEntries_permutation (o : list (string * A)) :
  Permutation (ownEntries o) (firsts [] o).
Proof.
  unfold ownEntries. rewrite byIndex_permutation. apply partition_permutation.
Qed.

Lemma firsts_keys (o : list (string * A)) :
  forall seen k, In k (map fst (firsts seen o)) -> ~ In k seen.
Proof.
  induction o as [|[k' v'] o IH]; intros seen k; cbn [firsts]; [intros []|].
  destruct (existsb (String.eqb k') seen) eqn:E; [apply IH|].
  cbn [map fst]. intros [<-|H] Hseen.
  - assert (existsb (String.eqb k') seen = true) as E'
        by (apply existsb_exists; exists k'; split; [exact Hseen | apply String.eqb_refl]).
    congruence.
  - apply (IH _ _ H). now right.
Qed.

Lemma firsts_NoDup (o : list (string * A)) :
  forall seen, NoDup (map fst (firsts seen o)).
Proof.
  induction o as [|[k v] o IH]; intros seen; cbn [firsts]; [constructor|].
  destruct (existsb (String.eqb k) seen); [apply IH|].
  cbn [map fst]. constructor; [|apply IH].
  intros H. apply (firsts_keys _ _ _ H). now left.
Qed.

Lemma ownEntries_NoDup (o : list (string * A)) : NoDup (map fst (ownEntries o)).
Proof.
  apply (Permutation_NoDup (l := map fst (firsts [] o))); [|apply firsts_NoDup].
  apply Permutation_sym, Permutation_map, ownEntries_permutation.
Qed.
End OwnEntries.

Lemma firsts_In (o : object) :
  forall seen k v,
    In (k, v) (firsts seen o) <-> ~ In k seen /\ hasOwn o k = true /\ getProp o k = Data v.
Proof.
  induction o as [|[k' v'] o IH]; intros seen k v; cbn [firsts hasOwn getProp].
  - split; [intros [] | intros (_ & H & _); discriminate].
  - assert (Hseen : existsb (String.eqb k') seen = true <-> In k' seen).
    { rewrite existsb_exists. split.
      - intros (x & Hx & E). apply String.eqb_eq in E. now subst.
      - intros H. exists k'. split; [exact H | apply String.eqb_refl]. }
    destruct (existsb (String.eqb k') seen) eqn:E.
    + rewrite IH. destruct (String.eqb_spec k' k) as [->|Hne]; cbn [orb]; [|tauto].
      split; [intros [H _]; elim H; now apply Hseen | intros [H _]; elim H; now apply Hseen].
    + assert (Hnot : ~ In k' seen) by (intros H; apply Hseen in H; discriminate).
      cbn [In]. rewrite IH. destruct (String.eqb_spec k' k) as [->|Hne]; cbn [orb].
      * split.
        -- intros [H|[H _]]; [injection H as <-; auto | elim H; now left].
        -- intros (_ & _ & H). injection H as <-. now left.
      * split.
        -- intros [H|(H1 & H2 & H3)]; [congruence|]. repeat split; auto.
           intros H. apply H1. now right.
        -- intros (H1 & H2 & H3). right. repeat split; auto.
           intros [H|H]; [congruence | auto].
Qed.

(** what [Object.entries] lists: each own property once, with its value *)
Lemma ownEntries_In (o : object) (k : string) (v : value) :
  In (k, v) (ownEntries o) <-> hasOwn o k = true /\ getProp o k = Data v.
Proof.
  split.
  - intros H. apply (Permutation_in _ (ownEntries_permutation _ o)) in H.
    apply firsts_In in H. tauto.
  - intros [H1 H2].
    apply (Permutation_in _ (Permutation_sym (ownEntries_permutation _ o))).
    apply firsts_In. split; [intros []|auto].
Qed.

Lemma hasOwn_In (o : object) (k : string) : hasOwn o k = true <-> In k (map fst o).
Proof.
  induction o as [|[k' v] o IH]; cbn [hasOwn map fst In]; [split; [discriminate|tauto]|].
  rewrite orb_true_iff, IH, String.eqb_eq. tauto.
Qed.

Lemma getProp_setProp_eq (o : object) (k : string) (v : value) :
  getProp (setProp o k v) k = Data v.
Proof.
  induction o as [|[k' w] o IH]; simpl; [now rewrite String.eqb_refl|].
  destruct (k' =? k) eqn:E; simpl; now rewrite E.
Qed.

Lemma getProp_setProp_neq (o : object) (k j : string) (v : value) :
  k <> j -> getProp (setProp o k v) j = getProp o j.
Proof.
  intros Hne. induction o as [|[k' w] o IH]; simpl.
  - now apply String.eqb_neq in Hne as ->.
  - destruct (String.eqb_spec k' k) as [->|Hk]; simpl.
    + now apply String.eqb_neq in Hne as ->.
    + now rewrite IH.
Qed.

(** defining properties of distinct names one after the other *)
Lemma getProp_defined (l : object) :
  NoDup (map fst l) ->
  forall a k,
    (forall v, In (k, v) l -> getProp (fold_left (fun acc kv => setProp acc (fst kv) (snd kv))
                                                 l a) k = Data v)
    /\ (~ In k (map fst l) ->
        getProp (fold_left (fun acc kv => setProp acc (fst kv) (snd kv)) l a) k
        = getProp a k).
Proof.
  induction l as [|[k1 v1] l IH]; intros Hnd a k; cbn [fold_left map fst snd].
  - split; [intros v [] | reflexivity].
  - inversion Hnd as [|? ? Hnotin Hnd']; subst.
    destruct (IH Hnd' (setProp a k1 v1) k) as [IHin IHout]. split.
    + intros v [H|H].
      * injection H as -> ->. rewrite (IHout Hnotin). apply getProp_setProp_eq.
      * exact (IHin v H).
    + intros H. rewrite IHout by (intros H'; apply H; now right).
      apply getProp_setProp_neq. intros ->. apply H. now left.
Qed.

(** a spread reads as its second object where that has the property, and
    as the first elsewhere *)
Lemma getProp_spread (a b : object) (k : string) :
  getProp (spread a b) k = if hasOwn b k then getProp b k else getProp a k.
Proof.
  unfold spread.
  destruct (getProp_defined (ownEntries b) (ownEntries_NoDup _ b) a k) as [Hin Hout].
  destruct (hasOwn b k) eqn:E.
  - assert (Hv : exists v, getProp b k = Data v).
    { clear Hin Hout. induction b as [|[k' v'] b IH]; cbn [hasOwn getProp] in *;
        [discriminate|].
      destruct (k' =? k); [eauto | auto]. }
    destruct Hv as (v & Hv). rewrite Hv. apply Hin. apply ownEntries_In. auto.
  - apply Hout. intros H. apply in_map_iff in H as ([k' v] & Hk & H).
    cbn [fst] in Hk. subst k'. apply ownEntries_In in H as [H _]. congruence.
Qed.

End ObjectFacts.

(* ===================================================================== *)
(** * Facts about the matchers *)
(* ===================================================================== *)

Module RegexFacts.
Import Str Regex StrFacts.

Section Sound.
Variable R : Type.

Lemma lit_sound (p : string) (k : string -> option R) (s : string) (r : R) :
  lit p k s = Some r -> exists rest, s = p ++ rest /\ k rest = Some r.
Proof.
  unfold lit. destruct (stripPrefix p s) as [rest|] eqn:E; [|discriminate].
  intros H. exists rest. split; [now apply stripPrefix_Some | exact H].
Qed.

Lemma lit_complete (p : string) (k : string -> option R) (rest : string) :
  lit p k (p ++ rest) = k rest.
Proof. unfold lit. now rewrite stripPrefix_append. Qed.

Lemma lit_fails (p : string) (k : string -> option R) (s : string) :
  startsWith p s = false -> lit p k s = None.
Proof. intros H. unfold lit. now rewrite stripPrefix_None. Qed.

Lemma starGreedy_sound (P : ascii -> bool) (s : string) :
  forall (k : string -> string -> option R) (r : R),
    starGreedy P k s = Some r ->
    exists cap rest, s = cap ++ rest /\ allIn P cap = true /\ k cap rest = Some r.
Proof.
  induction s as [|c s IH]; intros k r H; simpl in H.
  - exists "", "". auto.
  - destruct (P c) eqn:Pc.
    + destruct (starGreedy P (fun cap rest => k (String c cap) rest) s) as [r'|] eqn:E.
      * injection H as <-.
        destruct (IH _ _ E) as (cap & rest & -> & Hall & Hk).
        exists (String c cap), rest. simpl. rewrite Pc. auto.
      * exists "", (String c s). auto.
    + exists "", (String c s). auto.
Qed.

Lemma starLazy_sound (P : ascii -> bool) (s : string) :
  forall (k : string -> string -> option R) (r : R),
    starLazy P k s = Some r ->
    exists cap rest, s = cap ++ rest /\ allIn P cap = true /\ k cap rest = Some r.
Proof.
  induction s as [|c s IH]; intros k r H; simpl in H.
  - destruct (k "" "") eqn:E; [|discriminate].
    exists "", "". rewrite E. auto.
  - destruct (k "" (String c s)) eqn:E.
    + exists "", (String c s). rewrite E. auto.
    + destruct (P c) eqn:Pc; [|discriminate].
      destruct (IH _ _ H) as (cap & rest & -> & Hall & Hk).
      exists (String c cap), rest. simpl. rewrite Pc. auto.
Qed.

Lemma plusGreedy_sound (P : ascii -> bool) (k : string -> string -> option R)
      (s : string) (r : R) :
  plusGreedy P k s = Some r ->
  exists cap rest, s = cap ++ rest /\ cap <> "" /\ allIn P cap = true
                   /\ k cap rest = Some r.
Proof.
  destruct s as [|c s]; simpl; [discriminate|].
  destruct (P c) eqn:Pc; [|discriminate].
  intros H. destruct (starGreedy_sound _ _ _ _ H) as (cap & rest & -> & Hall & Hk).
  exists (String c cap), rest. simpl. rewrite Pc. repeat split; auto. discriminate.
Qed.

(** A greedy star takes the whole run when what follows accepts it. *)
Lemma starGreedy_complete (P : ascii -> bool) (run rest : string) :
  forall (k : string -> string -> option R) (r : R),
    allIn P run = true -> stopsAt P rest = true ->
    k run rest = Some r ->
    starGreedy P k (run ++ rest) = Some r.
Proof.
  induction run as [|c run IH]; intros k r Hall Hstop Hk; simpl in *.
  - destruct rest as [|d rest]; simpl in *; [exact Hk|].
    destruct (P d); [discriminate | exact Hk].
  - apply andb_true_iff in Hall as [Pc Hall]. rewrite Pc.
    now rewrite (IH (fun cap rest0 => k (String c cap) rest0) r Hall Hstop Hk).
Qed.

Lemma plusGreedy_complete (P : ascii -> bool) (run rest : string)
      (k : string -> string -> option R) (r : R) :
  run <> "" -> allIn P run = true -> stopsAt P rest = true ->
  k run rest = Some r ->
  plusGreedy P k (run ++ rest) = Some r.
Proof.
  destruct run as [|c run]; [congruence|]. intros _ Hall Hstop Hk. simpl in *.
  apply andb_true_iff in Hall as [Pc Hall]. rewrite Pc.
  now apply starGreedy_complete.
Qed.
End Sound.

(** ** Scanning *)

Section Scan.
Variable C : Type.
Variable rx : regex C.

(** every hit comes from a match of the pattern at some place of the text *)
Lemma scanFrom_hit (s : string) :
  forall skip text caps,
    In (Hit text caps) (scanFrom rx s skip) ->
    exists pre s' rest,
      s = pre ++ s' /\ rx s' = Some (caps, rest)
      /\ text = take (String.length s' - String.length rest) s'.
Proof.
  induction s as [|c s IH]; intros skip text caps H; simpl in H; [contradiction|].
  assert (Hrec : forall n, In (Hit text caps) (scanFrom rx s n) ->
            exists pre s' rest,
              String c s = pre ++ s' /\ rx s' = Some (caps, rest)
              /\ text = take (String.length s' - String.length rest) s').
  { intros n Hn. destruct (IH _ _ _ Hn) as (pre & s' & rest & -> & Hrx & Ht).
    exists (String c pre), s', rest. auto. }
  destruct skip as [|n]; [|now apply (Hrec n)].
  destruct (rx (String c s)) as [[caps' rest]|] eqn:E.
  - destruct H as [H|H]; [|now apply (Hrec _ H)].
    injection H as <- <-. exists "", (String c s), rest. auto.
  - destruct H as [H|H]; [discriminate | now apply (Hrec _ H)].
Qed.

(** where the pattern matches nowhere the text is kept as it is *)
Lemma scanFrom_no_match (s : string) :
  (forall pre s', s = pre ++ s' -> rx s' = None) ->
  scanFrom rx s 0 = keeps C s.
Proof.
  induction s as [|c s IH]; intros H; simpl; [reflexivity|].
  rewrite (H "" (String c s) eq_refl). f_equal. apply IH.
  intros pre s' ->. apply (H (String c pre)). reflexivity.
Qed.

(** skipping over a matched text *)
Lemma scanFrom_skip (a b : string) :
  scanFrom rx (a ++ b) (String.length a) = scanFrom rx b 0.
Proof.
  induction a as [|c a IH]; simpl; [|exact IH].
  destruct b; reflexivity.
Qed.

(** a text that the pattern does not touch, in front of the rest *)
Lemma scanFrom_keep_prefix (a b : string) :
  (forall pre s', a = pre ++ s' -> s' <> "" -> rx (s' ++ b) = None) ->
  scanFrom rx (a ++ b) 0 = (keeps C a ++ scanFrom rx b 0)%list.
Proof.
  induction a as [|c a IH]; intros H; simpl; [now destruct b|].
  assert (E : rx (String c (a ++ b)) = None)
    by (apply (H "" (String c a) eq_refl); discriminate).
  rewrite E. f_equal. apply IH. intros pre s' -> Hs'.
  apply (H (String c pre)); auto.
Qed.

(** a match at the very start *)
Lemma scanFrom_hit_first (m rest : string) (caps : C) :
  m <> "" -> rx (m ++ rest) = Some (caps, rest) ->
  scanFrom rx (m ++ rest) 0 = Hit m caps :: scanFrom rx rest 0.
Proof.
  destruct m as [|c m]; [congruence|]. intros _ H.
  cbn [append scanFrom] in *. rewrite H.
  assert (L : String.length (String c (m ++ rest)) - String.length rest
              = S (String.length m))
    by (cbn [String.length]; rewrite length_append; lia).
  rewrite L. cbn [take]. rewrite take_append.
  replace (S (String.length m) - 1) with (String.length m) by lia.
  now rewrite scanFrom_skip.
Qed.
End Scan.

End RegexFacts.

(* ===================================================================== *)
(** * Facts about the interpolation engine *)
(* ===================================================================== *)

Module InterpolationFacts.
Import Str JS Regex Types PromptConstructor StrFacts RegexFacts.

Lemma bind_ret_l (A B : Type) (a : A) (f : A -> M B) : bind (ret a) f = f a.
Proof. unfold bind, ret. destruct (f a) as [[b w]|]; reflexivity. Qed.

Lemma bind_Some (A B : Type) (m : M A) (f : A -> M B) (b : B) (w : list string) :
  bind m f = Some (Normal b, w) ->
  exists a w1 w2,
    m = Some (Normal a, w1) /\ f a = Some (Normal b, w2) /\ w = (w1 ++ w2)%list.
Proof.
  unfold bind. destruct m as [[[a|e] w1]|]; [|discriminate|discriminate].
  destruct (f a) as [[b' w2]|] eqn:E; [|discriminate].
  intros H. injection H as <- <-. exists a, w1, w2. auto.
Qed.

Lemma bind_eval (A B : Type) (a : A) (f : A -> M B) : bind (eval (Normal a)) f = f a.
Proof. unfold bind, eval. destruct (f a) as [[b w]|]; reflexivity. Qed.

(** ** [replaceWith] *)

Lemma replaceWith_keeps (C : Type) (callback : string -> C -> M string) (s : string) :
  replaceWith callback (keeps C s) = ret s.
Proof.
  induction s as [|c s IH]; simpl; [reflexivity|]. now rewrite IH.
Qed.

Lemma replace_no_match (C : Type) (rx : regex C) (callback : string -> C -> M string)
      (s : string) :
  (forall pre s', s = pre ++ s' -> rx s' = None) ->
  replace rx callback s = ret s.
Proof.
  intros H. unfold replace, scan. rewrite (scanFrom_no_match _ rx s H).
  apply replaceWith_keeps.
Qed.

(** a replacement whose callback always returns, with a result or an
    exception, returns as well *)
Lemma replaceWith_total (C : Type) (callback : string -> C -> M string)
      (l : list (segment C)) :
  (forall t c, exists r w, callback t c = Some (r, w)) ->
  exists out log, replaceWith callback l = Some (out, log).
Proof.
  intros Hcb. induction l as [|[c|t caps] l (out & log & IH)]; simpl.
  - now exists (Normal ""), [].
  - rewrite IH. destruct out; simpl; eauto.
  - destruct (Hcb t caps) as (r & w & E). rewrite E, IH.
    destruct r, out; simpl; eauto.
Qed.

(** ... and with a result where the callback throws on no hit *)
Lemma replaceWith_normal (C : Type) (callback : string -> C -> M string)
      (l : list (segment C)) :
  (forall t c, In (Hit t c) l -> exists r w, callback t c = Some (Normal r, w)) ->
  exists out log, replaceWith callback l = Some (Normal out, log).
Proof.
  induction l as [|[c|t caps] l IH]; intros Hcb; simpl.
  - now exists "", [].
  - destruct IH as (out & log & IH); [intros t c' H; apply Hcb; now right|].
    rewrite IH. simpl. eauto.
  - destruct (Hcb t caps (or_introl eq_refl)) as (r & w & E).
    destruct IH as (out & log & IH); [intros t' c' H; apply Hcb; now right|].
    rewrite E, IH. simpl. eauto.
Qed.

(** what the callback returns for a hit is part of the result, and what it
    logs is part of the log *)
Lemma replaceWith_hit (C : Type) (callback : string -> C -> M string)
      (l : list (segment C)) :
  forall out log text caps,
    replaceWith callback l = Some (Normal out, log) ->
    In (Hit text caps) l ->
    exists r w, callback text caps = Some (Normal r, w)
                /\ (exists pre post, out = pre ++ r ++ post)
                /\ (forall m, In m w -> In m log).
Proof.
  induction l as [|[c|t caps'] l IH]; intros out log text caps H Hin; simpl in *.
  - contradiction.
  - destruct Hin as [Hin|Hin]; [discriminate|].
    apply bind_Some in H as (o1 & w1 & w2 & H1 & H2 & ->).
    injection H2 as <- <-.
    destruct (IH _ _ _ _ H1 Hin) as (r & w & Hc & (pre & post & ->) & Hw).
    exists r, w. split; [exact Hc|]. split.
    + now exists (String c pre), post.
    + intros m Hm. apply in_or_app. left. auto.
  - apply bind_Some in H as (r0 & w0 & w1 & H0 & H1 & ->).
    apply bind_Some in H1 as (o1 & w2 & w3 & H2 & H3 & ->).
    injection H3 as <- <-.
    destruct Hin as [Hin|Hin].
    + injection Hin as -> ->. exists r0, w0. split; [exact H0|]. split.
      * now exists "", o1.
      * intros m Hm. apply in_or_app. now left.
    + destruct (IH _ _ _ _ H2 Hin) as (r & w & Hc & (pre & post & ->) & Hw).
      exists r, w. split; [exact Hc|]. split.
      * exists (r0 ++ pre), post. now rewrite append_assoc.
      * intros m Hm. apply in_or_app. right. apply in_or_app. left. auto.
Qed.

(** ** The simple pattern *)

Lemma simpleRegex_sound (s name rest : string) :
  simpleRegex s = Some (name, rest) ->
  s = ("{{" ++ name ++ "}}") ++ rest /\ name <> "".
Proof.
  unfold simpleRegex. intros H.
  apply lit_sound in H as (r1 & -> & H).
  apply plusGreedy_sound in H as (cap & r2 & -> & Hne & _ & H).
  apply lit_sound in H as (r3 & -> & H).
  injection H as <- <-. split; [|exact Hne].
  simpl. now rewrite !append_assoc.
Qed.

Lemma simpleRegex_complete (name rest : string) :
  name <> "" -> allIn notRBrace name = true ->
  simpleRegex (("{{" ++ name ++ "}}") ++ rest) = Some (name, rest).
Proof.
  intros Hne Hall. unfold simpleRegex.
  replace (("{{" ++ name ++ "}}") ++ rest) with ("{{" ++ name ++ "}}" ++ rest)
    by (simpl; now rewrite !append_assoc).
  rewrite lit_complete.
  apply plusGreedy_complete; auto.
Qed.

Lemma simple_hit_text (content text raw : string) :
  In (Hit text raw) (scan simpleRegex content) -> text = "{{" ++ raw ++ "}}".
Proof.
  intros H. apply scanFrom_hit in H as (pre & s' & rest & _ & Hrx & ->).
  apply simpleRegex_sound in Hrx as [-> _].
  rewrite length_append.
  replace (String.length ("{{" ++ raw ++ "}}") + String.length rest - String.length rest)
    with (String.length ("{{" ++ raw ++ "}}")) by lia.
  apply take_append.
Qed.

Lemma simpleCallback_total (variables : object) (text raw : string) :
  exists r w, simpleCallback variables text raw = Some (r, w).
Proof.
  unfold simpleCallback. destruct (isNullish _); cbv [warn ret bind eval]; eauto.
Qed.

Lemma simpleCallback_unresolved (variables : object) (text raw : string) :
  isNullish (getProp variables (trim raw)) = true ->
  simpleCallback variables text raw
  = Some (Normal text, [undefinedWarning (trim raw)]).
Proof. unfold simpleCallback. now intros ->. Qed.

Lemma simpleCallback_resolved (variables : object) (text raw : string) :
  isNullish (getProp variables (trim raw)) = false ->
  simpleCallback variables text raw
  = eval (formatValue (getProp variables (trim raw))).
Proof. unfold simpleCallback. now intros ->. Qed.

(** ** Texts without a block opener pass the four block stages unchanged *)

Section NoBlock.
Variable interp : string -> object -> M string.
Variable variables : object.
Variable s : string.
Hypothesis Hs : includes "{{#" s = false.

Lemma opener_fails (R : Type) (word : string) (k : string -> option R)
      (pre s' : string) :
  s = pre ++ s' -> lit ("{{#" ++ word) k s' = None.
Proof.
  intros E. apply lit_fails, startsWith_append_false.
  apply (includes_false_suffix _ pre). now rewrite <- E.
Qed.

Lemma processConditionals_no_block : processConditionals interp s variables = ret s.
Proof.
  apply replace_no_match. intros pre s' E. exact (opener_fails _ "if" _ pre s' E).
Qed.

Lemma processLoops_no_block : processLoops interp s variables = ret s.
Proof.
  apply replace_no_match. intros pre s' E. exact (opener_fails _ "each" _ pre s' E).
Qed.

Lemma processEqualityConditionals_no_block :
  processEqualityConditionals interp s variables = ret s.
Proof.
  apply replace_no_match. intros pre s' E. exact (opener_fails _ "if_equals" _ pre s' E).
Qed.

Lemma processSwitchStatements_no_block :
  processSwitchStatements interp s variables = ret s.
Proof.
  apply replace_no_match. intros pre s' E. exact (opener_fails _ "switch" _ pre s' E).
Qed.

Lemma processBlocks_no_block : processBlocks interp s variables = ret s.
Proof.
  unfold processBlocks.
  rewrite processConditionals_no_block, bind_ret_l.
  rewrite processLoops_no_block, bind_ret_l.
  rewrite processEqualityConditionals_no_block, bind_ret_l.
  apply processSwitchStatements_no_block.
Qed.
End NoBlock.

Lemma interpolateVariables_unfold (fuel : nat) (content : string) (variables : object) :
  interpolateVariables (S fuel) content variables
  = (interpolated <- substituteSimple content variables ;;
     processBlocks (interpolateVariables fuel) interpolated variables).
Proof. reflexivity. Qed.

Lemma interpolate_no_block (fuel : nat) (content : string) (variables : object)
      (out : string) (log : list string) :
  substituteSimple content variables = Some (Normal out, log) ->
  includes "{{#" out = false ->
  interpolateVariables (S fuel) content variables = Some (Normal out, log).
Proof.
  intros H1 H2. rewrite interpolateVariables_unfold, H1. simpl.
  rewrite (processBlocks_no_block _ _ _ H2). simpl. now rewrite app_nil_r.
Qed.

(** ** More call depth does not change a result *)

Lemma bind_mono (A B : Type) (m m' : M A) (f f' : A -> M B)
      (r : completion B * list string) :
  (forall x, m = Some x -> m' = Some x) ->
  (forall a y, f a = Some y -> f' a = Some y) ->
  bind m f = Some r -> bind m' f' = Some r.
Proof.
  intros Hm Hf. unfold bind.
  destruct m as [[[a|e] w1]|]; [| |discriminate].
  - rewrite (Hm _ eq_refl).
    destruct (f a) as [[b w2]|] eqn:E; [|discriminate].
    now rewrite (Hf _ _ E).
  - now rewrite (Hm _ eq_refl).
Qed.

Lemma replaceWith_mono (C : Type) (cb cb' : string -> C -> M string)
      (l : list (segment C)) :
  (forall t c y, cb t c = Some y -> cb' t c = Some y) ->
  forall r, replaceWith cb l = Some r -> replaceWith cb' l = Some r.
Proof.
  intros Hcb. induction l as [|[c|t caps] l IH]; intros r H; cbn [replaceWith] in *.
  - exact H.
  - revert H. apply bind_mono; auto.
  - revert H. apply bind_mono; [intros x; apply Hcb|].
    intros a y. apply bind_mono; auto.
Qed.

Section StagesMono.
Variables interp interp' : string -> object -> M string.
Hypothesis Hinterp : below interp interp'.

Lemma processConditionals_mono :
  below (processConditionals interp) (processConditionals interp').
Proof.
  intros content variables r. apply replaceWith_mono.
  intros t [condition inner] y. unfold conditionalCallback.
  destruct (isTruthy _); auto.
Qed.

Lemma mapItems_mono (template : string) (variables : object) (len : nat)
      (items : list value) :
  forall index y,
    mapItems interp template variables len items index = Some y ->
    mapItems interp' template variables len items index = Some y.
Proof.
  induction items as [|item items IH]; intros index y H; cbn [mapItems] in *; [exact H|].
  revert H. apply bind_mono; [intros x; apply Hinterp|].
  intros a z. apply bind_mono; auto.
Qed.

Lemma processLoops_mono : below (processLoops interp) (processLoops interp').
Proof.
  intros content variables r. apply replaceWith_mono.
  intros t [arrayName template] y. unfold loopCallback.
  destruct (getProp variables (trim arrayName)) as [[]|]; auto.
  apply bind_mono; auto. intros x. apply mapItems_mono.
Qed.

Lemma processEqualityConditionals_mono :
  below (processEqualityConditionals interp) (processEqualityConditionals interp').
Proof.
  intros content variables r. apply replaceWith_mono.
  intros t [[variableName expectedValue] inner] y. unfold equalityCallback.
  apply bind_mono; [auto|]. intros a z. destruct (_ =? _); auto.
Qed.

Lemma firstCase_mono (value : string) (variables : object)
      (cases : list (string * (string * string)))
      (y : completion string * list string) :
  firstCase interp value variables cases = Some y ->
  firstCase interp' value variables cases = Some y.
Proof.
  induction cases as [|[t [cv cc]] cases IH]; cbn [firstCase]; [auto|].
  destruct (value =? cv); auto.
Qed.

Lemma processSwitchStatements_mono :
  below (processSwitchStatements interp) (processSwitchStatements interp').
Proof.
  intros content variables r. apply replaceWith_mono.
  intros t [variableName switchContent] y. unfold switchCallback.
  apply bind_mono; [auto|]. intros a z. apply firstCase_mono.
Qed.

Lemma processBlocks_mono : below (processBlocks interp) (processBlocks interp').
Proof.
  intros content variables r. unfold processBlocks.
  apply bind_mono; [intros x; apply processConditionals_mono|]. intros a y.
  apply bind_mono; [intros x; apply processLoops_mono|]. intros b z.
  apply bind_mono; [intros x; apply processEqualityConditionals_mono|]. intros c.
  apply processSwitchStatements_mono.
Qed.
End StagesMono.

Lemma interpolateVariables_mono (fuel : nat) :
  forall fuel', fuel <= fuel' ->
                below (interpolateVariables fuel) (interpolateVariables fuel').
Proof.
  induction fuel as [|fuel IH]; intros fuel' Hle content variables r H; [discriminate|].
  destruct fuel' as [|fuel']; [lia|].
  rewrite interpolateVariables_unfold in *. revert H.
  apply bind_mono; [auto|]. intros a y.
  apply processBlocks_mono. apply IH. lia.
Qed.

End InterpolationFacts.

(* ===================================================================== *)
(** * The interpolation engine: order of stages, placeholders, switch *)
(* ===================================================================== *)

Module InterpolationProperties.
Import Str JS Regex Types PromptConstructor SimpleBody Samples.
Import StrFacts RegexFacts InterpolationFacts.

Lemma pipeline_five (s1 s2 s3 s4 s5 : string -> object -> M string)
      (content : string) (variables : object) :
  pipeline [s1; s2; s3; s4; s5] content variables
  = (a <- s1 content variables ;;
     b <- s2 a variables ;;
     c <- s3 b variables ;;
     d <- s4 c variables ;;
     s5 d variables).
Proof.
  cbn [pipeline]. unfold bind, ret.
  destruct (s1 content variables) as [[[a|e1] w1]|]; [|reflexivity|reflexivity].
  destruct (s2 a variables) as [[[b|e2] w2]|]; [|reflexivity|reflexivity].
  destruct (s3 b variables) as [[[c|e3] w3]|]; [|reflexivity|reflexivity].
  destruct (s4 c variables) as [[[d|e4] w4]|]; [|reflexivity|reflexivity].
  destruct (s5 d variables) as [[[e|e5] w5]|]; [|reflexivity|reflexivity].
  now rewrite app_nil_r.
Qed.

(** ** Order of the stages *)

(** C1 (amended).  For every body text and context, [interpolateVariables]
    applies the simple substitution first, over the whole text, and only then
    the conditionals, the loops, the equality conditionals and the switch
    statements, in that order; each stage scans the entire text returned by
    the stage before it, and every inner text is interpolated by the same
    sequence of stages. *)
Theorem interpolate_stage_order (fuel : nat) (content : string) (variables : object) :
  interpolateVariables (S fuel) content variables
  = pipeline [ substituteSimple;
               processConditionals (interpolateVariables fuel);
               processLoops (interpolateVariables fuel);
               processEqualityConditionals (interpolateVariables fuel);
               processSwitchStatements (interpolateVariables fuel) ]
             content variables.
Proof. now rewrite pipeline_five. Qed.

(** the order that the specification states, for comparison *)
Lemma spec_stage_order (fuel : nat) (content : string) (variables : object) :
  interpolateSpecOrder (S fuel) content variables
  = pipeline [ processConditionals (interpolateSpecOrder fuel);
               processLoops (interpolateSpecOrder fuel);
               processEqualityConditionals (interpolateSpecOrder fuel);
               processSwitchStatements (interpolateSpecOrder fuel);
               substituteSimple ]
             content variables.
Proof. now rewrite pipeline_five. Qed.

(** C1 (counterexample).  With the simple substitution last, the loop body
    [{{this}}] would show the current item; the source substitutes [{{this}}]
    from the outer context before the loop is looked at. *)
Lemma stage_order_counterexample :
  option_map fst (interpolateVariables 2 loopBody loopVariables) = Some (Normal "outer")
  /\ option_map fst (interpolateSpecOrder 2 loopBody loopVariables) = Some (Normal "A").
Proof. split; vm_compute; reflexivity. Qed.

(** a value that holds a directive is expanded by the source and would be
    left alone by the order of the specification *)
Example stage_order_value_with_directive :
  option_map fst (interpolateVariables 2 "{{x}}"
                    [("x", VStr "{{#if a}}Y{{/if}}"); ("a", VBool true)])
  = Some (Normal "Y")
  /\ option_map fst (interpolateSpecOrder 2 "{{x}}"
                       [("x", VStr "{{#if a}}Y{{/if}}"); ("a", VBool true)])
     = Some (Normal "{{#if a}}Y{{/if}}").
Proof. split; vm_compute; reflexivity. Qed.

(** ** Unresolved placeholders *)

(** C8 (counterexample).  A placeholder of an undefined variable inside a
    conditional that is dropped: the simple stage keeps it and warns, the
    conditional stage then removes it from the output.  And a placeholder of
    an undefined variable beside a reference to an object that holds a
    BigInt: [formatValue] throws on the object, so the interpolation fails and
    has no output. *)
Lemma unresolved_placeholder_counterexample :
  (In (Hit "{{name}}" "name") (scan simpleRegex greetingBody)
   /\ isNullish (getProp greetingVariables "name") = true
   /\ exists log,
        interpolateVariables 2 greetingBody greetingVariables = Some (Normal "", log)
        /\ In (undefinedWarning "name") log
        /\ includes "{{name}}" "" = false)
  /\ (In (Hit "{{name}}" "name") (scan simpleRegex "{{name}} {{big}}")
      /\ isNullish (getProp [("big", VObj [("n", VBigInt 1)])] "name") = true
      /\ forall fuel,
           interpolateVariables (S fuel) "{{name}} {{big}}"
                                [("big", VObj [("n", VBigInt 1)])]
           = Some (Thrown CannotSerializeBigInt, [undefinedWarning "name"])).
Proof.
  split.
  - split; [vm_compute; tauto|]. split; [reflexivity|].
    eexists. split; [vm_compute; reflexivity|].
    split; [simpl; tauto | reflexivity].
  - split; [vm_compute; tauto|]. split; [reflexivity|].
    intros fuel. rewrite interpolateVariables_unfold.
    replace (substituteSimple "{{name}} {{big}}" [("big", VObj [("n", VBigInt 1)])])
      with (@Some (completion string * list string)
              (Thrown CannotSerializeBigInt, [undefinedWarning "name"]))
      by (vm_compute; reflexivity).
    reflexivity.
Qed.

(** the same with a body of simple references only: the values of the
    neighbours form a block around the placeholder *)
Example unresolved_placeholder_swallowed :
  interpolateVariables 2 "{{a}}{{x}}{{b}}" [("a", VStr "{{#if q}}"); ("b", VStr "{{/if}}")]
  = Some (Normal "", [undefinedWarning "x"]).
Proof. vm_compute. reflexivity. Qed.

(** a name that nothing defines in the context may still be a member of
    [Object.prototype]: it has a value then, and no placeholder is kept *)
Example inherited_member_is_a_value :
  isNullish (getProp [] "constructor") = false
  /\ interpolateVariables 1 "Hello {{constructor}}" []
     = Some (Normal "Hello function Object() { [native code] }", []).
Proof. split; vm_compute; reflexivity. Qed.

(** a value that holds a block around a reference to itself: the source
    calls itself without end, at any call depth the model is out of fuel *)
Example interpolation_without_end (fuel : nat) :
  interpolateVariables fuel "{{x}}"
    [("x", VStr "{{#if a}}{{x}}{{/if}}"); ("a", VBool true)] = None.
Proof.
  induction fuel as [|fuel IH]; [reflexivity|].
  rewrite interpolateVariables_unfold.
  replace (substituteSimple "{{x}}" [("x", VStr "{{#if a}}{{x}}{{/if}}"); ("a", VBool true)])
    with (ret "{{#if a}}{{x}}{{/if}}") by (vm_compute; reflexivity).
  rewrite bind_ret_l. unfold processBlocks, processConditionals, replace.
  replace (scan ifRegex "{{#if a}}{{x}}{{/if}}")
    with [Hit "{{#if a}}{{x}}{{/if}}" ("a", "{{x}}")] by (vm_compute; reflexivity).
  cbn [replaceWith conditionalCallback].
  replace (isTruthy (getProp [("x", VStr "{{#if a}}{{x}}{{/if}}"); ("a", VBool true)]
                             (trim "a")))
    with true by (vm_compute; reflexivity).
  now rewrite IH.
Qed.

(** the simple stage returns with a result when every reference either has
    no value or has one that [formatValue] accepts *)
Lemma substituteSimple_returns (content : string) (variables : object) :
  (forall t n, In (Hit t n) (scan simpleRegex content) ->
               isNullish (getProp variables (trim n)) = true
               \/ exists s, formatValue (getProp variables (trim n)) = Normal s) ->
  exists out log, substituteSimple content variables = Some (Normal out, log).
Proof.
  intros H. apply replaceWith_normal. intros t n Hin.
  destruct (isNullish (getProp variables (trim n))) eqn:E.
  - rewrite (simpleCallback_unresolved _ _ _ E). eauto.
  - rewrite (simpleCallback_resolved _ _ _ E).
    destruct (H t n Hin) as [Hn|(r & Hr)]; [congruence|].
    rewrite Hr. unfold eval. eauto.
Qed.

(** C8 (amended).  For every simple substitution [{{NAME}}] found in the
    text where [context[NAME]] is null or undefined, replacing the
    placeholder never fails: the callback returns the literal token and logs
    a warning naming the variable.  The simple stage always returns, and it
    returns a text when every other referenced value can be formatted; that
    text still holds the placeholder, and the warning is in the log.  When
    the text holds no block opener [{{#], it is the output of
    [interpolateVariables], which then returns at any call depth; a block
    stage may otherwise still drop or rewrite the part of the text that holds
    the placeholder. *)
Theorem unresolved_placeholder_kept_by_simple_stage
        (content : string) (variables : object) (text raw : string) :
  In (Hit text raw) (scan simpleRegex content) ->
  isNullish (getProp variables (trim raw)) = true ->
  text = "{{" ++ raw ++ "}}"
  /\ simpleCallback variables text raw
     = Some (Normal text, [undefinedWarning (trim raw)])
  /\ (exists r log, substituteSimple content variables = Some (r, log))
  /\ ((forall t n, In (Hit t n) (scan simpleRegex content) ->
                   isNullish (getProp variables (trim n)) = true
                   \/ exists s, formatValue (getProp variables (trim n)) = Normal s) ->
      exists out log, substituteSimple content variables = Some (Normal out, log))
  /\ forall out log,
       substituteSimple content variables = Some (Normal out, log) ->
       includes text out = true
       /\ In (undefinedWarning (trim raw)) log
       /\ (includes "{{#" out = false ->
           forall fuel,
             interpolateVariables (S fuel) content variables = Some (Normal out, log)).
Proof.
  intros Hin Hnull. split; [now apply (simple_hit_text content)|].
  split; [now apply simpleCallback_unresolved|].
  split; [apply replaceWith_total, simpleCallback_total|].
  split; [apply substituteSimple_returns|].
  intros out log Hout.
  destruct (replaceWith_hit _ _ _ _ _ _ _ Hout Hin) as (r & w & Hcb & (pre & post & ->) & Hw).
  rewrite (simpleCallback_unresolved _ _ _ Hnull) in Hcb. injection Hcb as <- <-.
  split; [apply includes_middle|]. split; [apply Hw; now left|].
  intros Hno fuel. now apply interpolate_no_block.
Qed.

Lemma unresolved_placeholder_kept_witness :
  "{{name}}" = "{{" ++ "name" ++ "}}"
  /\ simpleCallback [] "{{name}}" "name"
     = Some (Normal "{{name}}", [undefinedWarning (trim "name")])
  /\ (exists r log, substituteSimple "Hello {{name}}!" [] = Some (r, log))
  /\ ((forall t n, In (Hit t n) (scan simpleRegex "Hello {{name}}!") ->
                   isNullish (getProp [] (trim n)) = true
                   \/ exists s, formatValue (getProp [] (trim n)) = Normal s) ->
      exists out log, substituteSimple "Hello {{name}}!" [] = Some (Normal out, log))
  /\ forall out log,
       substituteSimple "Hello {{name}}!" [] = Some (Normal out, log) ->
       includes "{{name}}" out = true
       /\ In (undefinedWarning (trim "name")) log
       /\ (includes "{{#" out = false ->
           forall fuel,
             interpolateVariables (S fuel) "Hello {{name}}!" [] = Some (Normal out, log)).
Proof.
  apply (unresolved_placeholder_kept_by_simple_stage "Hello {{name}}!" [] "{{name}}" "name").
  - vm_compute. tauto.
  - reflexivity.
Defined.

(** ** Switch on a falsy value *)

Lemma hits_In (C : Type) (l : list (segment C)) (t : string) (c : C) :
  In (t, c) (hits l) -> In (Hit t c) l.
Proof.
  induction l as [|[k|t' c'] l IH]; simpl; intros H.
  - contradiction.
  - right. now apply IH.
  - destruct H as [H|H]; [injection H as -> ->; now left | right; now apply IH].
Qed.

(** the literal of a case is never empty: the pattern asks for one code
    unit at least between the quotes *)
Lemma caseRegex_value_nonempty (s caseValue caseContent rest : string) :
  caseRegex s = Some ((caseValue, caseContent), rest) -> caseValue <> "".
Proof.
  unfold caseRegex. intros H.
  apply lit_sound in H as (r1 & -> & H).
  apply plusGreedy_sound in H as (sp & r2 & -> & _ & _ & H).
  apply lit_sound in H as (r3 & -> & H).
  apply plusGreedy_sound in H as (cv & r4 & -> & Hne & _ & H).
  apply lit_sound in H as (r5 & -> & H).
  apply starLazy_sound in H as (cc & r6 & -> & _ & H).
  apply lit_sound in H as (r7 & -> & H).
  now injection H as <- <- <-.
Qed.

Lemma firstCase_of_empty (interp : string -> object -> M string) (variables : object)
      (cases : list (string * (string * string))) :
  (forall t cv cc, In (t, (cv, cc)) cases -> cv <> "") ->
  firstCase interp "" variables cases = ret "".
Proof.
  induction cases as [|[t [cv cc]] cases IH]; intros H; simpl; [reflexivity|].
  destruct cv as [|c cv]; [now elim (H t "" cc (or_introl eq_refl))|].
  simpl. apply IH. intros t' cv' cc' Hin. apply (H t' cv' cc'). now right.
Qed.

Lemma switchCallback_on_falsy_value
      (interp : string -> object -> M string) (variables : object)
      (text variableName switchContent : string) :
  toBoolean (getProp variables (trim variableName)) = false ->
  switchCallback interp variables text (variableName, switchContent)
  = Some (Normal "", []).
Proof.
  intros Hfalsy. unfold switchCallback, orElse. rewrite Hfalsy.
  cbn [toStr dataToString]. rewrite bind_eval.
  apply firstCase_of_empty. intros t cv cc Hin.
  apply hits_In, scanFrom_hit in Hin as (pre & s' & rest & _ & Hrx & _).
  exact (caseRegex_value_nonempty _ _ _ _ Hrx).
Qed.


(** a text whose switch blocks are all over falsy values loses the blocks
    and nothing else *)
Lemma switch_stage_on_falsy_values
      (interp : string -> object -> M string) (variables : object) (content : string) :
  (forall text variableName switchContent,
      In (Hit text (variableName, switchContent)) (scan switchRegex content) ->
      toBoolean (getProp variables (trim variableName)) = false) ->
  processSwitchStatements interp content variables
  = Some (Normal (kept (scan switchRegex content)), []).
Proof.
  unfold processSwitchStatements, replace.
  induction (scan switchRegex content) as [|[c|text [name sc]] l IH]; intros H.
  - reflexivity.
  - cbn [replaceWith kept]. rewrite IH; [reflexivity|].
    intros t n c' Hin. apply (H t n c'). now right.
  - cbn [replaceWith kept].
    rewrite (switchCallback_on_falsy_value interp variables text name sc
               (H text name sc (or_introl eq_refl))).
    rewrite IH; [reflexivity|].
    intros t n c' Hin. apply (H t n c'). now right.
Qed.


(** the whole engine on a switch over 0, false, null, a missing variable
    and 0n, each with a case for the string form of the value, and over 1 *)
Example switch_on_falsy_values_end_to_end :
  option_map fst (interpolateVariables 2 (switchBlock "0") [("v", VNum 0)])
  = Some (Normal "")
  /\ option_map fst (interpolateVariables 2 (switchBlock "false") [("v", VBool false)])
     = Some (Normal "")
  /\ option_map fst (interpolateVariables 2 (switchBlock "null") [("v", VNull)])
     = Some (Normal "")
  /\ option_map fst (interpolateVariables 2 (switchBlock "undefined") [])
     = Some (Normal "")
  /\ option_map fst (interpolateVariables 2 (switchBlock "0") [("v", VBigInt 0)])
     = Some (Normal "")
  /\ option_map fst (interpolateVariables 2 (switchBlock "1") [("v", VNum 1)])
     = Some (Normal "hit").
Proof. repeat split; vm_compute; reflexivity. Qed.

(** a name that the context does not define may be a member of
    [Object.prototype], which is truthy: [__proto__] reads as the prototype,
    whose string form is a case literal like any other *)
Example switch_on_inherited_member :
  toBoolean (getProp [] "__proto__") = true
  /\ option_map fst
       (interpolateVariables 2
          ("{{#switch __proto__}}" ++ switchCases "[object Object]" ++ "{{/switch}}") [])
     = Some (Normal "hit").
Proof. split; vm_compute; reflexivity. Qed.

(** the equality conditional has no such coercion: it compares [String(0)] *)
Example if_equals_on_zero :
  option_map fst
    (interpolateVariables 2
       ("{{#if_equals v " ++ dq ++ "0" ++ dq ++ "}}hit{{/if_equals}}") [("v", VNum 0)])
  = Some (Normal "hit").
Proof. vm_compute. reflexivity. Qed.

(** ** Bodies of simple references *)

Lemma hasChar_false_allIn (c : ascii) (s : string) :
  hasChar c s = false -> allIn (notChar c) s = true.
Proof.
  induction s as [|d s IH]; simpl; intros H; [reflexivity|].
  apply orb_false_iff in H as [Hd Hs]. unfold notChar at 1. now rewrite Hd, IH.
Qed.

Lemma noBrace_append (a b : string) : noBrace (a ++ b) = noBrace a && noBrace b.
Proof.
  unfold noBrace. rewrite !hasChar_append.
  destruct (hasChar "{" a), (hasChar "{" b), (hasChar "}" a), (hasChar "}" b);
    reflexivity.
Qed.

Lemma replaceWith_keeps_app (C : Type) (callback : string -> C -> M string)
      (t : string) (l : list (segment C)) (r : string) :
  replaceWith callback l = ret r ->
  replaceWith callback (keeps C t ++ l)%list = ret (t ++ r).
Proof.
  intros H. induction t as [|c t IH]; simpl; [exact H | now rewrite IH].
Qed.

(** inside a text without braces the simple pattern matches nowhere *)
Lemma simpleRegex_fails_in_plain_text (t pre s' rest : string) :
  noBrace t = true -> t = pre ++ s' -> s' <> "" -> simpleRegex (s' ++ rest) = None.
Proof.
  intros Ht -> Hne. destruct s' as [|c s']; [congruence|].
  apply lit_fails. cbn [append startsWith].
  destruct (Ascii.eqb "{" c) eqn:E; [|reflexivity].
  unfold noBrace in Ht. rewrite hasChar_append in Ht. cbn [hasChar] in Ht.
  rewrite E, orb_true_l, orb_true_r in Ht. discriminate.
Qed.

(** a value with a plain text is formatted, and [formatted] is its text *)
Lemma plainText_formatted (v : found) :
  plainText (formatValue v) = true ->
  formatValue v = Normal (formatted v) /\ noBrace (formatted v) = true.
Proof.
  unfold formatted, plainText. destruct (formatValue v); [auto | discriminate].
Qed.

Lemma substituteSimple_render (variables : object) (ps : list piece) :
  wellFormed ps = true -> providesPlain variables ps = true ->
  substituteSimple (render ps) variables = ret (expand variables ps).
Proof.
  unfold substituteSimple, replace, scan.
  induction ps as [|[t|n] ps IH]; intros W P; [reflexivity| |];
    cbn [wellFormed providesPlain forallb wellFormedPiece] in W, P;
    apply andb_true_iff in W as [W1 W]; apply andb_true_iff in P as [P1 P];
    cbn [render expand].
  - rewrite scanFrom_keep_prefix.
    + apply replaceWith_keeps_app. now apply IH.
    + intros pre s' E Hne. eapply simpleRegex_fails_in_plain_text; eauto.
  - apply andb_true_iff in W1 as [Hne Hn]. apply andb_true_iff in P1 as [Hv Hf].
    apply negb_true_iff in Hv. apply plainText_formatted in Hf as [Hf _].
    assert (Hne' : n <> "") by (intros ->; discriminate).
    unfold noBrace in Hn. apply andb_true_iff in Hn as [_ Hn].
    apply negb_true_iff, hasChar_false_allIn in Hn.
    replace ("{{" ++ n ++ "}}" ++ render ps) with (("{{" ++ n ++ "}}") ++ render ps)
      by (simpl; now rewrite !append_assoc).
    rewrite (scanFrom_hit_first _ simpleRegex ("{{" ++ n ++ "}}") (render ps) n);
      [|discriminate | now apply simpleRegex_complete].
    cbn [replaceWith]. rewrite (simpleCallback_resolved _ _ _ Hv), Hf, bind_eval.
    rewrite (IH W P). reflexivity.
Qed.

Lemma noBrace_expand (variables : object) (ps : list piece) :
  wellFormed ps = true -> providesPlain variables ps = true ->
  noBrace (expand variables ps) = true.
Proof.
  induction ps as [|[t|n] ps IH]; intros W P; [reflexivity| |];
    cbn [wellFormed providesPlain forallb wellFormedPiece] in W, P;
    apply andb_true_iff in W as [W1 W]; apply andb_true_iff in P as [P1 P];
    cbn [expand]; rewrite noBrace_append, (IH W P), andb_true_r.
  - exact W1.
  - apply andb_true_iff in P1 as [_ P1]. now apply plainText_formatted in P1.
Qed.

(** C7 (counterexample).  The body is the single reference [{{x}}] and the
    context gives [x] a value that is not null; the value is a text that holds
    a placeholder of its own, which the output shows as it is. *)
Lemma simple_body_counterexample :
  wellFormed quotingBody = true /\ simpleOnly quotingBody = true
  /\ provides quotingVariables quotingBody = true
  /\ interpolateVariables 1 (render quotingBody) quotingVariables
     = Some (Normal "write {{name}} for the name", [])
  /\ includes "{{" "write {{name}} for the name" = true
  /\ includes "}}" "write {{name}} for the name" = true.
Proof. repeat split; vm_compute; reflexivity. Qed.

(** C7 (amended).  For every template body in which braces occur only as
    the delimiters of simple [{{x}}] references, and every context that gives
    every referenced key a value that is not null and whose formatted text
    holds no brace, [interpolateVariables] returns, at any call depth and
    without a warning, the body with each reference replaced by the formatted
    value, and that output holds no [{{] and no [}}]. *)
Theorem simple_body_leaves_no_token
        (fuel : nat) (ps : list piece) (variables : object) :
  wellFormed ps = true ->
  providesPlain variables ps = true ->
  interpolateVariables (S fuel) (render ps) variables
  = Some (Normal (expand variables ps), [])
  /\ includes "{{" (expand variables ps) = false
  /\ includes "}}" (expand variables ps) = false.
Proof.
  intros W P. pose proof (noBrace_expand variables ps W P) as Hnb.
  unfold noBrace in Hnb. apply andb_true_iff in Hnb as [Ho Hc].
  apply negb_true_iff in Ho. apply negb_true_iff in Hc.
  split; [|split; now apply includes_needs_first].
  apply interpolate_no_block.
  - now apply substituteSimple_render.
  - now apply includes_needs_first.
Qed.

Lemma simple_body_leaves_no_token_witness :
  interpolateVariables 1 (render helloBody) helloVariables
  = Some (Normal "Hello John, you are 30 years old!", [])
  /\ includes "{{" "Hello John, you are 30 years old!" = false
  /\ includes "}}" "Hello John, you are 30 years old!" = false.
Proof.
  apply (simple_body_leaves_no_token 0 helloBody helloVariables); reflexivity.
Defined.

End InterpolationProperties.

(* ===================================================================== *)
(** * Context validation *)
(* ===================================================================== *)

Module ValidationProperties.
Import Str JS Types PromptConstructor Samples.

Lemma validateVariableType_mismatch (name : string) (v : found) (expectedType : string) :
  typeName v <> expectedType ->
  validateVariableType name v expectedType
  = Some {| err_type := semantic;
            message := typeMismatchMessage name expectedType (typeName v) |}.
Proof.
  intros H. unfold validateVariableType.
  destruct (expectedType =? "object") eqn:E1, (typeName v =? "object") eqn:E2;
    cbn [andb];
    try (apply String.eqb_eq in E1; apply String.eqb_eq in E2; congruence);
    (destruct (typeName v =? expectedType) eqn:E3;
     [apply String.eqb_eq in E3; congruence | reflexivity]).
Qed.

Lemma validateVariableType_match (name : string) (v : found) (expectedType : string) :
  typeName v = expectedType ->
  validateVariableType name v expectedType = None.
Proof.
  intros <-. unfold validateVariableType. rewrite String.eqb_refl. cbn [negb].
  now destruct (_ && _).
Qed.

(** a list is of kind ['array'], never of kind ['object'] *)
Lemma list_is_not_object (name : string) (l : list value) :
  validateVariableType name (Data (VArr l)) "object"
  = Some {| err_type := semantic;
            message := typeMismatchMessage name "object" "array" |}.
Proof. reflexivity. Qed.

Lemma checkVariables_reports (vars : list IVariable) (variables : object) (v : IVariable) :
  In v vars ->
  isNullish (getProp variables (var_name v)) = false ->
  typeName (getProp variables (var_name v)) <> var_type v ->
  In {| err_type := semantic;
        message := typeMismatchMessage (var_name v) (var_type v)
                     (typeName (getProp variables (var_name v))) |}
     (checkVariables vars variables).
Proof.
  intros Hin Hpresent Hmis. induction vars as [|x vars IH]; [contradiction|].
  cbn [checkVariables]. destruct Hin as [->|Hin].
  - rewrite Hpresent, andb_false_r. cbn [negb].
    rewrite (validateVariableType_mismatch _ _ _ Hmis). now left.
  - specialize (IH Hin).
    destruct (_ && isNullish _); [now right|].
    destruct (negb _); [|exact IH].
    destruct (validateVariableType _ _ _); [now right | exact IH].
Qed.

(** C3 (counterexample).  A list given for a variable declared of kind
    ['object'] is reported as a mismatch: lists are not accepted there. *)
Lemma list_for_object_counterexample :
  validateContext (templateWith [variable "config" "object"] "{{config}}")
                  (contextOf [("config", VArr [VNum 1; VNum 2])])
  = {| valid := false;
       errors := [ {| err_type := semantic;
                      message := "Variable 'config' expected type 'object' but got 'array'" |} ];
       warnings := [] |}.
Proof. vm_compute. reflexivity. Qed.

(** C3 (amended).  For every template and context, context validation
    reports an error for each declared variable whose value is present (not
    null, not undefined) and whose structural type is not the declared kind,
    where a list is of kind ['array'] only and a mapping of kind ['object']
    only; the error names the variable, the expected kind and the actual
    kind, and the result is not valid.  A present value of the declared
    kind yields no type error. *)
Theorem type_mismatch_is_reported
        (template : IPromptTemplate) (context : IPromptContext)
        (vars : list IVariable) (v : IVariable) :
  read (variables template) = Some vars ->
  In v vars ->
  isNullish (getProp (ctx_variables context) (var_name v)) = false ->
  let value := getProp (ctx_variables context) (var_name v) in
  (typeName value <> var_type v ->
   In {| err_type := semantic;
         message := "Variable '" ++ var_name v ++ "' expected type '" ++ var_type v
                      ++ "' but got '" ++ typeName value ++ "'" |}
      (errors (validateContext template context))
   /\ valid (validateContext template context) = false)
  /\ (typeName value = var_type v ->
      validateVariableType (var_name v) value (var_type v) = None)
  /\ (forall l, value = Data (VArr l) -> typeName value = "array").
Proof.
  intros Hvars Hin Hpresent value. split; [|split].
  - intros Hmis. unfold validateContext. rewrite Hvars. cbn [errors valid].
    pose proof (checkVariables_reports _ _ _ Hin Hpresent Hmis) as H.
    split; [exact H|].
    destruct (checkVariables vars (ctx_variables context)); [contradiction | reflexivity].
  - apply validateVariableType_match.
  - now intros l ->.
Qed.

Lemma type_mismatch_is_reported_witness :
  In {| err_type := semantic;
        message := "Variable 'age' expected type 'number' but got 'string'" |}
     (errors (validateContext (templateWith [variable "age" "number"] "Age: {{age}}")
                              (contextOf [("age", VStr "not a number")])))
  /\ valid (validateContext (templateWith [variable "age" "number"] "Age: {{age}}")
                            (contextOf [("age", VStr "not a number")])) = false.
Proof.
  refine (proj1 (type_mismatch_is_reported
                   (templateWith [variable "age" "number"] "Age: {{age}}")
                   (contextOf [("age", VStr "not a number")])
                   [variable "age" "number"] (variable "age" "number")
                   eq_refl (or_introl eq_refl) eq_refl) _).
  vm_compute. discriminate.
Defined.

End ValidationProperties.

(* ===================================================================== *)
(** * Facts about the registry *)
(* ===================================================================== *)

Module RegistryFacts.
Import Str JS Types TemplateRegistry RegistryStates.

(** ** The map *)
Section MapFacts.
Variable V : Type.
Implicit Types (m : jsmap V) (k j : string) (v : V).

Lemma mapGet_mapSet_eq m k v : mapGet (mapSet m k v) k = Some v.
Proof.
  induction m as [|[k' w] m IH]; simpl.
  - now rewrite String.eqb_refl.
  - destruct (k' =? k) eqn:E; simpl; rewrite E; [reflexivity | exact IH].
Qed.

Lemma mapGet_mapSet_neq m k j v : k <> j -> mapGet (mapSet m k v) j = mapGet m j.
Proof.
  intros Hne. induction m as [|[k' w] m IH]; simpl.
  - now apply String.eqb_neq in Hne as ->.
  - destruct (k' =? k) eqn:E; simpl.
    + apply String.eqb_eq in E as ->. now apply String.eqb_neq in Hne as ->.
    + now rewrite IH.
Qed.

Lemma mapGet_mapDelete_eq m k : mapGet (mapDelete m k) k = None.
Proof.
  induction m as [|[k' w] m IH]; simpl; [reflexivity|].
  destruct (k' =? k) eqn:E; simpl; [exact IH | now rewrite E].
Qed.

Lemma mapGet_mapDelete_neq m k j : k <> j -> mapGet (mapDelete m k) j = mapGet m j.
Proof.
  intros Hne. induction m as [|[k' w] m IH]; simpl; [reflexivity|].
  destruct (k' =? k) eqn:E; simpl.
  - apply String.eqb_eq in E as ->. now apply String.eqb_neq in Hne as ->.
  - now rewrite IH.
Qed.

Lemma In_mapHas m k v : In (k, v) m -> mapHas m k = true.
Proof.
  unfold mapHas. induction m as [|[k' w] m IH]; simpl; [contradiction|].
  intros [H|H].
  - injection H as -> ->. now rewrite String.eqb_refl.
  - destruct (k' =? k); [reflexivity | now apply IH].
Qed.
End MapFacts.

(** ** findDependentTemplates *)

Lemma findDependent_complete (ts : jsmap IPromptTemplate) (parentId d : string)
      (t : IPromptTemplate) :
  In (d, t) ts -> extendsIs parentId t = true ->
  In d (findDependentTemplates ts parentId).
Proof.
  induction ts as [|[k w] ts IH]; simpl; [contradiction|].
  intros [H|H] He.
  - injection H as -> ->. rewrite He. now left.
  - destruct (extendsIs parentId w); [right|]; now apply IH.
Qed.

Lemma findDependent_sound (ts : jsmap IPromptTemplate) (parentId d : string) :
  In d (findDependentTemplates ts parentId) ->
  exists t, In (d, t) ts /\ extendsIs parentId t = true.
Proof.
  induction ts as [|[k w] ts IH]; simpl; [contradiction|].
  destruct (extendsIs parentId w) eqn:E.
  - intros [->|H]; [exists w; auto|].
    destruct (IH H) as (t & Hin & He). exists t. auto.
  - intros H. destruct (IH H) as (t & Hin & He). exists t. auto.
Qed.

(** ** register and remove: what a call can do to the state *)

Lemma register_cases (fuel : nat) (reg reg' : Registry) (template : IPromptTemplate)
      (r : Result unit) :
  register fuel reg template = Some (r, reg') ->
  (exists e, r = failure e /\ reg' = reg)
  \/ (r = success tt
      /\ templates reg' = mapSet (templates reg) (id template) template
      /\ id template <> ""
      /\ (extendsOrEmpty template = ""
          \/ checkCircularInheritance (templates reg) (id template)
                                      (extendsOrEmpty template) = Some (success tt))).
Proof.
  unfold register.
  destruct (id template =? "") eqn:Eid;
    [intros H; injection H as <- <-; left; eauto|].
  destruct (name template =? ""); [intros H; injection H as <- <-; left; eauto|].
  destruct (content template =? ""); [intros H; injection H as <- <-; left; eauto|].
  apply String.eqb_neq in Eid.
  destruct (extendsOrEmpty template =? "") eqn:Eext; cbn [negb].
  - apply String.eqb_eq in Eext.
    destruct (clearInheritanceCache _ _ _ _); [|discriminate].
    intros H; injection H as <- <-. right. cbn [templates]. auto.
  - destruct (checkCircularInheritance _ _ _) as [[[]|e]|] eqn:Echeck; [| |discriminate].
    + destruct (clearInheritanceCache _ _ _ _); [|discriminate].
      intros H; injection H as <- <-. right. cbn [templates]. auto.
    + intros H; injection H as <- <-. left. eauto.
Qed.

Lemma register_failure_unchanged (fuel : nat) (reg reg' : Registry)
      (template : IPromptTemplate) (e : RegistryError) :
  register fuel reg template = Some (failure e, reg') -> reg' = reg.
Proof.
  intros H. destruct (register_cases _ _ _ _ _ H) as [(e' & _ & ->)|(Hr & _)];
    [reflexivity | discriminate].
Qed.

Lemma remove_cases (fuel : nat) (reg reg' : Registry) (id : string) (r : Result unit) :
  remove fuel reg id = Some (r, reg') ->
  (exists e, r = failure e /\ reg' = reg)
  \/ (r = success tt /\ templates reg' = mapDelete (templates reg) id
      /\ findDependentTemplates (templates reg) id = []).
Proof.
  unfold remove.
  destruct (negb (mapHas (templates reg) id));
    [intros H; injection H as <- <-; left; eauto|].
  destruct (findDependentTemplates (templates reg) id) as [|d ds] eqn:E; cbn;
    [|intros H; injection H as <- <-; left; eauto].
  destruct (clearInheritanceCache _ _ _ _); [|discriminate].
  intros H; injection H as <- <-. right. cbn [templates]. auto.
Qed.

(** ** getResolved *)

Lemma getResolved_templates (fuel : nat) :
  forall reg id r reg',
    getResolved fuel reg id = Some (r, reg') -> templates reg' = templates reg.
Proof.
  induction fuel as [|fuel IH]; intros reg id r reg' H; [discriminate|].
  cbn [getResolved] in H.
  destruct (mapGet (inheritanceCache reg) id); [now injection H as <- <-|].
  destruct (get reg id) as [template|e]; [|now injection H as <- <-].
  destruct (negb (extendsOrEmpty template =? "")).
  - destruct (getResolved fuel reg (extendsOrEmpty template)) as [[[p|e] reg1]|] eqn:E;
      [| |discriminate]; injection H as <- <-; cbn [templates]; eauto.
  - now injection H as <- <-.
Qed.

(** a resolution that fails leaves the registry as it was *)
Lemma getResolved_failure_unchanged (fuel : nat) :
  forall reg id e reg',
    getResolved fuel reg id = Some (failure e, reg') -> reg' = reg.
Proof.
  induction fuel as [|fuel IH]; intros reg id e reg' H; [discriminate|].
  cbn [getResolved] in H.
  destruct (mapGet (inheritanceCache reg) id); [discriminate|].
  destruct (get reg id) as [template|e0]; [|now injection H as <- <-].
  destruct (negb (extendsOrEmpty template =? "")).
  - destruct (getResolved fuel reg (extendsOrEmpty template)) as [[[p|e1] reg1]|] eqn:E;
      [discriminate| |discriminate].
    injection H as <- <-. eauto.
  - discriminate.
Qed.

(** a resolution that succeeds leaves its result in the cache *)
Lemma getResolved_success_cached (fuel : nat) (reg : Registry) (id : string)
      (t : IPromptTemplate) (reg' : Registry) :
  getResolved fuel reg id = Some (success t, reg') ->
  mapGet (inheritanceCache reg') id = Some t.
Proof.
  destruct fuel as [|fuel]; [discriminate|]. cbn [getResolved].
  destruct (mapGet (inheritanceCache reg) id) eqn:Ec;
    [intros H; injection H as <- <-; exact Ec|].
  destruct (get reg id) as [template|e0]; [|discriminate].
  destruct (negb (extendsOrEmpty template =? "")).
  - destruct (getResolved fuel reg (extendsOrEmpty template)) as [[[p|e1] reg1]|];
      [|discriminate|discriminate].
    intros H; injection H as <- <-. apply mapGet_mapSet_eq.
  - intros H; injection H as <- <-. apply mapGet_mapSet_eq.
Qed.

(** more call depth does not change a result *)
Lemma getResolved_mono (fuel : nat) :
  forall reg id x,
    getResolved fuel reg id = Some x ->
    forall fuel', fuel <= fuel' -> getResolved fuel' reg id = Some x.
Proof.
  induction fuel as [|fuel IH]; intros reg id x H fuel' Hle; [discriminate|].
  destruct fuel' as [|fuel']; [lia|]. cbn [getResolved] in *.
  destruct (mapGet (inheritanceCache reg) id); [exact H|].
  destruct (get reg id) as [template|e]; [|exact H].
  destruct (negb (extendsOrEmpty template =? "")); [|exact H].
  destruct (getResolved fuel reg (extendsOrEmpty template)) as [y|] eqn:E; [|discriminate].
  rewrite (IH _ _ _ E fuel'); [exact H | lia].
Qed.

(** calling again gives the same result and changes nothing *)
Lemma getResolved_again (fuel : nat) (reg : Registry) (id : string)
      (r : Result IPromptTemplate) (reg' : Registry) :
  getResolved fuel reg id = Some (r, reg') ->
  getResolved fuel reg' id = Some (r, reg').
Proof.
  intros H. destruct r as [t|e].
  - pose proof (getResolved_success_cached _ _ _ _ _ H) as Hc.
    destruct fuel as [|fuel]; [discriminate|].
    cbn [getResolved]. now rewrite Hc.
  - pose proof (getResolved_failure_unchanged _ _ _ _ _ H) as ->. exact H.
Qed.

(** where the links come to an end the resolution returns *)
Lemma getResolved_terminates (ts : jsmap IPromptTemplate) (id : string) :
  Resolves ts id ->
  forall cache, exists fuel x,
    getResolved fuel {| templates := ts; inheritanceCache := cache |} id = Some x.
Proof.
  induction 1 as [id Hget | id template Hget Hext | id template Hget Hres IH];
    intros cache.
  - exists 1. cbn [getResolved inheritanceCache]. unfold get. cbn [templates].
    rewrite Hget. destruct (mapGet cache id); eauto.
  - exists 1. cbn [getResolved inheritanceCache]. unfold get. cbn [templates].
    rewrite Hget, Hext. cbn. destruct (mapGet cache id); eauto.
  - destruct (IH cache) as (n & [r reg1] & Hn). exists (S n).
    cbn [getResolved inheritanceCache]. unfold get. cbn [templates].
    rewrite Hget. destruct (mapGet cache id); [eauto|].
    destruct (negb (extendsOrEmpty template =? "")); [|eauto].
    rewrite Hn. destruct r; eauto.
Qed.

(** ** The links of every reachable registry come to an end *)

Lemma resolves_after_set (ts : jsmap IPromptTemplate) (tid : string)
      (template : IPromptTemplate) :
  (forall id, Resolves ts id) ->
  Resolves (mapSet ts tid template) tid ->
  forall id, Resolves (mapSet ts tid template) id.
Proof.
  intros Hall Htid id. induction (Hall id) as [id Hget | id t Hget Hext | id t Hget _ IH];
    destruct (String.eqb_spec tid id) as [<-|Hne]; try exact Htid.
  - apply resolves_missing. now rewrite mapGet_mapSet_neq.
  - apply resolves_root with (template := t); [now rewrite mapGet_mapSet_neq | exact Hext].
  - apply resolves_step with (template := t); [now rewrite mapGet_mapSet_neq | exact IH].
Qed.

Lemma resolves_after_delete (ts : jsmap IPromptTemplate) (did : string) :
  (forall id, Resolves ts id) ->
  forall id, Resolves (mapDelete ts did) id.
Proof.
  intros Hall id. induction (Hall id) as [id Hget | id t Hget Hext | id t Hget _ IH];
    (destruct (String.eqb_spec did id) as [<-|Hne];
     [apply resolves_missing, mapGet_mapDelete_eq|]).
  - apply resolves_missing. now rewrite mapGet_mapDelete_neq.
  - apply resolves_root with (template := t); [now rewrite mapGet_mapDelete_neq | exact Hext].
  - apply resolves_step with (template := t); [now rewrite mapGet_mapDelete_neq | exact IH].
Qed.

(** a chain that passes the check comes to an end without meeting the new
    identifier, so it is the same chain once the new template is stored *)
Lemma checkLoop_resolves (ts : jsmap IPromptTemplate) (tid : string)
      (template : IPromptTemplate) (fuel : nat) :
  forall visited currentId,
    currentId <> "" ->
    checkLoop fuel ts tid visited currentId = Some (success tt) ->
    Resolves (mapSet ts tid template) currentId.
Proof.
  induction fuel as [|fuel IH]; intros visited cur Hne H; [discriminate|].
  cbn [checkLoop] in H.
  apply String.eqb_neq in Hne as E0. rewrite E0 in H.
  destruct (existsb (String.eqb cur) visited); [discriminate|].
  destruct (String.eqb_spec cur tid) as [|Hcur]; [discriminate|].
  destruct (mapGet ts cur) as [t|] eqn:Hget; [|discriminate].
  assert (Hget' : mapGet (mapSet ts tid template) cur = Some t)
    by (rewrite mapGet_mapSet_neq; auto).
  destruct (String.eqb_spec (extendsOrEmpty t) "") as [Hroot|Hstep].
  - now apply resolves_root with (template := t).
  - apply resolves_step with (template := t); [exact Hget'|]. now apply (IH _ _ Hstep H).
Qed.

Lemma reachable_resolves (reg : Registry) :
  reachable reg -> forall id, Resolves (templates reg) id.
Proof.
  induction 1 as [| fuel reg reg' template r _ IH H | fuel reg reg' id0 r _ IH H
                  | fuel reg reg' id0 r _ IH H].
  - intros id. now apply resolves_missing.
  - destruct (register_cases _ _ _ _ _ H) as [(e & _ & ->)|(_ & -> & Hid & Hext)];
      [exact IH|].
    apply resolves_after_set; [exact IH|].
    destruct (String.eqb_spec (extendsOrEmpty template) "") as [Hroot|Hstep].
    + apply resolves_root with (template := template); [apply mapGet_mapSet_eq | exact Hroot].
    + apply resolves_step with (template := template); [apply mapGet_mapSet_eq|].
      destruct Hext as [Hext|Hcheck]; [contradiction|].
      exact (checkLoop_resolves _ _ _ _ _ _ Hstep Hcheck).
  - destruct (remove_cases _ _ _ _ _ H) as [(e & _ & ->)|(_ & -> & _)]; [exact IH|].
    now apply resolves_after_delete.
  - now rewrite (getResolved_templates _ _ _ _ _ H).
Qed.

(** ** The loop of checkCircularInheritance comes to an end *)

Lemma mapGet_In_keys (ts : jsmap IPromptTemplate) (k : string) (t : IPromptTemplate) :
  mapGet ts k = Some t -> In k (mapKeys ts).
Proof.
  induction ts as [|[k' w] ts IH]; simpl; [discriminate|].
  destruct (String.eqb_spec k' k) as [->|]; [now left | right; now apply IH].
Qed.

Lemma checkLoop_returns (ts : jsmap IPromptTemplate) (tid : string) (fuel : nat) :
  forall visited currentId,
    NoDup visited ->
    incl visited (mapKeys ts) ->
    List.length ts < fuel + List.length visited ->
    checkLoop fuel ts tid visited currentId <> None.
Proof.
  induction fuel as [|fuel IH]; intros visited cur Hnd Hincl Hlen.
  - pose proof (NoDup_incl_length Hnd Hincl) as Hle.
    unfold mapKeys in Hle. rewrite length_map in Hle. simpl in Hlen. lia.
  - cbn [checkLoop]. destruct (cur =? ""); [discriminate|].
    destruct (existsb (String.eqb cur) visited) eqn:Ev; [discriminate|].
    destruct (cur =? tid); [discriminate|].
    destruct (mapGet ts cur) as [t|] eqn:Hget; [|discriminate].
    apply IH.
    + apply NoDup_app; [exact Hnd | repeat constructor; intros [] |].
      intros a Ha [->|[]].
      assert (existsb (String.eqb a) visited = true) as Hex
          by (apply existsb_exists; exists a; split; [exact Ha | apply String.eqb_refl]).
      congruence.
    + intros a Ha. apply in_app_or in Ha as [Ha|[->|[]]]; [now apply Hincl|].
      exact (mapGet_In_keys _ _ _ Hget).
    + rewrite length_app. simpl. lia.
Qed.

(** the call depth that the model grants the loop is never used up *)
Lemma checkCircularInheritance_returns (ts : jsmap IPromptTemplate)
      (templateId parentId : string) :
  exists r, checkCircularInheritance ts templateId parentId = Some r.
Proof.
  unfold checkCircularInheritance.
  destruct (checkLoop (S (List.length ts)) ts templateId [] parentId) as [r|] eqn:E;
    [now exists r|].
  exfalso. revert E. apply checkLoop_returns.
  - constructor.
  - intros a [].
  - simpl. lia.
Qed.

(** ** In every reachable registry the extended templates are stored *)

Section MapEntries.
Variable V : Type.
Implicit Types (m : jsmap V) (k j : string) (v : V).

Lemma In_mapSet m k v j w :
  In (j, w) (mapSet m k v) -> (j = k /\ w = v) \/ In (j, w) m.
Proof.
  induction m as [|[k' u] m IH]; simpl.
  - intros [H|[]]. injection H as <- <-. now left.
  - destruct (String.eqb_spec k' k) as [->|Hne]; simpl.
    + intros [H|H]; [injection H as <- <-; now left | right; now right].
    + intros [H|H]; [right; now left|].
      destruct (IH H) as [?|?]; [now left | right; now right].
Qed.

Lemma mapHas_mapSet m k v j : mapHas m j = true -> mapHas (mapSet m k v) j = true.
Proof.
  unfold mapHas. destruct (String.eqb_spec k j) as [->|Hne].
  - now rewrite mapGet_mapSet_eq.
  - now rewrite mapGet_mapSet_neq.
Qed.

Lemma In_mapDelete m k j w : In (j, w) (mapDelete m k) -> In (j, w) m /\ j <> k.
Proof.
  induction m as [|[k' u] m IH]; simpl; [contradiction|].
  destruct (String.eqb_spec k' k) as [->|Hne]; simpl.
  - intros H. destruct (IH H). split; [now right | assumption].
  - intros [H|H]; [injection H as <- <-; split; [now left | assumption]|].
    destruct (IH H). split; [now right | assumption].
Qed.
End MapEntries.

Lemma checkLoop_first_link (ts : jsmap IPromptTemplate) (tid : string) (fuel : nat)
      (visited : list string) (currentId : string) :
  currentId <> "" ->
  checkLoop fuel ts tid visited currentId = Some (success tt) ->
  mapHas ts currentId = true.
Proof.
  intros Hne H. destruct fuel as [|fuel]; [discriminate|]. cbn [checkLoop] in H.
  apply String.eqb_neq in Hne. rewrite Hne in H.
  destruct (existsb _ _); [discriminate|].
  destruct (currentId =? tid); [discriminate|].
  unfold mapHas. now destruct (mapGet ts currentId).
Qed.

Lemma extendsIs_of_parent (t : IPromptTemplate) :
  extendsOrEmpty t <> "" -> extendsIs (extendsOrEmpty t) t = true.
Proof.
  unfold extendsOrEmpty, extendsIs. destruct (read (extends t)); [|congruence].
  intros _. apply String.eqb_refl.
Qed.

Lemma reachable_parentsStored (reg : Registry) :
  reachable reg -> parentsStored (templates reg).
Proof.
  induction 1 as [| fuel reg reg' template r _ IH H | fuel reg reg' id0 r _ IH H
                  | fuel reg reg' id0 r _ IH H].
  - intros d t [].
  - destruct (register_cases _ _ _ _ _ H) as [(e & _ & ->)|(_ & -> & Hid & Hext)];
      [exact IH|].
    intros d t Hin Hp. apply mapHas_mapSet.
    apply In_mapSet in Hin as [[-> ->]|Hin]; [|now apply (IH d t)].
    destruct Hext as [Hext|Hcheck]; [contradiction|].
    exact (checkLoop_first_link _ _ _ _ _ Hp Hcheck).
  - destruct (remove_cases _ _ _ _ _ H) as [(e & _ & ->)|(_ & -> & Hnone)]; [exact IH|].
    intros d t Hin Hp. apply In_mapDelete in Hin as [Hin Hd].
    assert (Hne : id0 <> extendsOrEmpty t).
    { intros ->.
      pose proof (findDependent_complete _ _ _ _ Hin (extendsIs_of_parent _ Hp)) as Hdep.
      rewrite Hnone in Hdep. contradiction. }
    unfold mapHas. rewrite mapGet_mapDelete_neq by exact Hne. now apply (IH d t).
  - rewrite (getResolved_templates _ _ _ _ _ H). exact IH.
Qed.

(** ** The recursion of clearInheritanceCache comes to an end *)

Section Keys.
Variable V : Type.
Implicit Types (m : jsmap V) (k j : string) (v : V).

Lemma In_keys_mapSet m k v j :
  In j (mapKeys (mapSet m k v)) -> j = k \/ In j (mapKeys m).
Proof.
  induction m as [|[k' u] m IH]; simpl.
  - intros [<-|[]]. now left.
  - destruct (String.eqb_spec k' k) as [->|Hne]; simpl.
    + intros [<-|H]; [now left | right; now right].
    + intros [<-|H]; [right; now left|].
      destruct (IH H) as [?|?]; [now left | right; now right].
Qed.

Lemma NoDup_keys_mapSet m k v : NoDup (mapKeys m) -> NoDup (mapKeys (mapSet m k v)).
Proof.
  induction m as [|[k' u] m IH]; simpl; intros H.
  - repeat constructor. intros [].
  - inversion H as [|? ? Hnotin Hnd]; subst.
    destruct (String.eqb_spec k' k) as [->|Hne]; simpl; constructor; auto.
    intros Hin. apply In_keys_mapSet in Hin as [->|Hin]; [now elim Hne | now elim Hnotin].
Qed.

Lemma In_keys_mapDelete m k j : In j (mapKeys (mapDelete m k)) -> In j (mapKeys m).
Proof.
  induction m as [|[k' u] m IH]; simpl; [auto|].
  destruct (k' =? k); simpl; [intros H; right; auto|].
  intros [<-|H]; [now left | right; auto].
Qed.

Lemma NoDup_keys_mapDelete m k : NoDup (mapKeys m) -> NoDup (mapKeys (mapDelete m k)).
Proof.
  induction m as [|[k' u] m IH]; simpl; intros H; [constructor|].
  inversion H as [|? ? Hnotin Hnd]; subst.
  destruct (k' =? k); simpl; [auto|]. constructor; auto.
  intros Hin. apply In_keys_mapDelete in Hin. now elim Hnotin.
Qed.

Lemma In_NoDup_mapGet m k v : NoDup (mapKeys m) -> In (k, v) m -> mapGet m k = Some v.
Proof.
  induction m as [|[k' u] m IH]; simpl; intros Hnd Hin; [contradiction|].
  inversion Hnd as [|? ? Hnotin Hnd']; subst.
  destruct Hin as [H|H].
  - injection H as -> ->. now rewrite String.eqb_refl.
  - destruct (String.eqb_spec k' k) as [->|Hne]; [|auto].
    elim Hnotin. change k with (fst (k, v)). now apply in_map.
Qed.

Lemma mapHas_In_keys m k : mapHas m k = true -> In k (mapKeys m).
Proof.
  unfold mapHas. induction m as [|[k' u] m IH]; simpl; [discriminate|].
  destruct (String.eqb_spec k' k) as [->|Hne]; [now left | right; auto].
Qed.
End Keys.

Lemma reachable_wellKeyed (reg : Registry) : reachable reg -> wellKeyed (templates reg).
Proof.
  induction 1 as [| fuel reg reg' template r _ IH H | fuel reg reg' id0 r _ IH H
                  | fuel reg reg' id0 r _ IH H].
  - split; [constructor | intros k []].
  - destruct (register_cases _ _ _ _ _ H) as [(e & _ & ->)|(_ & -> & Hid & _)];
      [exact IH|].
    destruct IH as [Hnd Hne]. split; [now apply NoDup_keys_mapSet|].
    intros k Hk. apply In_keys_mapSet in Hk as [->|Hk]; auto.
  - destruct (remove_cases _ _ _ _ _ H) as [(e & _ & ->)|(_ & -> & _)]; [exact IH|].
    destruct IH as [Hnd Hne]. split; [now apply NoDup_keys_mapDelete|].
    intros k Hk. apply Hne. now apply In_keys_mapDelete in Hk.
  - rewrite (getResolved_templates _ _ _ _ _ H). exact IH.
Qed.

Section Acyclic.
Variable ts : jsmap IPromptTemplate.

Lemma Step_deterministic (a b c : string) : Step ts a b -> Step ts a c -> b = c.
Proof. intros (t & Ht & <- & _) (t' & Ht' & <- & _). congruence. Qed.

Lemma Steps_snoc (a b c : string) : Steps ts a b -> Step ts b c -> Steps ts a c.
Proof.
  induction 1 as [a b H|a b c' H _ IH]; intros Hc.
  - apply steps_more with (b := b); [exact H | now apply steps_one].
  - apply steps_more with (b := b); auto.
Qed.

(** no chain of links leads from an identifier back to it *)
Lemma no_cycle (a : string) : Resolves ts a -> ~ Steps ts a a.
Proof.
  induction 1 as [a Hget | a t Hget Hext | a t Hget _ IH]; intros Hcycle.
  - inversion Hcycle as [? ? (t & Ht & _)|? ? ? (t & Ht & _)]; congruence.
  - inversion Hcycle as [? ? (t' & Ht & He & Hne)|? ? ? (t' & Ht & He & Hne)];
      congruence.
  - apply IH. inversion Hcycle as [? ? Hs|? b ? Hs Hrest]; subst.
    + assert (Hs' := Hs). destruct Hs' as (t' & Ht & He & Hne).
      assert (t' = t) by congruence. subst t'. rewrite He. now apply steps_one.
    + assert (Hs' := Hs). destruct Hs' as (t' & Ht & He & Hne).
      assert (t' = t) by congruence. subst t'. rewrite He.
      now apply Steps_snoc with (b := a).
Qed.

Lemma Linked_stored (p : list string) :
  Linked ts p -> forall x, In x p -> In x (mapKeys ts).
Proof.
  induction p as [|a [|b r] IH]; cbn [Linked]; intros H x Hx.
  - contradiction.
  - destruct Hx as [<-|[]]. now apply mapHas_In_keys.
  - destruct H as [(t & Ht & _) Hl]. destruct Hx as [<-|Hx]; [|now apply IH].
    exact (mapGet_In_keys _ _ _ Ht).
Qed.

Lemma Linked_steps (a : string) (r : list string) :
  Linked ts (a :: r) -> forall x, In x r -> Steps ts a x.
Proof.
  revert a. induction r as [|b r IH]; intros a H x Hx; [contradiction|].
  cbn [Linked] in H. destruct H as [Hs Hl].
  destruct Hx as [<-|Hx]; [now apply steps_one|].
  apply steps_more with (b := b); [exact Hs | now apply IH].
Qed.

Lemma extendsIs_parent (id : string) (t : IPromptTemplate) :
  extendsIs id t = true -> extendsOrEmpty t = id.
Proof.
  unfold extendsIs, extendsOrEmpty. destruct (read (extends t)); [|discriminate].
  apply String.eqb_eq.
Qed.

Lemma fold_clear_returns (fuel : nat) (deps : list string) :
  (forall d, In d deps -> forall c, exists c', clearInheritanceCache fuel ts c d = Some c') ->
  forall c0, exists c',
    fold_left (fun acc dependent =>
                 match acc with
                 | Some c => clearInheritanceCache fuel ts c dependent
                 | None => None
                 end) deps (Some c0) = Some c'.
Proof.
  induction deps as [|d deps IH]; intros H c0; cbn [fold_left]; [eauto|].
  destruct (H d (or_introl eq_refl) c0) as (c1 & ->).
  apply IH. intros d' Hd'. apply H. now right.
Qed.

Hypothesis Hresolves : forall id, Resolves ts id.
Hypothesis Hkeys : wellKeyed ts.

(** [p] holds the identifiers whose cache entry is being cleared, the
    latest first: they are stored and distinct, so there are no more of them
    than stored templates *)
Lemma clear_returns_on_path (fuel : nat) :
  forall id p cache,
    (p = [] \/ exists r, p = id :: r) ->
    Linked ts p -> NoDup p ->
    List.length ts < fuel + List.length p ->
    exists c, clearInheritanceCache fuel ts cache id = Some c.
Proof.
  destruct Hkeys as [Hnd Hne].
  induction fuel as [|fuel IH]; intros id p cache Hhead Hlinked Hnodup Hlen.
  - pose proof (NoDup_incl_length Hnodup (Linked_stored p Hlinked)) as Hle.
    unfold mapKeys in Hle. rewrite length_map in Hle. simpl in Hlen. lia.
  - cbn [clearInheritanceCache]. apply fold_clear_returns.
    intros d Hd c. apply findDependent_sound in Hd as (t & Hin & Hext).
    pose proof (In_NoDup_mapGet _ _ _ _ Hnd Hin) as Hget.
    pose proof (extendsIs_parent _ _ Hext) as Hparent.
    apply (IH d (d :: p) c).
    + right. now exists p.
    + destruct Hhead as [->|(r & ->)]; cbn [Linked].
      * unfold mapHas. now rewrite Hget.
      * split; [|exact Hlinked]. exists t. repeat split; auto.
        apply Hne. apply (Linked_stored _ Hlinked). now left.
    + constructor; [|exact Hnodup]. intros Hdp.
      destruct Hhead as [->|(r & ->)]; [contradiction|].
      assert (Hstep : Step ts d id).
      { exists t. repeat split; auto.
        apply Hne. apply (Linked_stored _ Hlinked). now left. }
      apply (no_cycle d (Hresolves d)).
      destruct Hdp as [->|Hdp]; [now apply steps_one|].
      apply steps_more with (b := id); [exact Hstep|].
      now apply (Linked_steps id r Hlinked).
    + simpl. lia.
Qed.

Lemma clearInheritanceCache_returns (id : string) (cache : jsmap IPromptTemplate) :
  exists c, clearInheritanceCache (S (List.length ts)) ts cache id = Some c.
Proof.
  apply (clear_returns_on_path _ id [] cache); simpl; auto; [constructor | lia].
Qed.
End Acyclic.

(** in every reachable state [register] and [remove] return, with the call
    depth of one more than there are stored templates *)
Lemma register_returns (reg : Registry) (template : IPromptTemplate) :
  reachable reg ->
  exists fuel r reg', register fuel reg template = Some (r, reg').
Proof.
  intros Hreach.
  exists (S (List.length (mapSet (templates reg) (id template) template))).
  unfold register.
  destruct (String.eqb_spec (id template) "") as [|Hid]; [eauto|].
  destruct (name template =? ""); [eauto|].
  destruct (content template =? ""); [eauto|].
  assert (Hset : forall c,
             (extendsOrEmpty template = ""
              \/ checkCircularInheritance (templates reg) (id template)
                                          (extendsOrEmpty template) = Some (success tt)) ->
             exists c', clearInheritanceCache
                          (S (List.length (mapSet (templates reg) (id template) template)))
                          (mapSet (templates reg) (id template) template) c (id template)
                        = Some c').
  { intros c Hext. apply clearInheritanceCache_returns.
    - apply resolves_after_set; [now apply reachable_resolves|].
      destruct (String.eqb_spec (extendsOrEmpty template) "") as [Hroot|Hstep].
      + apply resolves_root with (template := template);
          [apply mapGet_mapSet_eq | exact Hroot].
      + apply resolves_step with (template := template); [apply mapGet_mapSet_eq|].
        destruct Hext as [Hext|Hcheck]; [contradiction|].
        exact (checkLoop_resolves _ _ _ _ _ _ Hstep Hcheck).
    - destruct (reachable_wellKeyed reg Hreach) as [Hnd Hne].
      split; [now apply NoDup_keys_mapSet|].
      intros k Hk. apply In_keys_mapSet in Hk as [->|Hk]; auto. }
  destruct (String.eqb_spec (extendsOrEmpty template) "") as [Hroot|Hstep]; cbn [negb].
  - destruct (Hset (inheritanceCache reg) (or_introl Hroot)) as (c & ->). eauto.
  - destruct (checkCircularInheritance_returns (templates reg) (id template)
                (extendsOrEmpty template)) as ([[]|e] & Hcheck); rewrite Hcheck; [|eauto].
    destruct (Hset (inheritanceCache reg) (or_intror Hcheck)) as (c & ->). eauto.
Qed.

Lemma remove_returns (reg : Registry) (id : string) :
  reachable reg ->
  exists fuel r reg', remove fuel reg id = Some (r, reg').
Proof.
  intros Hreach. exists (S (List.length (mapDelete (templates reg) id))).
  unfold remove.
  destruct (negb (mapHas (templates reg) id)); [eauto|].
  destruct (0 <? _)%nat; [eauto|].
  destruct (clearInheritanceCache_returns (mapDelete (templates reg) id)) with
    (id := id) (cache := inheritanceCache reg) as (c & ->); [| |eauto].
  - apply resolves_after_delete. now apply reachable_resolves.
  - destruct (reachable_wellKeyed reg Hreach) as [Hnd Hne].
    split; [now apply NoDup_keys_mapDelete|].
    intros k Hk. apply Hne. now apply In_keys_mapDelete in Hk.
Qed.

End RegistryFacts.

(* ===================================================================== *)
(** * The registry: merge, cycles, removal, resolution, search *)
(* ===================================================================== *)

Module RegistryProperties.
Import Str JS Types TemplateRegistry RegistryStates XmlTemplateParser Samples.
Import RegistryFacts.

(** ** The inheritance merge *)

(** a section that the child holds wins *)
Lemma merge_child_section_wins (parent child : IPromptTemplate) :
  (forall c, read (contextLoading child) = Some c ->
             read (contextLoading (mergeTemplates parent child)) = Some c)
  /\ (forall t, read (taskDefinition child) = Some t ->
                read (taskDefinition (mergeTemplates parent child)) = Some t)
  /\ (forall t, read (thinkingLevel child) = Some t ->
                read (thinkingLevel (mergeTemplates parent child)) = Some t).
Proof.
  repeat split; intros x H; cbn [mergeTemplates contextLoading taskDefinition thinkingLevel];
    now rewrite H.
Qed.

(** a section that is missing from the child comes from the parent *)
Lemma merge_keeps_parent_section (parent child : IPromptTemplate) :
  (contextLoading child = Absent ->
   contextLoading (mergeTemplates parent child) = contextLoading parent)
  /\ (taskDefinition child = Absent ->
      taskDefinition (mergeTemplates parent child) = taskDefinition parent)
  /\ (thinkingLevel child = Absent ->
      thinkingLevel (mergeTemplates parent child) = thinkingLevel parent).
Proof.
  repeat split; intros H; cbn [mergeTemplates contextLoading taskDefinition thinkingLevel];
    now rewrite H.
Qed.

(** a section that the child holds as [undefined] hides the parent's: the
    spread has copied it before the test [if (child.contextLoading)] *)
Lemma merge_undefined_hides_parent_section (parent child : IPromptTemplate) :
  (contextLoading child = Undef ->
   contextLoading (mergeTemplates parent child) = Undef)
  /\ (taskDefinition child = Undef ->
      taskDefinition (mergeTemplates parent child) = Undef)
  /\ (thinkingLevel child = Undef ->
      thinkingLevel (mergeTemplates parent child) = Undef).
Proof.
  repeat split; intros H; cbn [mergeTemplates contextLoading taskDefinition thinkingLevel];
    now rewrite H.
Qed.

(** every parsed template holds the three sections, as [undefined] where
    the document has none *)
Lemma parsed_sections_are_own_properties
      (parseVariables : string -> list IVariable) (xml : string) (t : IPromptTemplate) :
  parseXmlContent parseVariables xml = Some t ->
  contextLoading t <> Absent /\ taskDefinition t <> Absent /\ thinkingLevel t <> Absent.
Proof.
  unfold parseXmlContent.
  destruct (match Regex.search rootRegex xml with
            | Some attrs => Some (parseAttributes attrs)
            | None => None
            end) as [a|]; [|discriminate].
  destruct (attrGet a "id"); [|discriminate].
  destruct (attrGet a "name"); [|discriminate].
  destruct (_ =? ""); [discriminate|].
  intros H. injection H as <-. cbn [contextLoading taskDefinition thinkingLevel].
  repeat split.
  - now destruct (parseContextLoading xml).
  - now destruct (parseTaskDefinition xml).
  - now destruct (parseThinkingLevel xml).
Qed.

(** C2 (the source at the failing input).  The parent document defines
    context loading, a task definition and a thinking level; the child
    document extends it and defines none of them.  Both are parsed and merged:
    the merged template has lost all three sections of the parent. *)
Theorem parsed_child_loses_parent_sections (parseVariables : string -> list IVariable) :
  exists parent child,
    parseXmlContent parseVariables parentXml = Some parent
    /\ parseXmlContent parseVariables childXml = Some child
    /\ read (contextLoading parent) = Some parentContextLoading
    /\ read (taskDefinition parent) = Some parentTaskDefinition
    /\ read (thinkingLevel parent) = Some parentThinkingLevel
    /\ read (contextLoading child) = None
    /\ read (taskDefinition child) = None
    /\ read (thinkingLevel child) = None
    /\ read (contextLoading (mergeTemplates parent child)) = None
    /\ read (taskDefinition (mergeTemplates parent child)) = None
    /\ read (thinkingLevel (mergeTemplates parent child)) = None.
Proof.
  eexists. eexists.
  split; [vm_compute; reflexivity|]. split; [vm_compute; reflexivity|].
  repeat split.
Qed.

(** the same through the registry: what [getResolved] returns for the child *)
Example resolved_child_has_no_context_loading
        (parseVariables : string -> list IVariable) :
  exists parent child reg1 reg2 reg3 resolved,
    parseXmlContent parseVariables parentXml = Some parent
    /\ parseXmlContent parseVariables childXml = Some child
    /\ register 2 empty parent = Some (success tt, reg1)
    /\ register 2 reg1 child = Some (success tt, reg2)
    /\ getResolved 2 reg2 "child" = Some (success resolved, reg3)
    /\ read (contextLoading resolved) = None.
Proof.
  do 6 eexists.
  split; [vm_compute; reflexivity|]. split; [vm_compute; reflexivity|].
  split; [vm_compute; reflexivity|]. split; [vm_compute; reflexivity|].
  split; [vm_compute; reflexivity|]. reflexivity.
Qed.

(** ** Mutual extension *)

(** C4 (counterexample).  From the empty registry, registering A (extends
    B) fails because B is not stored, and registering B (extends A) then fails
    because A is not stored: the error of the second call is "Parent template
    not found: A", not a circular-inheritance error. *)
Lemma circular_registration_counterexample :
  register 1 empty templateA = Some (failure (ParentNotFound "B"), empty)
  /\ register 1 empty templateB = Some (failure (ParentNotFound "A"), empty)
  /\ isCircularError (ParentNotFound "A") = false
  /\ errorMessage (ParentNotFound "A") = "Parent template not found: A".
Proof. repeat split. Qed.

(** a cycle is reported where the chain of stored templates leads back to
    the identifier being registered *)
Example cycle_through_stored_templates :
  register 2 familyRegistry (plain "base" "Base" "Base body" (Val "child"))
  = Some (failure (SelfInheritance "base"), familyRegistry).
Proof. reflexivity. Qed.

(** C4 (amended).  Starting from an empty registry, registering template A
    with extends=B fails with a parent-not-found error naming B, and
    registering template B with extends=A then fails, on the second register
    call, with a parent-not-found error naming A (not with a
    circular-inheritance error); the registry is still empty after each call,
    and every failed register leaves the registry state unchanged. *)
Theorem mutual_extends_on_empty_registry (fuel : nat) (tA tB : IPromptTemplate) :
  id tA <> "" -> name tA <> "" -> content tA <> "" ->
  id tB <> "" -> name tB <> "" -> content tB <> "" ->
  id tA <> id tB ->
  extends tA = Val (id tB) ->
  extends tB = Val (id tA) ->
  register fuel empty tA = Some (failure (ParentNotFound (id tB)), empty)
  /\ register fuel empty tB = Some (failure (ParentNotFound (id tA)), empty)
  /\ isCircularError (ParentNotFound (id tA)) = false
  /\ (forall fuel' reg template e reg',
        register fuel' reg template = Some (failure e, reg') -> reg' = reg).
Proof.
  intros HidA HnA HcA HidB HnB HcB Hne HeA HeB.
  assert (Hregister : forall t p,
             id t <> "" -> name t <> "" -> content t <> "" -> p <> "" -> p <> id t ->
             extends t = Val p ->
             register fuel empty t = Some (failure (ParentNotFound p), empty)).
  { intros t p Hi Hn Hc Hp Hpt He. unfold register, extendsOrEmpty. rewrite He.
    apply String.eqb_neq in Hi, Hn, Hc, Hp, Hpt.
    cbn [read]. rewrite Hi, Hn, Hc, Hp. cbn.
    now rewrite Hp, Hpt. }
  split; [apply Hregister; auto|]. split; [apply Hregister; auto|].
  split; [reflexivity|].
  intros fuel' reg template e reg'. apply register_failure_unchanged.
Qed.

Lemma mutual_extends_on_empty_registry_witness :
  register 1 empty templateA = Some (failure (ParentNotFound "B"), empty)
  /\ register 1 empty templateB = Some (failure (ParentNotFound "A"), empty)
  /\ isCircularError (ParentNotFound "A") = false
  /\ (forall fuel' reg template e reg',
        register fuel' reg template = Some (failure e, reg') -> reg' = reg).
Proof.
  apply (mutual_extends_on_empty_registry 1 templateA templateB);
    (discriminate || reflexivity).
Defined.

(** ** Removal of a template that others extend *)

Lemma familyRegistry_reachable : reachable familyRegistry.
Proof.
  apply reach_register
    with (fuel := 1) (r := success tt) (template := childTemplate)
         (reg := {| templates := [("base", baseTemplate)]; inheritanceCache := [] |});
    [|reflexivity].
  apply reach_register
    with (fuel := 1) (r := success tt) (template := baseTemplate) (reg := empty);
    [|reflexivity].
  exact reach_empty.
Defined.

(** removal of a stored template that another stored template extends, in
    any state whatever *)
Lemma remove_stored_with_dependents_fails
      (fuel : nat) (reg : Registry) (id d : string) (t : IPromptTemplate) :
  exists_ reg id = true ->
  In (d, t) (templates reg) ->
  extends t = Val id ->
  exists dependents reg',
    remove fuel reg id = Some (failure (HasDependents id dependents), reg')
    /\ dependents = findDependentTemplates (templates reg) id
    /\ In d dependents
    /\ errorMessage (HasDependents id dependents)
       = "Cannot remove template " ++ id ++ ": other templates inherit from it: "
           ++ join ", " dependents
    /\ reg' = reg
    /\ exists_ reg' id = true
    /\ (forall d', In d' dependents -> exists_ reg' d' = true).
Proof.
  intros Hhas Hin Hext.
  exists (findDependentTemplates (templates reg) id), reg.
  assert (Hd : In d (findDependentTemplates (templates reg) id)).
  { apply (findDependent_complete _ _ _ t); [exact Hin|].
    unfold extendsIs. rewrite Hext. apply String.eqb_refl. }
  repeat split; auto.
  - unfold remove. unfold exists_ in Hhas. rewrite Hhas. cbn [negb].
    destruct (findDependentTemplates (templates reg) id); [contradiction | reflexivity].
  - intros d' Hd'. apply findDependent_sound in Hd' as (t' & Hin' & _).
    exact (In_mapHas _ _ _ _ Hin').
Qed.

(** C5 (counterexample).  A template whose [extends] is the empty string
    is registered without a check of its parent.  Some stored template then
    has [extends] equal to [''], and [remove('')] fails with 'Template not
    found: ', not with the list of the dependents: nothing is stored under
    the empty identifier. *)
Lemma remove_empty_identifier_counterexample :
  reachable {| templates := [("orphan", orphanTemplate)]; inheritanceCache := [] |}
  /\ In ("orphan", orphanTemplate) [("orphan", orphanTemplate)]
  /\ extends orphanTemplate = Val ""
  /\ findDependentTemplates [("orphan", orphanTemplate)] "" = ["orphan"]
  /\ forall fuel,
       remove fuel {| templates := [("orphan", orphanTemplate)]; inheritanceCache := [] |} ""
       = Some (failure (TemplateNotFound ""),
               {| templates := [("orphan", orphanTemplate)]; inheritanceCache := [] |})
       /\ errorMessage (TemplateNotFound "") = "Template not found: ".
Proof.
  split; [|repeat split; try (now left)].
  apply reach_register
    with (fuel := 1) (r := success tt) (template := orphanTemplate) (reg := empty);
    [exact reach_empty | reflexivity].
Qed.

(** C5 (amended).  For every state of a registry in which some stored
    template has [extends] equal to the identifier [id], and [id] is not the
    empty string, [remove(id)] fails with an error that lists the identifiers
    of the blocking dependent templates, and the registry is unchanged
    afterwards: the target and every dependent still exist. *)
Theorem remove_with_dependents_fails
        (fuel : nat) (reg : Registry) (id d : string) (t : IPromptTemplate) :
  reachable reg ->
  id <> "" ->
  In (d, t) (templates reg) ->
  extends t = Val id ->
  exists dependents reg',
    remove fuel reg id = Some (failure (HasDependents id dependents), reg')
    /\ dependents = findDependentTemplates (templates reg) id
    /\ In d dependents
    /\ errorMessage (HasDependents id dependents)
       = "Cannot remove template " ++ id ++ ": other templates inherit from it: "
           ++ join ", " dependents
    /\ reg' = reg
    /\ exists_ reg' id = true
    /\ (forall d', In d' dependents -> exists_ reg' d' = true).
Proof.
  intros Hreach Hid Hin Hext.
  apply (remove_stored_with_dependents_fails fuel reg id d t); auto.
  assert (He : extendsOrEmpty t = id) by (unfold extendsOrEmpty; now rewrite Hext).
  rewrite <- He. apply (reachable_parentsStored reg Hreach d t Hin). now rewrite He.
Qed.

Lemma remove_with_dependents_fails_witness :
  exists dependents reg',
    remove 1 familyRegistry "base" = Some (failure (HasDependents "base" dependents), reg')
    /\ dependents = findDependentTemplates (templates familyRegistry) "base"
    /\ In "child" dependents
    /\ errorMessage (HasDependents "base" dependents)
       = "Cannot remove template " ++ "base" ++ ": other templates inherit from it: "
           ++ join ", " dependents
    /\ reg' = familyRegistry
    /\ exists_ reg' "base" = true
    /\ (forall d', In d' dependents -> exists_ reg' d' = true).
Proof.
  apply (remove_with_dependents_fails 1 familyRegistry "base" "child" childTemplate).
  - exact familyRegistry_reachable.
  - discriminate.
  - right. left. reflexivity.
  - reflexivity.
Defined.

(** ** Resolution *)

Lemma getResolved_idempotent_where_links_end (reg : Registry) (id : string) :
  Resolves (templates reg) id ->
  exists n r reg',
    forall fuel, n <= fuel ->
      getResolved fuel reg id = Some (r, reg')
      /\ getResolved fuel reg' id = Some (r, reg').
Proof.
  destruct reg as [ts cache]. cbn [templates]. intros Hres.
  destruct (getResolved_terminates ts id Hres cache) as (n & [r reg'] & Hn).
  exists n, r, reg'. intros fuel Hle.
  pose proof (getResolved_mono _ _ _ _ Hn fuel Hle) as H1.
  split; [exact H1 | exact (getResolved_again _ _ _ _ _ H1)].
Qed.

(** C6.  For every state of a registry and every identifier [id],
    [getResolved(id)] returns, and calling it twice in a row with no register
    or remove in between returns the same result both times: the same
    success or failure and, on success, equal resolved templates.  The
    second call also leaves the registry as the first has left it. *)
Theorem getResolved_idempotent (reg : Registry) (id : string) :
  reachable reg ->
  exists n r reg',
    forall fuel, n <= fuel ->
      getResolved fuel reg id = Some (r, reg')
      /\ getResolved fuel reg' id = Some (r, reg').
Proof.
  intros Hreach. apply getResolved_idempotent_where_links_end.
  now apply reachable_resolves.
Qed.

Lemma getResolved_idempotent_witness :
  exists n r reg',
    forall fuel, n <= fuel ->
      getResolved fuel familyRegistry "child" = Some (r, reg')
      /\ getResolved fuel reg' "child" = Some (r, reg').
Proof.
  apply (getResolved_idempotent familyRegistry "child").
  exact familyRegistry_reachable.
Defined.

(** what the two calls return on the sample *)
Example getResolved_twice_on_family :
  exists resolved reg',
    getResolved 2 familyRegistry "child" = Some (success resolved, reg')
    /\ getResolved 2 reg' "child" = Some (success resolved, reg')
    /\ content resolved = "Child body"
    /\ extends resolved = Absent.
Proof. do 2 eexists. repeat split. Qed.

(** ** Search with the empty query *)

Lemma searchLoop_empty_query (ts : list IPromptTemplate) :
  (forall t, In t ts ->
             exists json, stringify (VObj (orEmptyList (metadata t))) = Normal json) ->
  searchLoop "" ts = Normal ts.
Proof.
  induction ts as [|t ts IH]; intros H; cbn [searchLoop]; [reflexivity|].
  unfold searchableText. destruct (H t (or_introl eq_refl)) as (json & ->).
  rewrite IH by (intros t' Ht'; apply H; now right).
  now rewrite StrFacts.includes_empty.
Qed.

(** C10 (counterexample).  A registry that holds one template whose
    metadata has a BigInt: [list()] succeeds and returns the template, and
    [search('')] fails, because [JSON.stringify] throws on the metadata. *)
Lemma search_empty_query_counterexample :
  reachable {| templates := [("counted", countedTemplate)]; inheritanceCache := [] |}
  /\ list_ {| templates := [("counted", countedTemplate)]; inheritanceCache := [] |}
     = success [countedTemplate]
  /\ search {| templates := [("counted", countedTemplate)]; inheritanceCache := [] |} ""
     = failure (Caught CannotSerializeBigInt)
  /\ errorMessage (Caught CannotSerializeBigInt) = "Do not know how to serialize a BigInt".
Proof.
  split; [|repeat split].
  apply reach_register
    with (fuel := 1) (r := success tt) (template := countedTemplate) (reg := empty);
    [exact reach_empty | reflexivity].
Qed.

(** C10 (amended).  For every registry state in which [JSON.stringify]
    accepts the metadata of every stored template, [search] with the
    empty-string query succeeds and returns all stored templates, in the same
    insertion-stable order and with the same count as [list()]. *)
Theorem search_empty_query_is_list (reg : Registry) :
  (forall t, In t (mapValues (templates reg)) ->
             exists json, stringify (VObj (orEmptyList (metadata t))) = Normal json) ->
  search reg "" = list_ reg
  /\ search reg "" = success (mapValues (templates reg))
  /\ (forall found, search reg "" = success found ->
                    List.length found = List.length (templates reg)).
Proof.
  intros Hjson.
  assert (H : search reg "" = success (mapValues (templates reg))).
  { unfold search. cbn [toLowerCase]. now rewrite (searchLoop_empty_query _ Hjson). }
  split; [|split; [exact H|]].
  - rewrite H. unfold list_. now rewrite map_id.
  - intros found Hf. rewrite H in Hf. injection Hf as <-.
    unfold mapValues. apply length_map.
Qed.

Lemma search_empty_query_is_list_witness :
  search familyRegistry "" = list_ familyRegistry
  /\ search familyRegistry "" = success (mapValues (templates familyRegistry))
  /\ (forall found, search familyRegistry "" = success found ->
                    List.length found = List.length (templates familyRegistry)).
Proof.
  apply (search_empty_query_is_list familyRegistry).
  intros t [<-|[<-|[]]]; eexists; reflexivity.
Defined.

End RegistryProperties.

(* ===================================================================== *)
(** * Facts about resolution and the cache *)
(* ===================================================================== *)

Module ResolutionFacts.
Import Str JS Types TemplateRegistry RegistryStates Resolution RegistryFacts.

Lemma mapGet_In (V : Type) (m : jsmap V) (k : string) (v : V) :
  mapGet m k = Some v -> In (k, v) m.
Proof.
  induction m as [|[k' w] m IH]; simpl; [discriminate|].
  destruct (String.eqb_spec k' k) as [->|Hne].
  - intros H. injection H as ->. now left.
  - intros H. right. auto.
Qed.

Lemma register_success (fuel : nat) (reg reg' : Registry) (template : IPromptTemplate) :
  register fuel reg template = Some (success tt, reg') ->
  templates reg' = mapSet (templates reg) (id template) template
  /\ clearInheritanceCache fuel (templates reg') (inheritanceCache reg) (id template)
     = Some (inheritanceCache reg')
  /\ id template <> "" /\ name template <> "" /\ content template <> "".
Proof.
  unfold register.
  destruct (String.eqb_spec (id template) "") as [|Hid]; [discriminate|].
  destruct (String.eqb_spec (name template) "") as [|Hname]; [discriminate|].
  destruct (String.eqb_spec (content template) "") as [|Hcontent]; [discriminate|].
  destruct (if negb (extendsOrEmpty template =? "")
            then checkCircularInheritance (templates reg) (id template)
                   (extendsOrEmpty template)
            else Some (success tt)) as [[[]|e]|]; [|discriminate|discriminate].
  destruct (clearInheritanceCache _ _ _ _) as [c|] eqn:E; [|discriminate].
  intros H. injection H as <-. cbn [templates inheritanceCache]. auto.
Qed.

Lemma remove_success (fuel : nat) (reg reg' : Registry) (id : string) :
  remove fuel reg id = Some (success tt, reg') ->
  mapHas (templates reg) id = true
  /\ findDependentTemplates (templates reg) id = []
  /\ templates reg' = mapDelete (templates reg) id
  /\ clearInheritanceCache fuel (templates reg') (inheritanceCache reg) id
     = Some (inheritanceCache reg').
Proof.
  unfold remove.
  destruct (mapHas (templates reg) id); cbn [negb]; [|discriminate].
  destruct (findDependentTemplates (templates reg) id) as [|d ds]; cbn; [|discriminate].
  destruct (clearInheritanceCache _ _ _ _) as [c|] eqn:E; [|discriminate].
  intros H. injection H as <-. cbn [templates inheritanceCache]. auto.
Qed.

(** ** What clearInheritanceCache leaves *)

Lemma fold_clear_None (fuel : nat) (ts : jsmap IPromptTemplate) (deps : list string) :
  fold_left (fun acc dependent =>
               match acc with
               | Some c => clearInheritanceCache fuel ts c dependent
               | None => None
               end) deps None = None.
Proof. induction deps; simpl; auto. Qed.

Lemma clear_only_deletes (ts : jsmap IPromptTemplate) (fuel : nat) :
  forall cache x cache',
    clearInheritanceCache fuel ts cache x = Some cache' ->
    forall k v, mapGet cache' k = Some v -> mapGet cache k = Some v.
Proof.
  induction fuel as [|fuel IH]; intros cache x cache' H k v Hk; [discriminate|].
  cbn [clearInheritanceCache] in H.
  assert (Hfold : forall deps c0,
             fold_left (fun acc dependent =>
                          match acc with
                          | Some c => clearInheritanceCache fuel ts c dependent
                          | None => None
                          end) deps (Some c0) = Some cache' ->
             mapGet c0 k = Some v).
  { induction deps as [|d deps IHd]; intros c0 Hf; cbn [fold_left] in Hf.
    - injection Hf as ->. exact Hk.
    - destruct (clearInheritanceCache fuel ts c0 d) as [c1|] eqn:E.
      + apply (IH _ _ _ E). now apply IHd.
      + now rewrite fold_clear_None in Hf. }
  specialize (Hfold _ _ H).
  destruct (String.eqb_spec x k) as [->|Hne].
  - now rewrite mapGet_mapDelete_eq in Hfold.
  - now rewrite mapGet_mapDelete_neq in Hfold.
Qed.

Lemma fold_clear_only_deletes (ts : jsmap IPromptTemplate) (fuel : nat)
      (deps : list string) :
  forall c0 c',
    fold_left (fun acc dependent =>
                 match acc with
                 | Some c => clearInheritanceCache fuel ts c dependent
                 | None => None
                 end) deps (Some c0) = Some c' ->
    forall k, mapGet c0 k = None -> mapGet c' k = None.
Proof.
  induction deps as [|d deps IH]; intros c0 c' Hf k Hk; cbn [fold_left] in Hf.
  - now injection Hf as <-.
  - destruct (clearInheritanceCache fuel ts c0 d) as [c1|] eqn:E;
      [|now rewrite fold_clear_None in Hf].
    apply (IH _ _ Hf).
    destruct (mapGet c1 k) as [v|] eqn:E1; [|reflexivity].
    rewrite (clear_only_deletes _ _ _ _ _ E _ _ E1) in Hk. discriminate.
Qed.

Lemma fold_clear_member (ts : jsmap IPromptTemplate) (fuel : nat) (k d : string)
      (deps : list string) :
  (forall c c2, clearInheritanceCache fuel ts c d = Some c2 -> mapGet c2 k = None) ->
  In d deps ->
  forall c0 c',
    fold_left (fun acc dependent =>
                 match acc with
                 | Some c => clearInheritanceCache fuel ts c dependent
                 | None => None
                 end) deps (Some c0) = Some c' ->
    mapGet c' k = None.
Proof.
  intros Hd. induction deps as [|d0 deps IH]; intros Hin c0 c' Hf; [contradiction|].
  cbn [fold_left] in Hf.
  destruct (clearInheritanceCache fuel ts c0 d0) as [c1|] eqn:E;
    [|now rewrite fold_clear_None in Hf].
  destruct (String.eqb_spec d0 d) as [->|Hne].
  - apply (fold_clear_only_deletes _ _ _ _ _ Hf). exact (Hd _ _ E).
  - destruct Hin as [?|Hin]; [contradiction|]. exact (IH Hin _ _ Hf).
Qed.

Lemma Step_dependent (ts : jsmap IPromptTemplate) (d x : string) :
  Step ts d x -> In d (findDependentTemplates ts x).
Proof.
  intros (t & Hget & Hext & Hne). apply (findDependent_complete _ _ _ t).
  - now apply mapGet_In.
  - rewrite <- Hext. apply extendsIs_of_parent. now rewrite Hext.
Qed.

(** the entry of every identifier that leads to [x] is gone *)
Lemma clear_deletes_descendants (ts : jsmap IPromptTemplate) (k : string) (n : nat) :
  forall x, StepsN ts n k x ->
  forall fuel cache cache',
    clearInheritanceCache fuel ts cache x = Some cache' -> mapGet cache' k = None.
Proof.
  induction n as [|n IH]; intros x Hsteps fuel cache cache' H;
    (destruct fuel as [|fuel]; [discriminate|]); cbn [clearInheritanceCache] in H.
  - cbn in Hsteps. subst x.
    apply (fold_clear_only_deletes _ _ _ _ _ H). apply mapGet_mapDelete_eq.
  - destruct Hsteps as (d & Hkd & Hdx).
    apply (fold_clear_member ts fuel k d (findDependentTemplates ts x)) with
      (c0 := mapDelete cache x); [|now apply Step_dependent|exact H].
    intros c c2 Hc. exact (IH d Hkd _ _ _ Hc).
Qed.

Lemma StepsN_cons (ts : jsmap IPromptTemplate) (a b : string) (n : nat) :
  Step ts a b -> forall c, StepsN ts n b c -> StepsN ts (S n) a c.
Proof.
  intros Hab. induction n as [|n IH]; intros c H.
  - cbn in H. subst c. exists a. split; [reflexivity | exact Hab].
  - destruct H as (d & Hbd & Hdc). exists d. split; [now apply IH | exact Hdc].
Qed.

Lemma Steps_StepsN (ts : jsmap IPromptTemplate) (a c : string) :
  Steps ts a c -> exists n, StepsN ts (S n) a c.
Proof.
  induction 1 as [a b H|a b c H _ [n IH]].
  - exists 0. exists a. split; [reflexivity | exact H].
  - exists (S n). now apply StepsN_cons with (b := b).
Qed.

Lemma clear_deletes (ts : jsmap IPromptTemplate) (fuel : nat)
      (cache cache' : jsmap IPromptTemplate) (x k : string) (v : IPromptTemplate) :
  clearInheritanceCache fuel ts cache x = Some cache' ->
  mapGet cache' k = Some v ->
  k <> x /\ ~ Steps ts k x /\ mapGet cache k = Some v.
Proof.
  intros H Hk. repeat split.
  - intros ->.
    rewrite (clear_deletes_descendants ts x 0 x eq_refl _ _ _ H) in Hk. discriminate.
  - intros Hs. destruct (Steps_StepsN _ _ _ Hs) as (n & Hn).
    rewrite (clear_deletes_descendants ts k (S n) x Hn _ _ _ H) in Hk. discriminate.
  - exact (clear_only_deletes _ _ _ _ _ H _ _ Hk).
Qed.

(** ** Resolution and the cache *)

Lemma Resolved_deterministic (ts : jsmap IPromptTemplate) (id : string)
      (a : IPromptTemplate) :
  Resolved ts id a -> forall b, Resolved ts id b -> a = b.
Proof.
  induction 1 as [id t Hget Hext|id t p Hget Hext _ IH]; intros b Hb;
    destruct Hb as [id t' Hget' Hext'|id t' p' Hget' Hext' Hp'];
    assert (t' = t) by congruence; subst t'; try congruence.
  now rewrite (IH _ Hp').
Qed.

Lemma Resolved_stored (ts : jsmap IPromptTemplate) (id : string) (r : IPromptTemplate) :
  Resolved ts id r -> exists t, mapGet ts id = Some t.
Proof. destruct 1; eauto. Qed.

Lemma Resolved_after_set (ts : jsmap IPromptTemplate) (x : string)
      (template r : IPromptTemplate) (id : string) :
  Resolved ts id r ->
  id <> x -> ~ Steps (mapSet ts x template) id x ->
  Resolved (mapSet ts x template) id r.
Proof.
  induction 1 as [id t Hget Hext|id t p Hget Hext _ IH]; intros Hne Hns.
  - apply resolved_root; [|exact Hext]. rewrite mapGet_mapSet_neq; auto.
  - assert (Hget' : mapGet (mapSet ts x template) id = Some t)
      by (rewrite mapGet_mapSet_neq; auto).
    assert (Hstep : Step (mapSet ts x template) id (extendsOrEmpty t))
      by (exists t; repeat split; auto).
    apply resolved_child; [exact Hget' | exact Hext|].
    apply IH.
    + intros He. apply Hns. rewrite He in Hstep. now apply steps_one.
    + intros Hs. apply Hns. now apply steps_more with (b := extendsOrEmpty t).
Qed.

Lemma Resolved_after_delete (ts : jsmap IPromptTemplate) (x : string)
      (r : IPromptTemplate) (id : string) :
  findDependentTemplates ts x = [] ->
  Resolved ts id r -> id <> x -> Resolved (mapDelete ts x) id r.
Proof.
  intros Hnone. induction 1 as [id t Hget Hext|id t p Hget Hext _ IH]; intros Hne.
  - apply resolved_root; [|exact Hext]. rewrite mapGet_mapDelete_neq; auto.
  - apply resolved_child; [rewrite mapGet_mapDelete_neq; auto | exact Hext|].
    apply IH. intros He.
    assert (Hstep : Step ts id x) by (exists t; repeat split; auto; congruence).
    apply Step_dependent in Hstep. now rewrite Hnone in Hstep.
Qed.

Lemma getResolved_coherent (fuel : nat) :
  forall reg id t reg',
    coherent (templates reg) (inheritanceCache reg) ->
    getResolved fuel reg id = Some (success t, reg') ->
    Resolved (templates reg) id t
    /\ coherent (templates reg) (inheritanceCache reg').
Proof.
  induction fuel as [|fuel IH]; intros reg id t reg' Hco H; [discriminate|].
  cbn [getResolved] in H.
  destruct (mapGet (inheritanceCache reg) id) as [cached|] eqn:Ec.
  { injection H as <- <-. split; [now apply Hco | exact Hco]. }
  unfold get in H. destruct (mapGet (templates reg) id) as [template|] eqn:Hget;
    [|discriminate].
  assert (Hset : forall r c, coherent (templates reg) c ->
                             Resolved (templates reg) id r ->
                             coherent (templates reg) (mapSet c id r)).
  { intros r c Hc Hr k v. destruct (String.eqb_spec id k) as [<-|Hne].
    - rewrite mapGet_mapSet_eq. intros Hv. now injection Hv as <-.
    - rewrite mapGet_mapSet_neq by exact Hne. apply Hc. }
  destruct (String.eqb_spec (extendsOrEmpty template) "") as [Hroot|Hstep]; cbn [negb] in H.
  - injection H as <- <-. cbn [inheritanceCache].
    assert (Hr : Resolved (templates reg) id template) by now apply resolved_root.
    split; [exact Hr | now apply Hset].
  - destruct (getResolved fuel reg (extendsOrEmpty template)) as [[[p|e] reg1]|] eqn:E;
      [|discriminate|discriminate].
    injection H as <- <-. cbn [inheritanceCache].
    destruct (IH _ _ _ _ Hco E) as [Hp Hco1].
    assert (Hr : Resolved (templates reg) id (mergeTemplates p template))
      by now apply resolved_child.
    split; [exact Hr | now apply Hset].
Qed.

Lemma reachable_coherent (reg : Registry) :
  reachable reg -> coherent (templates reg) (inheritanceCache reg).
Proof.
  induction 1 as [| fuel reg reg' template r _ IH H | fuel reg reg' id0 r _ IH H
                  | fuel reg reg' id0 r _ IH H].
  - intros id t H. discriminate.
  - destruct r as [[]|e]; [|now rewrite (register_failure_unchanged _ _ _ _ _ H)].
    destruct (register_success _ _ _ _ H) as (Hts & Hclear & _).
    intros k v Hk.
    destruct (clear_deletes _ _ _ _ _ _ _ Hclear Hk) as (Hne & Hns & Hold).
    rewrite Hts in *. apply Resolved_after_set; auto.
  - destruct r as [[]|e].
    + destruct (remove_success _ _ _ _ H) as (_ & Hnone & Hts & Hclear).
      intros k v Hk.
      destruct (clear_deletes _ _ _ _ _ _ _ Hclear Hk) as (Hne & _ & Hold).
      rewrite Hts. apply Resolved_after_delete; auto.
    + destruct (remove_cases _ _ _ _ _ H) as [(e' & _ & ->)|(Hr & _)];
        [exact IH | discriminate].
  - rewrite (getResolved_templates _ _ _ _ _ H).
    destruct r as [t|e].
    + exact (proj2 (getResolved_coherent _ _ _ _ _ IH H)).
    + now rewrite (getResolved_failure_unchanged _ _ _ _ _ H).
Qed.


Lemma reachable_keyed (reg : Registry) : reachable reg -> keyed (templates reg).
Proof.
  induction 1 as [| fuel reg reg' template r _ IH H | fuel reg reg' id0 r _ IH H
                  | fuel reg reg' id0 r _ IH H].
  - intros k t [].
  - destruct r as [[]|e]; [|now rewrite (register_failure_unchanged _ _ _ _ _ H)].
    destruct (register_success _ _ _ _ H) as (Hts & _ & Hid & Hname & Hcontent).
    rewrite Hts. intros k t Hin.
    apply In_mapSet in Hin as [[-> ->]|Hin]; [auto | now apply IH].
  - destruct (remove_cases _ _ _ _ _ H) as [(e & _ & ->)|(_ & -> & _)]; [exact IH|].
    intros k t Hin. apply In_mapDelete in Hin as [Hin _]. now apply IH.
  - now rewrite (getResolved_templates _ _ _ _ _ H).
Qed.

Lemma reachable_acyclic (reg : Registry) :
  reachable reg -> forall a, ~ Steps (templates reg) a a.
Proof. intros H a. apply no_cycle. now apply reachable_resolves. Qed.

(** resolution with nothing cached *)
Lemma Resolved_cold (ts : jsmap IPromptTemplate) (id : string) (r : IPromptTemplate) :
  Resolved ts id r ->
  exists n reg',
    getResolved n {| templates := ts; inheritanceCache := [] |} id = Some (success r, reg').
Proof.
  induction 1 as [id t Hget Hext|id t p Hget Hext _ (n & reg1 & IH)].
  - exists 1. eexists. cbn [getResolved inheritanceCache mapGet]. unfold get.
    cbn [templates]. rewrite Hget, Hext. reflexivity.
  - exists (S n). eexists. cbn [getResolved inheritanceCache mapGet]. unfold get.
    cbn [templates]. rewrite Hget.
    apply String.eqb_neq in Hext. rewrite Hext. cbn [negb]. rewrite IH. reflexivity.
Qed.

(** resolution with a coherent cache *)
Lemma Resolved_warm (ts cache : jsmap IPromptTemplate) (id : string) (r : IPromptTemplate) :
  coherent ts cache ->
  Resolved ts id r ->
  exists n reg',
    getResolved n {| templates := ts; inheritanceCache := cache |} id
    = Some (success r, reg').
Proof.
  intros Hco. induction 1 as [id t Hget Hext|id t p Hget Hext Hp (n & reg1 & IH)].
  - exists 1. cbn [getResolved inheritanceCache]. unfold get. cbn [templates].
    destruct (mapGet cache id) as [c|] eqn:Ec.
    + rewrite (Resolved_deterministic _ _ _ (Hco _ _ Ec) t); [eauto|].
      now apply resolved_root.
    + rewrite Hget, Hext. cbn. eauto.
  - exists (S n). cbn [getResolved inheritanceCache]. unfold get. cbn [templates].
    destruct (mapGet cache id) as [c|] eqn:Ec.
    + rewrite (Resolved_deterministic _ _ _ (Hco _ _ Ec) (mergeTemplates p t)); [eauto|].
      now apply resolved_child.
    + rewrite Hget. apply String.eqb_neq in Hext. rewrite Hext. cbn [negb].
      rewrite IH. eauto.
Qed.

Lemma Resolved_exists (ts : jsmap IPromptTemplate) (id : string) :
  Resolves ts id -> parentsStored ts -> mapHas ts id = true ->
  exists r, Resolved ts id r.
Proof.
  intros Hres Hparents.
  induction Hres as [id Hget | id t Hget Hext | id t Hget _ IH]; intros Hhas.
  - unfold mapHas in Hhas. now rewrite Hget in Hhas.
  - exists t. now apply resolved_root.
  - destruct (String.eqb_spec (extendsOrEmpty t) "") as [Hroot|Hstep].
    + exists t. now apply resolved_root.
    + destruct IH as (p & Hp).
      { apply (Hparents id t); [now apply mapGet_In | exact Hstep]. }
      exists (mergeTemplates p t). now apply resolved_child.
Qed.

Lemma getResolved_failure_cold (fuel : nat) :
  forall reg id e reg',
    getResolved fuel reg id = Some (failure e, reg') ->
    getResolved fuel {| templates := templates reg; inheritanceCache := [] |} id
    = Some (failure e, {| templates := templates reg; inheritanceCache := [] |}).
Proof.
  induction fuel as [|fuel IH]; intros reg id e reg' H; [discriminate|].
  cbn [getResolved] in *. cbn [inheritanceCache mapGet].
  destruct (mapGet (inheritanceCache reg) id); [discriminate|].
  unfold get in *. cbn [templates].
  destruct (mapGet (templates reg) id) as [template|]; [|now injection H as <- <-].
  destruct (negb (extendsOrEmpty template =? "")); [|discriminate].
  destruct (getResolved fuel reg (extendsOrEmpty template)) as [[[p|e1] reg1]|] eqn:E;
    [discriminate| |discriminate].
  injection H as <- <-. now rewrite (IH _ _ _ _ E).
Qed.

(** ** The walk of checkCircularInheritance *)

Section Walk.
Variable ts : jsmap IPromptTemplate.
Variable tid : string.
Hypothesis Hacyclic : forall a, ~ Steps ts a a.

Lemma visited_snoc (visited : list string) (cur next : string) :
  (forall v, In v visited -> Steps ts v cur) ->
  Step ts cur next ->
  forall v, In v (visited ++ [cur]) -> Steps ts v next.
Proof.
  intros Hv Hstep v Hin. apply in_app_or in Hin as [Hin|[<-|[]]].
  - apply Steps_snoc with (b := cur); auto.
  - now apply steps_one.
Qed.

Lemma not_visited (visited : list string) (cur : string) :
  (forall v, In v visited -> Steps ts v cur) ->
  existsb (String.eqb cur) visited = false.
Proof.
  intros Hv. destruct (existsb (String.eqb cur) visited) eqn:E; [|reflexivity].
  apply existsb_exists in E as (v & Hin & Heq). apply String.eqb_eq in Heq. subst v.
  elim (Hacyclic cur). now apply Hv.
Qed.

Lemma checkLoop_never_circular (fuel : nat) :
  forall visited cur v c,
    (forall v, In v visited -> Steps ts v cur) ->
    checkLoop fuel ts tid visited cur <> Some (failure (CircularInheritance v c)).
Proof.
  induction fuel as [|fuel IH]; intros visited cur v c Hv; [discriminate|].
  cbn [checkLoop]. destruct (cur =? ""); [discriminate|].
  rewrite (not_visited _ _ Hv).
  destruct (cur =? tid); [discriminate|].
  destruct (mapGet ts cur) as [t|] eqn:Hget; [|discriminate].
  destruct (String.eqb_spec (extendsOrEmpty t) "") as [->|Hne].
  - destruct fuel; discriminate.
  - apply IH. apply visited_snoc; [exact Hv|]. exists t. auto.
Qed.

Hypothesis Htid : tid <> "".
Hypothesis Hkeys : forall k, In k (mapKeys ts) -> k <> "".

Lemma checkLoop_finds_self (fuel : nat) :
  forall visited cur r,
    (forall v, In v visited -> Steps ts v cur) ->
    cur = tid \/ Steps ts cur tid ->
    checkLoop fuel ts tid visited cur = Some r ->
    r = failure (SelfInheritance tid).
Proof.
  induction fuel as [|fuel IH]; intros visited cur r Hv Hcur H; [discriminate|].
  cbn [checkLoop] in H.
  assert (Hne : cur <> "").
  { destruct Hcur as [->|Hs]; [exact Htid|].
    assert (exists t, mapGet ts cur = Some t) as (t & Ht)
        by (inversion Hs as [? ? (t & Ht & _)|? ? ? (t & Ht & _)]; eauto).
    apply Hkeys. exact (mapGet_In_keys _ _ _ Ht). }
  apply String.eqb_neq in Hne. rewrite Hne in H.
  rewrite (not_visited _ _ Hv) in H.
  destruct (String.eqb_spec cur tid) as [_|Hct]; [now injection H as <-|].
  destruct Hcur as [|Hs]; [contradiction|].
  inversion Hs as [? ? Hstep|? b ? Hstep Hrest]; subst;
    assert (Hstep' := Hstep); destruct Hstep' as (t & Ht & Hext & Hb);
    rewrite Ht, Hext in H.
  - apply (IH _ _ _ (visited_snoc _ _ _ Hv Hstep) (or_introl eq_refl) H).
  - apply (IH _ _ _ (visited_snoc _ _ _ Hv Hstep) (or_intror Hrest) H).
Qed.

End Walk.

End ResolutionFacts.

(* ===================================================================== *)
(** * The registry: storage, cycles, resolution, search *)
(* ===================================================================== *)

Module RegistryBehaviour.
Import Str JS Types TemplateRegistry RegistryStates Resolution Samples.
Import StrFacts RegistryFacts ResolutionFacts.

(** ** register, get, list, remove *)

Lemma mapKeys_mapSet (V : Type) (m : jsmap V) (k : string) (v : V) :
  mapKeys (mapSet m k v) = if mapHas m k then mapKeys m else (mapKeys m ++ [k])%list.
Proof.
  unfold mapHas. induction m as [|[k' w] m IH]; simpl; [reflexivity|].
  destruct (String.eqb_spec k' k) as [->|Hne]; simpl; [reflexivity|].
  rewrite IH. now destruct (mapGet m k).
Qed.

Lemma mapValues_mapSet_new (V : Type) (m : jsmap V) (k : string) (v : V) :
  mapHas m k = false -> mapValues (mapSet m k v) = (mapValues m ++ [v])%list.
Proof.
  unfold mapHas. induction m as [|[k' w] m IH]; simpl; [reflexivity|].
  destruct (String.eqb_spec k' k) as [->|Hne]; [discriminate|].
  intros H. simpl. now rewrite IH.
Qed.

(** X1.  A template that has been registered is what [get] returns for its
    identifier, and [exists] holds for it; what [get] returns for any other
    identifier is as before. *)
Theorem register_then_get (fuel : nat) (reg reg' : Registry) (template : IPromptTemplate) :
  register fuel reg template = Some (success tt, reg') ->
  get reg' (id template) = success template
  /\ exists_ reg' (id template) = true
  /\ (forall k, k <> id template -> get reg' k = get reg k /\ exists_ reg' k = exists_ reg k).
Proof.
  intros H. destruct (register_success _ _ _ _ H) as (Hts & _).
  unfold get, exists_, mapHas. rewrite Hts. repeat split.
  - now rewrite mapGet_mapSet_eq.
  - now rewrite mapGet_mapSet_eq.
  - rewrite mapGet_mapSet_neq; auto.
  - rewrite mapGet_mapSet_neq; auto.
Qed.

Lemma register_then_get_witness :
  get familyRegistry (id childTemplate) = success childTemplate
  /\ exists_ familyRegistry (id childTemplate) = true
  /\ (forall k, k <> id childTemplate ->
        get familyRegistry k
        = get {| templates := [("base", baseTemplate)]; inheritanceCache := [] |} k
        /\ exists_ familyRegistry k
           = exists_ {| templates := [("base", baseTemplate)]; inheritanceCache := [] |} k).
Proof.
  apply (register_then_get 1
           {| templates := [("base", baseTemplate)]; inheritanceCache := [] |}
           familyRegistry childTemplate).
  reflexivity.
Defined.

(** X2.  Registering under a new identifier puts the template at the end
    of what [list] returns; registering under an identifier that is stored
    replaces that template where it stands, and the identifiers keep their
    order. *)
Theorem register_keeps_list_order
        (fuel : nat) (reg reg' : Registry) (template : IPromptTemplate) :
  register fuel reg template = Some (success tt, reg') ->
  (exists_ reg (id template) = false ->
   list_ reg' = success (mapValues (templates reg) ++ [template])%list)
  /\ (exists_ reg (id template) = true ->
      mapKeys (templates reg') = mapKeys (templates reg)
      /\ forall l l', list_ reg = success l -> list_ reg' = success l' ->
                      List.length l' = List.length l).
Proof.
  intros H. destruct (register_success _ _ _ _ H) as (Hts & _).
  unfold exists_, list_. rewrite Hts. split; intros Hhas.
  - rewrite map_id. now rewrite mapValues_mapSet_new.
  - split; [now rewrite mapKeys_mapSet, Hhas|].
    intros l l' Hl Hl'. injection Hl as <-. injection Hl' as <-.
    rewrite !map_id. unfold mapValues. rewrite !length_map.
    rewrite <- (length_map fst (mapSet _ _ _)), <- (length_map fst (templates reg)).
    change (List.length (mapKeys (mapSet (templates reg) (id template) template))
            = List.length (mapKeys (templates reg))).
    now rewrite mapKeys_mapSet, Hhas.
Qed.

Lemma register_keeps_list_order_witness :
  (exists_ {| templates := [("base", baseTemplate)]; inheritanceCache := [] |}
           (id childTemplate) = false ->
   list_ familyRegistry = success [baseTemplate; childTemplate])
  /\ (exists_ {| templates := [("base", baseTemplate)]; inheritanceCache := [] |}
              (id childTemplate) = true ->
      mapKeys (templates familyRegistry) = ["base"]
      /\ forall l l',
          list_ {| templates := [("base", baseTemplate)]; inheritanceCache := [] |}
          = success l ->
          list_ familyRegistry = success l' -> List.length l' = List.length l).
Proof.
  apply (register_keeps_list_order 1
           {| templates := [("base", baseTemplate)]; inheritanceCache := [] |}
           familyRegistry childTemplate).
  reflexivity.
Defined.

(** X3.  After a removal that succeeds, [get] fails for the identifier with
    "Template not found" and [exists] is false; the identifier was stored and
    no stored template extended it; every other identifier is as before. *)
Theorem remove_then_get (fuel : nat) (reg reg' : Registry) (id : string) :
  remove fuel reg id = Some (success tt, reg') ->
  get reg' id = failure (TemplateNotFound id)
  /\ exists_ reg' id = false
  /\ exists_ reg id = true
  /\ findDependentTemplates (templates reg) id = []
  /\ (forall k, k <> id -> get reg' k = get reg k /\ exists_ reg' k = exists_ reg k).
Proof.
  intros H. destruct (remove_success _ _ _ _ H) as (Hhas & Hnone & Hts & _).
  unfold get, exists_, mapHas. rewrite Hts. repeat split; auto.
  - now rewrite mapGet_mapDelete_eq.
  - now rewrite mapGet_mapDelete_eq.
  - rewrite mapGet_mapDelete_neq; auto.
  - rewrite mapGet_mapDelete_neq; auto.
Qed.

Lemma remove_then_get_witness :
  get {| templates := [("base", baseTemplate)]; inheritanceCache := [] |} "child"
  = failure (TemplateNotFound "child")
  /\ exists_ {| templates := [("base", baseTemplate)]; inheritanceCache := [] |} "child"
     = false
  /\ exists_ familyRegistry "child" = true
  /\ findDependentTemplates (templates familyRegistry) "child" = []
  /\ (forall k, k <> "child" ->
        get {| templates := [("base", baseTemplate)]; inheritanceCache := [] |} k
        = get familyRegistry k
        /\ exists_ {| templates := [("base", baseTemplate)]; inheritanceCache := [] |} k
           = exists_ familyRegistry k).
Proof.
  apply (remove_then_get 1 familyRegistry
           {| templates := [("base", baseTemplate)]; inheritanceCache := [] |} "child").
  reflexivity.
Defined.


(** ** What every reachable registry satisfies *)

(** X4.  In every state that the public operations lead to: a stored
    template is stored under its own identifier, which is not empty, and has a
    name and a content; the template it extends is stored; and no template
    extends itself through any number of links. *)
Theorem reachable_registry_is_well_formed (reg : Registry) :
  reachable reg ->
  (forall k t, get reg k = success t ->
     id t = k /\ k <> "" /\ name t <> "" /\ content t <> ""
     /\ (extendsOrEmpty t <> "" -> exists_ reg (extendsOrEmpty t) = true))
  /\ (forall a, ~ Steps (templates reg) a a).
Proof.
  intros Hreach. split; [|now apply reachable_acyclic].
  intros k t Hget. unfold get in Hget.
  destruct (mapGet (templates reg) k) as [t'|] eqn:E; [|discriminate].
  injection Hget as ->. apply mapGet_In in E.
  destruct (reachable_keyed reg Hreach k t E) as (Hid & Hname & Hcontent).
  repeat split; auto.
  - apply (proj2 (reachable_wellKeyed reg Hreach)).
    change k with (fst (k, t)). now apply in_map.
  - intros Hext. exact (reachable_parentsStored reg Hreach k t E Hext).
Qed.

Lemma reachable_registry_is_well_formed_witness :
  (forall k t, get familyRegistry k = success t ->
     id t = k /\ k <> "" /\ name t <> "" /\ content t <> ""
     /\ (extendsOrEmpty t <> "" -> exists_ familyRegistry (extendsOrEmpty t) = true))
  /\ (forall a, ~ Steps (templates familyRegistry) a a).
Proof.
  apply (reachable_registry_is_well_formed familyRegistry).
  exact RegistryProperties.familyRegistry_reachable.
Defined.

(** ** Cycles *)

(** X5.  A template that extends itself, directly or through stored
    templates, is rejected with "Template cannot inherit from itself", in
    every reachable state, and the registry stays as it was. *)
Theorem register_rejects_cycle (fuel : nat) (reg : Registry) (template : IPromptTemplate) :
  reachable reg ->
  id template <> "" -> name template <> "" -> content template <> "" ->
  extendsOrEmpty template = id template
  \/ Steps (templates reg) (extendsOrEmpty template) (id template) ->
  register fuel reg template = Some (failure (SelfInheritance (id template)), reg)
  /\ errorMessage (SelfInheritance (id template))
     = "Template cannot inherit from itself: " ++ id template.
Proof.
  intros Hreach Hid Hname Hcontent Hcycle. split; [|reflexivity].
  unfold register.
  apply String.eqb_neq in Hid as Eid, Hname, Hcontent. rewrite Eid, Hname, Hcontent.
  assert (Hext : extendsOrEmpty template <> "").
  { destruct Hcycle as [->|Hs]; [exact Hid|].
    assert (exists t, mapGet (templates reg) (extendsOrEmpty template) = Some t)
      as (t & Ht)
        by (inversion Hs as [? ? (t & Ht & _)|? ? ? (t & Ht & _)]; eauto).
    apply (proj2 (reachable_wellKeyed reg Hreach)). exact (mapGet_In_keys _ _ _ Ht). }
  apply String.eqb_neq in Hext as Eext. rewrite Eext. cbn [negb].
  destruct (checkCircularInheritance_returns (templates reg) (id template)
              (extendsOrEmpty template)) as (r & Hr).
  rewrite Hr. unfold checkCircularInheritance in Hr.
  assert (Hself : r = failure (SelfInheritance (id template))).
  { apply (checkLoop_finds_self (templates reg) (id template)
             (reachable_acyclic reg Hreach) Hid
             (proj2 (reachable_wellKeyed reg Hreach))
             (S (List.length (templates reg))) [] (extendsOrEmpty template) r);
      [intros v [] | exact Hcycle | exact Hr]. }
  now rewrite Hself.
Qed.

Lemma register_rejects_cycle_witness :
  register 2 familyRegistry (plain "base" "Base" "Base body" (Val "child"))
  = Some (failure (SelfInheritance "base"), familyRegistry)
  /\ errorMessage (SelfInheritance "base") = "Template cannot inherit from itself: base".
Proof.
  apply (register_rejects_cycle 2 familyRegistry
           (plain "base" "Base" "Base body" (Val "child")) RegistryProperties.familyRegistry_reachable);
    try discriminate.
  right. apply steps_one. exists childTemplate. repeat split. discriminate.
Defined.

(** X6.  In a reachable state no registration fails with "Circular
    inheritance detected": the walk along the stored links never comes to an
    identifier a second time. *)
Theorem register_never_reports_circular
        (fuel : nat) (reg reg' : Registry) (template : IPromptTemplate) (e : RegistryError) :
  reachable reg ->
  register fuel reg template = Some (failure e, reg') ->
  reg' = reg
  /\ forall visited currentId, e <> CircularInheritance visited currentId.
Proof.
  intros Hreach H. split; [exact (register_failure_unchanged _ _ _ _ _ H)|].
  intros visited cur ->. revert H. unfold register.
  destruct (id template =? ""); [discriminate|].
  destruct (name template =? ""); [discriminate|].
  destruct (content template =? ""); [discriminate|].
  destruct (negb (extendsOrEmpty template =? "")).
  - destruct (checkCircularInheritance _ _ _) as [[[]|e]|] eqn:E; [|intros H|discriminate].
    + destruct (clearInheritanceCache _ _ _ _); discriminate.
    + injection H as -> _. revert E. unfold checkCircularInheritance.
      apply checkLoop_never_circular; [now apply reachable_acyclic | intros v []].
  - destruct (clearInheritanceCache _ _ _ _); discriminate.
Qed.

Lemma register_never_reports_circular_witness :
  familyRegistry = familyRegistry
  /\ forall visited currentId,
      SelfInheritance "base" <> CircularInheritance visited currentId.
Proof.
  apply (register_never_reports_circular 2 familyRegistry familyRegistry
           (plain "base" "Base" "Base body" (Val "child")) (SelfInheritance "base")
           RegistryProperties.familyRegistry_reachable).
  reflexivity.
Defined.

Section Verdicts.
Variable ts : jsmap IPromptTemplate.
Variable tid : string.

Lemma checkLoop_success (fuel : nat) :
  forall visited cur,
    cur <> "" ->
    checkLoop fuel ts tid visited cur = Some (success tt) ->
    cur <> tid /\ ~ Steps ts cur tid /\ Resolves ts cur /\ mapHas ts cur = true.
Proof.
  induction fuel as [|fuel IH]; intros visited cur Hne H; [discriminate|].
  cbn [checkLoop] in H. apply String.eqb_neq in Hne as E0. rewrite E0 in H.
  destruct (existsb (String.eqb cur) visited); [discriminate|].
  destruct (String.eqb_spec cur tid) as [|Hct]; [discriminate|].
  unfold mapHas. destruct (mapGet ts cur) as [t|] eqn:Hget; [|discriminate].
  destruct (String.eqb_spec (extendsOrEmpty t) "") as [Hroot|Hstep].
  - repeat split; auto.
    + intros Hs.
      inversion Hs as [? ? (t' & Ht & He & Hb)|? ? ? (t' & Ht & He & Hb)]; congruence.
    + now apply resolves_root with (template := t).
  - destruct (IH _ _ Hstep H) as (Hnt & Hns & Hres & _). repeat split; auto.
    + intros Hs.
      inversion Hs as [? ? (t' & Ht & He & Hb)|? b ? (t' & Ht & He & Hb) Hrest]; subst;
        assert (t' = t) by congruence; subst t'; [now apply Hnt|].
      now apply Hns.
    + now apply resolves_step with (template := t).
Qed.

Lemma checkLoop_failure (start : string) (fuel : nat) :
  forall visited cur e,
    (forall v, In v visited -> Steps ts v cur) ->
    cur = start \/ Steps ts start cur ->
    checkLoop fuel ts tid visited cur = Some (failure e) ->
    match e with
    | SelfInheritance x => x = tid /\ (start = tid \/ Steps ts start tid)
    | ParentNotFound c => mapGet ts c = None /\ (c = start \/ Steps ts start c)
    | CircularInheritance _ c => Steps ts c c
    | _ => False
    end.
Proof.
  induction fuel as [|fuel IH]; intros visited cur e Hv Hcur H; [discriminate|].
  cbn [checkLoop] in H. destruct (cur =? ""); [discriminate|].
  destruct (existsb (String.eqb cur) visited) eqn:Ev.
  { injection H as <-. apply existsb_exists in Ev as (v & Hin & Heq).
    apply String.eqb_eq in Heq. subst v. now apply Hv. }
  destruct (String.eqb_spec cur tid) as [->|Hct].
  { injection H as <-. split; [reflexivity|]. destruct Hcur as [->|Hs]; auto. }
  destruct (mapGet ts cur) as [t|] eqn:Hget.
  2:{ injection H as <-. split; [exact Hget|]. destruct Hcur as [->|Hs]; auto. }
  destruct (String.eqb_spec (extendsOrEmpty t) "") as [Hroot|Hstep].
  { rewrite Hroot in H. destruct fuel; discriminate. }
  assert (Hlink : Step ts cur (extendsOrEmpty t)) by (exists t; auto).
  apply (IH _ _ _ (visited_snoc ts _ _ _ Hv Hlink)); [|exact H].
  right. destruct Hcur as [->|Hs]; [now apply steps_one|].
  now apply Steps_snoc with (b := cur).
Qed.
End Verdicts.

(** X7.  The loop of [checkCircularInheritance] comes to an end in every
    state of the map, also one with cycles, and its verdict is sound.  When
    it succeeds, the chain of links from the parent ends and never meets the
    new identifier.  "Template cannot inherit from itself" means that the
    chain leads to the new identifier, "Parent template not found" names an
    identifier on the chain that is not stored, and "Circular inheritance
    detected" names an identifier that leads back to itself. *)
Theorem checkCircularInheritance_is_sound
        (ts : jsmap IPromptTemplate) (templateId parentId : string) :
  parentId <> "" ->
  exists r,
    checkCircularInheritance ts templateId parentId = Some r
    /\ match r with
       | success _ =>
           parentId <> templateId /\ ~ Steps ts parentId templateId
           /\ Resolves ts parentId /\ mapHas ts parentId = true
       | failure (SelfInheritance x) =>
           x = templateId /\ (parentId = templateId \/ Steps ts parentId templateId)
       | failure (ParentNotFound c) =>
           mapGet ts c = None /\ (c = parentId \/ Steps ts parentId c)
       | failure (CircularInheritance _ c) => Steps ts c c
       | failure _ => False
       end.
Proof.
  intros Hne.
  destruct (checkCircularInheritance_returns ts templateId parentId) as (r & Hr).
  exists r. split; [exact Hr|]. unfold checkCircularInheritance in Hr.
  destruct r as [[]|e].
  - exact (checkLoop_success ts templateId _ _ _ Hne Hr).
  - apply (checkLoop_failure ts templateId parentId (S (List.length ts)) [] parentId e);
      [intros v [] | now left | exact Hr].
Qed.

Lemma checkCircularInheritance_is_sound_witness :
  exists r,
    checkCircularInheritance (templates familyRegistry) "grandchild" "child" = Some r
    /\ match r with
       | success _ =>
           "child" <> "grandchild" /\ ~ Steps (templates familyRegistry) "child" "grandchild"
           /\ Resolves (templates familyRegistry) "child"
           /\ mapHas (templates familyRegistry) "child" = true
       | failure (SelfInheritance x) =>
           x = "grandchild"
           /\ ("child" = "grandchild" \/ Steps (templates familyRegistry) "child" "grandchild")
       | failure (ParentNotFound c) =>
           mapGet (templates familyRegistry) c = None
           /\ (c = "child" \/ Steps (templates familyRegistry) "child" c)
       | failure (CircularInheritance _ c) => Steps (templates familyRegistry) c c
       | failure _ => False
       end.
Proof.
  apply (checkCircularInheritance_is_sound (templates familyRegistry) "grandchild" "child").
  discriminate.
Defined.

Lemma length_mapSet (V : Type) (m : jsmap V) (k : string) (v : V) :
  List.length (mapSet m k v) <= S (List.length m).
Proof.
  induction m as [|[k' w] m IH]; simpl; [lia|].
  destruct (k' =? k); simpl; lia.
Qed.

Lemma length_mapDelete (V : Type) (m : jsmap V) (k : string) :
  List.length (mapDelete m k) <= List.length m.
Proof.
  induction m as [|[k' w] m IH]; simpl; [lia|].
  destruct (k' =? k); simpl; lia.
Qed.

(** X8.  In every reachable state [register] and [remove] return: the
    recursion of [clearInheritanceCache] through the dependent templates
    comes to an end, at a call depth of no more than the number of stored
    templates. *)
Theorem register_and_remove_return
        (reg : Registry) (template : IPromptTemplate) (id0 : string) (fuel : nat) :
  reachable reg ->
  S (List.length (templates reg)) < fuel ->
  (exists r reg', register fuel reg template = Some (r, reg'))
  /\ (exists r reg', remove fuel reg id0 = Some (r, reg')).
Proof.
  intros Hreach Hfuel. destruct (reachable_wellKeyed reg Hreach) as [Hnd Hne]. split.
  - unfold register.
    destruct (String.eqb_spec (id template) "") as [|Hid]; [eauto|].
    destruct (name template =? ""); [eauto|].
    destruct (content template =? ""); [eauto|].
    assert (Hset : forall c,
               (extendsOrEmpty template = ""
                \/ checkCircularInheritance (templates reg) (id template)
                     (extendsOrEmpty template) = Some (success tt)) ->
               exists c', clearInheritanceCache fuel
                            (mapSet (templates reg) (id template) template) c (id template)
                          = Some c').
    { intros c Hext.
      apply (clear_returns_on_path (mapSet (templates reg) (id template) template))
        with (p := []); simpl; auto; [| |constructor|].
      - apply resolves_after_set; [now apply reachable_resolves|].
        destruct (String.eqb_spec (extendsOrEmpty template) "") as [Hroot|Hstep].
        + apply resolves_root with (template := template);
            [apply mapGet_mapSet_eq | exact Hroot].
        + apply resolves_step with (template := template); [apply mapGet_mapSet_eq|].
          destruct Hext as [Hext|Hcheck]; [contradiction|].
          exact (checkLoop_resolves _ _ _ _ _ _ Hstep Hcheck).
      - split; [now apply NoDup_keys_mapSet|].
        intros k Hk. apply In_keys_mapSet in Hk as [->|Hk]; auto.
      - pose proof (length_mapSet _ (templates reg) (id template) template). lia. }
    destruct (String.eqb_spec (extendsOrEmpty template) "") as [Hroot|Hstep]; cbn [negb].
    + destruct (Hset (inheritanceCache reg) (or_introl Hroot)) as (c & ->). eauto.
    + destruct (checkCircularInheritance_returns (templates reg) (id template)
                  (extendsOrEmpty template)) as ([[]|e] & Hcheck); rewrite Hcheck; [|eauto].
      destruct (Hset (inheritanceCache reg) (or_intror Hcheck)) as (c & ->). eauto.
  - unfold remove.
    destruct (negb (mapHas (templates reg) id0)); [eauto|].
    destruct (0 <? _)%nat; [eauto|].
    destruct (clear_returns_on_path (mapDelete (templates reg) id0)) with
      (fuel := fuel) (id := id0) (p := @nil string) (cache := inheritanceCache reg)
      as (c & ->); simpl; auto; [| |constructor| |eauto].
    + apply resolves_after_delete. now apply reachable_resolves.
    + split; [now apply NoDup_keys_mapDelete|].
      intros k Hk. apply Hne. now apply In_keys_mapDelete in Hk.
    + pose proof (length_mapDelete _ (templates reg) id0). lia.
Qed.

Lemma register_and_remove_return_witness :
  (exists r reg', register 4 familyRegistry templateA = Some (r, reg'))
  /\ (exists r reg', remove 4 familyRegistry "child" = Some (r, reg')).
Proof.
  apply (register_and_remove_return familyRegistry templateA "child" 4
           RegistryProperties.familyRegistry_reachable).
  simpl. lia.
Defined.


(** ** Resolution *)

(** X9.  In every reachable state the resolution of a stored identifier
    succeeds, whatever is cached, and the resolution of an identifier that is
    not stored fails with "Template not found" and changes nothing. *)
Theorem getResolved_succeeds_iff_stored (reg : Registry) (id : string) :
  reachable reg ->
  exists n, forall fuel, n <= fuel ->
    (exists_ reg id = true ->
     exists t reg', getResolved fuel reg id = Some (success t, reg'))
    /\ (exists_ reg id = false ->
        getResolved fuel reg id = Some (failure (TemplateNotFound id), reg)).
Proof.
  intros Hreach. pose proof (reachable_coherent reg Hreach) as Hco.
  destruct (exists_ reg id) eqn:Hhas; unfold exists_ in Hhas.
  - destruct (Resolved_exists (templates reg) id) as (r & Hr); auto.
    { now apply reachable_resolves. }
    { now apply reachable_parentsStored. }
    destruct reg as [ts cache]. cbn [templates inheritanceCache] in *.
    destruct (Resolved_warm ts cache id r Hco Hr) as (n & reg' & Hn).
    exists n. intros fuel Hle. split; [|discriminate].
    intros _. exists r, reg'. exact (getResolved_mono _ _ _ _ Hn fuel Hle).
  - exists 1. intros fuel Hle. split; [discriminate|]. intros _.
    destruct fuel as [|fuel]; [lia|]. cbn [getResolved].
    destruct (mapGet (inheritanceCache reg) id) as [c|] eqn:Ec.
    + destruct (Resolved_stored _ _ _ (Hco _ _ Ec)) as (t & Ht).
      unfold mapHas in Hhas. now rewrite Ht in Hhas.
    + unfold get. unfold mapHas in Hhas.
      now destruct (mapGet (templates reg) id).
Qed.

Lemma getResolved_succeeds_iff_stored_witness :
  exists n, forall fuel, n <= fuel ->
    (exists_ familyRegistry "child" = true ->
     exists t reg', getResolved fuel familyRegistry "child" = Some (success t, reg'))
    /\ (exists_ familyRegistry "child" = false ->
        getResolved fuel familyRegistry "child"
        = Some (failure (TemplateNotFound "child"), familyRegistry)).
Proof.
  apply (getResolved_succeeds_iff_stored familyRegistry "child").
  exact RegistryProperties.familyRegistry_reachable.
Defined.

(** X10.  What [getResolved] returns in a reachable state, with whatever is
    cached, is what it returns for the same templates with an empty cache: no
    cached template is out of date. *)
Theorem getResolved_agrees_with_cold_cache
        (fuel : nat) (reg reg' : Registry) (id : string) (r : Result IPromptTemplate) :
  reachable reg ->
  getResolved fuel reg id = Some (r, reg') ->
  exists n reg'', getResolved n (cold reg) id = Some (r, reg'').
Proof.
  intros Hreach H. destruct r as [t|e].
  - destruct (getResolved_coherent _ _ _ _ _ (reachable_coherent reg Hreach) H) as [Hr _].
    exact (Resolved_cold _ _ _ Hr).
  - exists fuel. eexists. exact (getResolved_failure_cold _ _ _ _ _ H).
Qed.

Lemma getResolved_agrees_with_cold_cache_witness :
  exists n reg'',
    getResolved n (cold {| templates := templates familyRegistry;
                           inheritanceCache := [("base", baseTemplate)] |}) "child"
    = Some (success (mergeTemplates baseTemplate childTemplate), reg'').
Proof.
  apply (getResolved_agrees_with_cold_cache 2
           {| templates := templates familyRegistry;
              inheritanceCache := [("base", baseTemplate)] |}
           {| templates := templates familyRegistry;
              inheritanceCache := [("base", baseTemplate);
                                   ("child", mergeTemplates baseTemplate childTemplate)] |}
           "child" (success (mergeTemplates baseTemplate childTemplate))).
  - apply reach_getResolved
      with (fuel := 1) (reg := familyRegistry) (id := "base") (r := success baseTemplate);
      [exact RegistryProperties.familyRegistry_reachable | reflexivity].
  - reflexivity.
Defined.

(** X11.  A template that [getResolved] returns in a reachable state has
    the identifier asked for, the name and the content of the stored template,
    and extends nothing.  It is the stored template itself where that extends
    nothing, and otherwise the merge of the resolved parent with it. *)
Theorem getResolved_unfolds
        (fuel : nat) (reg reg' : Registry) (id0 : string) (r : IPromptTemplate) :
  reachable reg ->
  getResolved fuel reg id0 = Some (success r, reg') ->
  exists t,
    get reg id0 = success t
    /\ id r = id0 /\ name r = name t /\ content r = content t
    /\ extendsOrEmpty r = ""
    /\ (extendsOrEmpty t = "" -> r = t)
    /\ (extendsOrEmpty t <> "" ->
        exists p n reg1,
          getResolved n reg (extendsOrEmpty t) = Some (success p, reg1)
          /\ r = mergeTemplates p t).
Proof.
  intros Hreach H. pose proof (reachable_coherent reg Hreach) as Hco.
  destruct (getResolved_coherent _ _ _ _ _ Hco H) as [Hr _].
  destruct Hr as [id0 t Hget Hext|id0 t p Hget Hext Hp]; exists t;
    (split; [unfold get; now rewrite Hget|]);
    destruct (reachable_keyed reg Hreach id0 t (mapGet_In _ _ _ _ Hget)) as (Hid & _).
  - repeat split; auto. intros Hne. contradiction.
  - cbn [mergeTemplates id name content]. repeat split; auto.
    + now destruct (negb (content t =? "")).
    + intros He. contradiction.
    + intros _. destruct reg as [ts cache]. cbn [templates inheritanceCache] in *.
      destruct (Resolved_warm ts cache _ p Hco Hp) as (n & reg1 & Hn).
      exists p, n, reg1. split; [exact Hn | reflexivity].
Qed.

Lemma getResolved_unfolds_witness :
  exists t,
    get familyRegistry "child" = success t
    /\ id (mergeTemplates baseTemplate childTemplate) = "child"
    /\ name (mergeTemplates baseTemplate childTemplate) = name t
    /\ content (mergeTemplates baseTemplate childTemplate) = content t
    /\ extendsOrEmpty (mergeTemplates baseTemplate childTemplate) = ""
    /\ (extendsOrEmpty t = "" -> mergeTemplates baseTemplate childTemplate = t)
    /\ (extendsOrEmpty t <> "" ->
        exists p n reg1,
          getResolved n familyRegistry (extendsOrEmpty t) = Some (success p, reg1)
          /\ mergeTemplates baseTemplate childTemplate = mergeTemplates p t).
Proof.
  apply (getResolved_unfolds 2 familyRegistry
           {| templates := templates familyRegistry;
              inheritanceCache := [("base", baseTemplate);
                                   ("child", mergeTemplates baseTemplate childTemplate)] |}
           "child" (mergeTemplates baseTemplate childTemplate)
           RegistryProperties.familyRegistry_reachable).
  reflexivity.
Defined.


(** ** Search *)









(** ** Merge *)

(** X13.  The merge of a parent with a child has the identifier, the name
    and the content of the child and no [extends]; its variables are those of
    the parent followed by those of the child, none left out; each key of its
    metadata holds the value of the child where the child has the key, and
    the value of the parent elsewhere. *)
Theorem merge_combines_variables_and_metadata (parent child : IPromptTemplate) :
  NoDup (map fst (orEmptyList (metadata child))) ->
  let merged := mergeTemplates parent child in
  id merged = id child /\ name merged = name child /\ content merged = content child
  /\ extends merged = Absent
  /\ read (variables merged)
     = Some (orEmptyList (variables parent) ++ orEmptyList (variables child))%list
  /\ forall k,
      (In k (map fst (orEmptyList (metadata child))) ->
       getProp (orEmptyList (metadata merged)) k = getProp (orEmptyList (metadata child)) k)
      /\ (~ In k (map fst (orEmptyList (metadata child))) ->
          getProp (orEmptyList (metadata merged)) k
          = getProp (orEmptyList (metadata parent)) k).
Proof.
  intros Hnd merged. subst merged.
  cbn [mergeTemplates id name content extends variables metadata read].
  repeat split; try reflexivity.
  - now destruct (negb (content child =? "")).
  - intros H. unfold orEmptyList at 1. cbn [read].
    rewrite ObjectFacts.getProp_spread.
    now apply ObjectFacts.hasOwn_In in H as ->.
  - intros H. unfold orEmptyList at 1. cbn [read].
    rewrite ObjectFacts.getProp_spread.
    destruct (hasOwn _ k) eqn:E; [|reflexivity].
    apply ObjectFacts.hasOwn_In in E. contradiction.
Qed.

Lemma merge_combines_variables_and_metadata_witness :
  let merged := mergeTemplates RegistrySamples.taggedBase RegistrySamples.taggedChild in
  id merged = id RegistrySamples.taggedChild
  /\ name merged = name RegistrySamples.taggedChild
  /\ content merged = content RegistrySamples.taggedChild
  /\ extends merged = Absent
  /\ read (variables merged)
     = Some (orEmptyList (variables RegistrySamples.taggedBase)
             ++ orEmptyList (variables RegistrySamples.taggedChild))%list
  /\ forall k,
      (In k (map fst (orEmptyList (metadata RegistrySamples.taggedChild))) ->
       getProp (orEmptyList (metadata merged)) k
       = getProp (orEmptyList (metadata RegistrySamples.taggedChild)) k)
      /\ (~ In k (map fst (orEmptyList (metadata RegistrySamples.taggedChild))) ->
          getProp (orEmptyList (metadata merged)) k
          = getProp (orEmptyList (metadata RegistrySamples.taggedBase)) k).
Proof.
  apply (merge_combines_variables_and_metadata
           RegistrySamples.taggedBase RegistrySamples.taggedChild).
  repeat constructor. intros [].
Defined.

End RegistryBehaviour.

(* ===================================================================== *)
(** * Context validation: validity, errors, warnings *)
(* ===================================================================== *)

Module ValidationBehaviour.
Import Str JS Types PromptConstructor Samples ValidationProperties ObjectFacts.

Lemma validateVariableType_None_iff (name : string) (v : found) (expectedType : string) :
  validateVariableType name v expectedType = None <-> typeName v = expectedType.
Proof.
  split; [|apply validateVariableType_match].
  intros H. destruct (String.eqb_spec (typeName v) expectedType) as [|Hne]; [assumption|].
  rewrite (validateVariableType_mismatch _ _ _ Hne) in H. discriminate.
Qed.

(** what [validateContext] accepts for one declared variable *)
Lemma checkVariables_nil_iff (vars : list IVariable) (variables : object) :
  checkVariables vars variables = []
  <-> forall v, In v vars ->
        (isNullish (getProp variables (var_name v)) = true -> var_required v <> Some true)
        /\ (isNullish (getProp variables (var_name v)) = false ->
            typeName (getProp variables (var_name v)) = var_type v).
Proof.
  induction vars as [|x vars IH]; cbn [checkVariables]; [simpl; tauto|].
  destruct (isNullish (getProp variables (var_name x))) eqn:En.
  - destruct (var_required x) as [[|]|] eqn:Er; cbn [andb negb].
    + split; [discriminate|]. intros H. destruct (H x (or_introl eq_refl)) as [H1 _].
      now elim (H1 En).
    + rewrite IH. split.
      * intros H v [<-|Hv]; [|now apply H]. rewrite En, Er. split; [discriminate|discriminate].
      * intros H v Hv. apply H. now right.
    + rewrite IH. split.
      * intros H v [<-|Hv]; [|now apply H]. rewrite En, Er. split; [discriminate|discriminate].
      * intros H v Hv. apply H. now right.
  - rewrite andb_false_r. cbn [negb].
    destruct (validateVariableType (var_name x) (getProp variables (var_name x)) (var_type x))
      as [e|] eqn:Et.
    + split; [discriminate|]. intros H. destruct (H x (or_introl eq_refl)) as [_ H2].
      rewrite En in H2. specialize (H2 eq_refl).
      apply validateVariableType_None_iff with (name := var_name x) in H2. congruence.
    + apply validateVariableType_None_iff in Et. rewrite IH. split.
      * intros H v [<-|Hv]; [|now apply H]. rewrite En. split; [discriminate | auto].
      * intros H v Hv. apply H. now right.
Qed.

(** X14.  A context is valid for a template exactly when every declared
    variable either has a value of the declared kind, or has no value (null
    or undefined) and is not required.  The value is what
    [context.variables[name]] reads: for a name that the context does not
    define it is the member of [Object.prototype] of that name, if there is
    one.  Keys that are not declared play no part. *)
Theorem validateContext_valid_iff
        (template : IPromptTemplate) (context : IPromptContext) (vars : list IVariable) :
  read (variables template) = Some vars ->
  valid (validateContext template context) = true
  <-> forall v, In v vars ->
        let value := getProp (ctx_variables context) (var_name v) in
        (isNullish value = true -> var_required v <> Some true)
        /\ (isNullish value = false -> typeName value = var_type v).
Proof.
  intros Hvars. unfold validateContext. rewrite Hvars. cbn [valid].
  rewrite <- checkVariables_nil_iff.
  destruct (checkVariables vars (ctx_variables context)); simpl; split; congruence.
Qed.

Lemma validateContext_valid_iff_witness :
  valid (validateContext (templateWith [variable "age" "number"] "Age: {{age}}")
                         (contextOf [("age", VNum 30); ("extra", VStr "x")])) = true
  <-> forall v, In v [variable "age" "number"] ->
        let value := getProp (ctx_variables (contextOf [("age", VNum 30); ("extra", VStr "x")]))
                             (var_name v) in
        (isNullish value = true -> var_required v <> Some true)
        /\ (isNullish value = false -> typeName value = var_type v).
Proof.
  apply (validateContext_valid_iff
           (templateWith [variable "age" "number"] "Age: {{age}}")
           (contextOf [("age", VNum 30); ("extra", VStr "x")])
           [variable "age" "number"]).
  reflexivity.
Defined.

Lemma checkVariables_missing (vars : list IVariable) (variables : object) (v : IVariable) :
  In v vars ->
  var_required v = Some true ->
  isNullish (getProp variables (var_name v)) = true ->
  In {| err_type := missing_variable; message := missingMessage (var_name v) |}
     (checkVariables vars variables).
Proof.
  intros Hin Hreq Hnull. induction vars as [|x vars IH]; [contradiction|].
  cbn [checkVariables]. destruct Hin as [->|Hin].
  - rewrite Hreq, Hnull. now left.
  - specialize (IH Hin).
    destruct (_ && isNullish _); [now right|].
    destruct (negb _); [|exact IH].
    destruct (validateVariableType _ _ _); [now right | exact IH].
Qed.

Lemma checkVariables_sound (vars : list IVariable) (variables : object)
      (e : ITemplateValidationError) :
  In e (checkVariables vars variables) ->
  exists v, In v vars
    /\ ((e = {| err_type := missing_variable; message := missingMessage (var_name v) |}
         /\ var_required v = Some true
         /\ isNullish (getProp variables (var_name v)) = true)
        \/ (e = {| err_type := semantic;
                   message := typeMismatchMessage (var_name v) (var_type v)
                                (typeName (getProp variables (var_name v))) |}
            /\ isNullish (getProp variables (var_name v)) = false
            /\ typeName (getProp variables (var_name v)) <> var_type v)).
Proof.
  induction vars as [|x vars IH]; cbn [checkVariables]; [contradiction|].
  assert (Hrest : In e (checkVariables vars variables) ->
                  exists v, In v (x :: vars) /\ _) by
    (intros H; destruct (IH H) as (v & Hv & Hcase); exists v; split; [now right | exact Hcase]).
  destruct (isNullish (getProp variables (var_name x))) eqn:En.
  - destruct (var_required x) as [[|]|] eqn:Er; cbn [andb negb]; auto.
    intros [<-|H]; [|auto]. exists x. split; [now left|]. left. auto.
  - rewrite andb_false_r. cbn [negb].
    destruct (validateVariableType (var_name x) (getProp variables (var_name x)) (var_type x))
      as [e'|] eqn:Et; auto.
    intros [<-|H]; [|auto]. exists x. split; [now left|]. right.
    destruct (String.eqb_spec (typeName (getProp variables (var_name x))) (var_type x))
      as [Heq|Hne].
    + rewrite (validateVariableType_match _ _ _ Heq) in Et. discriminate.
    + rewrite (validateVariableType_mismatch _ _ _ Hne) in Et. injection Et as <-. auto.
Qed.

(** X15.  Every error of [validateContext] is about a declared variable
    and is one of two: "Required variable ... is missing", for a required
    variable that is null or undefined, or the type mismatch of a value that
    is there.  A required variable without a value is reported so, and the
    context is then not valid.  The value is what [context.variables[name]]
    reads, a member of [Object.prototype] included. *)
Theorem validateContext_errors
        (template : IPromptTemplate) (context : IPromptContext) (vars : list IVariable) :
  read (variables template) = Some vars ->
  (forall v, In v vars -> var_required v = Some true ->
     isNullish (getProp (ctx_variables context) (var_name v)) = true ->
     In {| err_type := missing_variable;
           message := "Required variable '" ++ var_name v ++ "' is missing" |}
        (errors (validateContext template context))
     /\ valid (validateContext template context) = false)
  /\ (forall e, In e (errors (validateContext template context)) ->
        exists v, In v vars
          /\ let value := getProp (ctx_variables context) (var_name v) in
             (e = {| err_type := missing_variable;
                     message := "Required variable '" ++ var_name v ++ "' is missing" |}
              /\ var_required v = Some true /\ isNullish value = true)
             \/ (e = {| err_type := semantic;
                        message := "Variable '" ++ var_name v ++ "' expected type '"
                                     ++ var_type v ++ "' but got '" ++ typeName value ++ "'" |}
                 /\ isNullish value = false /\ typeName value <> var_type v)).
Proof.
  intros Hvars. unfold validateContext. rewrite Hvars. cbn [errors valid]. split.
  - intros v Hin Hreq Hnull.
    pose proof (checkVariables_missing _ _ _ Hin Hreq Hnull) as H. split; [exact H|].
    destruct (checkVariables vars (ctx_variables context)); [contradiction | reflexivity].
  - intros e He. exact (checkVariables_sound _ _ _ He).
Qed.

Lemma validateContext_errors_witness :
  (forall v, In v [variable "age" "number"] -> var_required v = Some true ->
     isNullish (getProp (ctx_variables (contextOf [("age", VNull)])) (var_name v)) = true ->
     In {| err_type := missing_variable;
           message := "Required variable '" ++ var_name v ++ "' is missing" |}
        (errors (validateContext (templateWith [variable "age" "number"] "Age: {{age}}")
                                 (contextOf [("age", VNull)])))
     /\ valid (validateContext (templateWith [variable "age" "number"] "Age: {{age}}")
                               (contextOf [("age", VNull)])) = false)
  /\ (forall e,
        In e (errors (validateContext (templateWith [variable "age" "number"] "Age: {{age}}")
                                      (contextOf [("age", VNull)]))) ->
        exists v, In v [variable "age" "number"]
          /\ let value := getProp (ctx_variables (contextOf [("age", VNull)])) (var_name v) in
             (e = {| err_type := missing_variable;
                     message := "Required variable '" ++ var_name v ++ "' is missing" |}
              /\ var_required v = Some true /\ isNullish value = true)
             \/ (e = {| err_type := semantic;
                        message := "Variable '" ++ var_name v ++ "' expected type '"
                                     ++ var_type v ++ "' but got '" ++ typeName value ++ "'" |}
                 /\ isNullish value = false /\ typeName value <> var_type v)).
Proof.
  apply (validateContext_errors
           (templateWith [variable "age" "number"] "Age: {{age}}")
           (contextOf [("age", VNull)]) [variable "age" "number"]).
  reflexivity.
Defined.

(** a declared variable named as a member of [Object.prototype] has a
    value in every context: the function is there, and it is no string *)
Example inherited_member_is_validated :
  validateContext
    (templateWith [ {| var_name := "toString"; var_type := "string";
                       var_required := None; var_default := None;
                       var_description := None |} ] "{{toString}}")
    (contextOf [])
  = {| valid := false;
       errors := [ {| err_type := semantic;
                      message := "Variable 'toString' expected type 'string' but got 'function'" |} ];
       warnings := [] |}.
Proof. vm_compute. reflexivity. Qed.

Lemma append_cancel_r (a b c : string) : a ++ c = b ++ c -> a = b.
Proof.
  revert b. induction a as [|x a IH]; intros [|y b] H; cbn [append] in H.
  - reflexivity.
  - apply (f_equal String.length) in H. cbn [String.length] in H.
    rewrite StrFacts.length_append in H. lia.
  - apply (f_equal String.length) in H. cbn [String.length] in H.
    rewrite StrFacts.length_append in H. lia.
  - injection H as -> H. now rewrite (IH _ H).
Qed.

Lemma checkEntries_filter (vars : list IVariable) (entries : object) :
  checkEntries vars entries
  = map (fun kv => {| err_type := semantic; message := notDeclaredMessage (fst kv) |})
        (filter (fun kv => negb (existsb (fun v => var_name v =? fst kv) vars)
                           && negb (isUndefined (snd kv)))
                entries).
Proof.
  induction entries as [|[n x] entries IH]; cbn [checkEntries filter fst snd]; [reflexivity|].
  destruct (negb _ && negb _); cbn [map fst]; now rewrite IH.
Qed.

Lemma NoDup_filter_keys (A : Type) (p : string * A -> bool) (l : list (string * A)) :
  NoDup (map fst l) -> NoDup (map fst (filter p l)).
Proof.
  induction l as [|x l IH]; cbn [map filter]; intros H; [constructor|].
  inversion H as [|? ? Hnot Hnd]; subst.
  destruct (p x); cbn [map]; [|auto].
  constructor; [|auto]. intros Hin. apply Hnot.
  apply in_map_iff in Hin as (y & Hy & Hin). apply filter_In in Hin as [Hin _].
  rewrite <- Hy. now apply in_map.
Qed.

(** X16.  The warnings of [validateContext] are, in the order of
    [Object.entries(context.variables)], one "Variable ... is not defined in
    template but provided in context" for each own key that no declared
    variable names and whose value is not undefined: no warning occurs twice.
    [Object.entries] lists every own property once, with its value. *)
Theorem validateContext_warnings
        (template : IPromptTemplate) (context : IPromptContext) (vars : list IVariable) :
  read (variables template) = Some vars ->
  warnings (validateContext template context)
  = map (fun kv =>
           {| err_type := semantic;
              message := "Variable '" ++ fst kv
                           ++ "' is not defined in template but provided in context" |})
        (filter (fun kv => negb (existsb (fun v => var_name v =? fst kv) vars)
                           && negb (isUndefined (snd kv)))
                (ownEntries (ctx_variables context)))
  /\ NoDup (warnings (validateContext template context))
  /\ NoDup (map fst (ownEntries (ctx_variables context)))
  /\ forall name value,
       In (name, value) (ownEntries (ctx_variables context))
       <-> hasOwn (ctx_variables context) name = true
           /\ getProp (ctx_variables context) name = Data value.
Proof.
  intros Hvars. unfold validateContext. rewrite Hvars. cbn [warnings].
  split; [apply checkEntries_filter|].
  split; [|split; [apply ownEntries_NoDup | apply ownEntries_In]].
  rewrite checkEntries_filter.
  pose proof (NoDup_filter_keys _
                (fun kv => negb (existsb (fun v => var_name v =? fst kv) vars)
                           && negb (isUndefined (snd kv)))
                _ (ownEntries_NoDup _ (ctx_variables context))) as Hnd.
  revert Hnd. generalize (filter (fun kv => negb (existsb (fun v => var_name v =? fst kv) vars)
                                            && negb (isUndefined (snd kv)))
                                 (ownEntries (ctx_variables context))).
  intros l. induction l as [|kv l IH]; cbn [map]; intros Hnd; [constructor|].
  inversion Hnd as [|? ? Hnot Hnd']; subst. constructor; [|auto].
  intros Hin. apply Hnot. apply in_map_iff in Hin as (kv' & Heq & Hin).
  injection Heq as Heq. apply append_cancel_r in Heq.
  rewrite <- Heq. now apply in_map.
Qed.

Lemma validateContext_warnings_witness :
  warnings (validateContext (templateWith [variable "age" "number"] "Age: {{age}}")
                            (contextOf [("extra", VStr "x"); ("age", VNum 30); ("7", VNull)]))
  = map (fun kv =>
           {| err_type := semantic;
              message := "Variable '" ++ fst kv
                           ++ "' is not defined in template but provided in context" |})
        (filter (fun kv => negb (existsb (fun v => var_name v =? fst kv)
                                         [variable "age" "number"])
                           && negb (isUndefined (snd kv)))
                (ownEntries (ctx_variables
                               (contextOf [("extra", VStr "x"); ("age", VNum 30);
                                           ("7", VNull)]))))
  /\ NoDup (warnings (validateContext
                        (templateWith [variable "age" "number"] "Age: {{age}}")
                        (contextOf [("extra", VStr "x"); ("age", VNum 30); ("7", VNull)])))
  /\ NoDup (map fst (ownEntries (ctx_variables
                                   (contextOf [("extra", VStr "x"); ("age", VNum 30);
                                               ("7", VNull)]))))
  /\ forall name value,
       In (name, value)
          (ownEntries (ctx_variables
                         (contextOf [("extra", VStr "x"); ("age", VNum 30); ("7", VNull)])))
       <-> hasOwn (ctx_variables
                     (contextOf [("extra", VStr "x"); ("age", VNum 30); ("7", VNull)])) name
           = true
           /\ getProp (ctx_variables
                         (contextOf [("extra", VStr "x"); ("age", VNum 30); ("7", VNull)]))
                      name = Data value.
Proof.
  apply (validateContext_warnings
           (templateWith [variable "age" "number"] "Age: {{age}}")
           (contextOf [("extra", VStr "x"); ("age", VNum 30); ("7", VNull)])
           [variable "age" "number"]).
  reflexivity.
Defined.

(** the key [7] is an array index and comes first *)
Example validateContext_warnings_order :
  map message
      (warnings (validateContext
                   (templateWith [variable "age" "number"] "Age: {{age}}")
                   (contextOf [("extra", VStr "x"); ("age", VNum 30); ("7", VNull)])))
  = [ "Variable '7' is not defined in template but provided in context";
      "Variable 'extra' is not defined in template but provided in context" ].
Proof. vm_compute. reflexivity. Qed.

End ValidationBehaviour.

(* ===================================================================== *)
(** * Facts about bodies and blocks *)
(* ===================================================================== *)

Module SubstitutionFacts.
Import Str JS Regex Types PromptConstructor SimpleBody Substitution.
Import StrFacts RegexFacts InterpolationFacts InterpolationProperties.

Lemma replaceWith_keeps_log (C : Type) (callback : string -> C -> M string)
      (t : string) (l : list (segment C)) (r : string) (log : list string) :
  replaceWith callback l = Some (Normal r, log) ->
  replaceWith callback (keeps C t ++ l)%list = Some (Normal (t ++ r), log).
Proof.
  intros H. induction t as [|c t IH]; simpl; [exact H|].
  rewrite IH. simpl. now rewrite app_nil_r.
Qed.

(** the simple stage on a body of texts and references whose values are
    formatted *)
Lemma substituteSimple_pieces (variables : object) (ps : list piece) :
  wellFormed ps = true -> plainValues variables ps = true ->
  substituteSimple (render ps) variables
  = Some (Normal (substituted variables ps), warningsOf variables ps).
Proof.
  unfold substituteSimple, replace, scan.
  induction ps as [|[t|n] ps IH]; intros W P; [reflexivity| |];
    cbn [wellFormed plainValues forallb wellFormedPiece] in W, P;
    apply andb_true_iff in W as [W1 W]; apply andb_true_iff in P as [P1 P];
    cbn [render substituted warningsOf].
  - rewrite scanFrom_keep_prefix.
    + apply replaceWith_keeps_log. now apply IH.
    + intros pre s' E Hne. eapply simpleRegex_fails_in_plain_text; eauto.
  - apply andb_true_iff in W1 as [Hne Hn].
    assert (Hne' : n <> "") by (intros ->; discriminate).
    unfold noBrace in Hn. apply andb_true_iff in Hn as [_ Hn].
    apply negb_true_iff, hasChar_false_allIn in Hn.
    replace ("{{" ++ n ++ "}}" ++ render ps) with (("{{" ++ n ++ "}}") ++ render ps)
      by (simpl; now rewrite !append_assoc).
    rewrite (scanFrom_hit_first _ simpleRegex ("{{" ++ n ++ "}}") (render ps) n);
      [|discriminate | now apply simpleRegex_complete].
    cbn [replaceWith]. rewrite (IH W P).
    destruct (isNullish (getProp variables (trim n))) eqn:Ev.
    + rewrite (simpleCallback_unresolved _ _ _ Ev). cbv [bind ret].
      cbn [app]. now rewrite app_nil_r.
    + cbn [orb] in P1. apply plainText_formatted in P1 as [P1 _].
      rewrite (simpleCallback_resolved _ _ _ Ev), P1. cbv [bind ret eval].
      cbn [app]. now rewrite app_nil_r.
Qed.

(** ** Where a directive can start *)

Lemma append_split (a c pre b : string) :
  a ++ c = pre ++ b ->
  (exists a2, a = pre ++ a2 /\ b = a2 ++ c) \/ (exists p2, pre = a ++ p2 /\ c = p2 ++ b).
Proof.
  revert pre. induction a as [|x a IH]; intros pre H.
  - right. exists pre. auto.
  - destruct pre as [|y pre].
    + left. exists (String x a). auto.
    + simpl in H. injection H as -> H. destruct (IH _ H) as [(a2 & -> & ->)|(p2 & -> & ->)].
      * left. exists a2. auto.
      * right. exists p2. auto.
Qed.

Lemma startsNowhere_nil (x : string) : startsNowhere x "".
Proof.
  intros pre b rest H Hb. destruct pre; [simpl in H; congruence | discriminate].
Qed.

Lemma startsNowhere_app (x a c : string) :
  startsNowhere x a -> startsNowhere x c -> startsNowhere x (a ++ c).
Proof.
  intros Ha Hc pre b rest H Hb.
  destruct (append_split _ _ _ _ H) as [(a2 & -> & ->)|(p2 & -> & ->)].
  - destruct a2 as [|y a2].
    + simpl in *. apply (Hc "" c rest eq_refl Hb).
    + rewrite append_assoc. apply (Ha pre (String y a2) (c ++ rest) eq_refl). discriminate.
  - apply (Hc p2 b rest eq_refl Hb).
Qed.

Lemma startsNowhere_text (y t : string) :
  hasChar "{" t = false -> startsNowhere (String "{" y) t.
Proof.
  intros Ht pre b rest -> Hb. destruct b as [|c b]; [congruence|].
  rewrite hasChar_append in Ht. apply orb_false_iff in Ht as [_ Ht].
  cbn [hasChar] in Ht. apply orb_false_iff in Ht as [Hc _].
  cbn [append startsWith]. now rewrite Hc.
Qed.

(** a reference [{{n}}] is no start of [{{c...] when [n] does not start with
    [c] *)
Lemma startsNowhere_token (c : ascii) (y n : string) :
  n <> "" -> noBrace n = true ->
  match n with String d _ => Ascii.eqb c d | EmptyString => false end = false ->
  startsNowhere (String "{" (String "{" (String c y))) ("{{" ++ n ++ "}}").
Proof.
  intros Hne Hn Hc pre b rest H Hb.
  unfold noBrace in Hn. apply andb_true_iff in Hn as [Ho Hcl].
  apply negb_true_iff in Ho. apply negb_true_iff in Hcl.
  destruct n as [|d n]; [congruence|].
  cbn [hasChar] in Ho. apply orb_false_iff in Ho as [Hd Ho].
  destruct pre as [|p1 pre].
  { simpl in H. subst b. cbn [append startsWith]. rewrite !Ascii.eqb_refl, Hc. reflexivity. }
  simpl in H. injection H as <- H.
  destruct pre as [|p2 pre].
  { simpl in H. subst b. cbn [append startsWith]. rewrite Ascii.eqb_refl, Hd. reflexivity. }
  simpl in H. injection H as <- H.
  change (String d (n ++ "}}")) with (String d n ++ "}}") in H.
  destruct (append_split _ _ _ _ H) as [(a2 & Hn2 & ->)|(p3 & -> & Hrest)].
  - destruct a2 as [|e a2].
    + cbn [append startsWith]. reflexivity.
    + assert (He : Ascii.eqb "{" e = false).
      { assert (hasChar "{" (String d n) = false) as Hall
            by (cbn [hasChar]; now rewrite Hd, Ho).
        rewrite Hn2, hasChar_append in Hall. apply orb_false_iff in Hall as [_ Hall].
        cbn [hasChar] in Hall. now apply orb_false_iff in Hall as [He _]. }
      cbn [append startsWith]. now rewrite He.
  - destruct b as [|e b]; [congruence|].
    assert (e = "}"%char) as ->.
    { destruct p3 as [|q1 [|q2 p3]]; simpl in Hrest; inversion Hrest as [[H1 H2]];
        try reflexivity.
      destruct p3; discriminate. }
    reflexivity.
Qed.

Lemma startsNowhere_includes (x s : string) :
  x <> "" -> startsNowhere x s -> includes x s = false.
Proof.
  intros Hx. induction s as [|c s IH]; intros H.
  - destruct x; [congruence | reflexivity].
  - cbn [includes]. apply orb_false_iff. split.
    + rewrite <- (append_nil_r (String c s)). apply (H "" (String c s) ""); [reflexivity|].
      discriminate.
    + apply IH. intros pre b rest -> Hb. apply (H (String c pre) b rest); auto.
Qed.

(** the first code unit of a name that is no directive is neither [#] nor [/] *)
Lemma simple_name_start (n : string) :
  isDirectiveName n = false ->
  match n with String d _ => Ascii.eqb "#" d | EmptyString => false end = false
  /\ match n with String d _ => Ascii.eqb "/" d | EmptyString => false end = false.
Proof.
  destruct n as [|d n]; [auto|]. unfold isDirectiveName, trim. cbn [trimStart].
  destruct (isSpace d) eqn:Es.
  - intros _. split.
    + destruct (Ascii.eqb_spec "#" d) as [<-|]; [discriminate | reflexivity].
    + destruct (Ascii.eqb_spec "/" d) as [<-|]; [discriminate | reflexivity].
  - cbn [trimEnd]. rewrite Es. cbn [andb]. intros H.
    apply orb_false_iff in H as [H1 H2].
    rewrite Ascii.eqb_sym in H1. rewrite Ascii.eqb_sym in H2. auto.
Qed.

Lemma wellFormed_resolvedPieces (variables : object) (ps : list piece) :
  wellFormed ps = true -> plainValues variables ps = true ->
  wellFormed (resolvedPieces variables ps) = true.
Proof.
  unfold wellFormed, plainValues, resolvedPieces.
  induction ps as [|[t|n] ps IH]; intros W P; [reflexivity| |];
    cbn [forallb wellFormedPiece map] in *;
    apply andb_true_iff in W as [W1 W]; apply andb_true_iff in P as [P1 P];
    rewrite (IH W P), andb_true_r.
  - exact W1.
  - destruct (isNullish (getProp variables (trim n))); cbn [wellFormedPiece orb] in *; auto.
    now apply plainText_formatted in P1.
Qed.

Lemma simpleOnly_resolvedPieces (variables : object) (ps : list piece) :
  simpleOnly ps = true -> simpleOnly (resolvedPieces variables ps) = true.
Proof.
  unfold simpleOnly, resolvedPieces.
  induction ps as [|[t|n] ps IH]; intros S; [reflexivity| |];
    cbn [forallb map] in *.
  - exact (IH S).
  - apply andb_true_iff in S as [S1 S].
    destruct (isNullish (getProp variables (trim n))); cbn [forallb].
    + rewrite S1. exact (IH S).
    + exact (IH S).
Qed.

Lemma render_resolvedPieces (variables : object) (ps : list piece) :
  render (resolvedPieces variables ps) = substituted variables ps.
Proof.
  unfold resolvedPieces.
  induction ps as [|[t|n] ps IH]; cbn [map render substituted];
    [reflexivity | now rewrite IH|].
  destruct (isNullish (getProp variables (trim n))); cbn [render]; rewrite IH;
    [|reflexivity].
  simpl. now rewrite !append_assoc.
Qed.

(** no directive starts inside a body of texts and simple references *)
Lemma startsNowhere_render (c : ascii) (y : string) (ps : list piece) :
  c = "#"%char \/ c = "/"%char ->
  wellFormed ps = true -> simpleOnly ps = true ->
  startsNowhere (String "{" (String "{" (String c y))) (render ps).
Proof.
  intros Hc. induction ps as [|[t|n] ps IH]; intros W S; cbn [render].
  - apply startsNowhere_nil.
  - cbn [wellFormed forallb wellFormedPiece simpleOnly] in W, S.
    apply andb_true_iff in W as [W1 W].
    apply startsNowhere_app; [|now apply IH].
    apply startsNowhere_text. unfold noBrace in W1.
    apply andb_true_iff in W1 as [W1 _]. now apply negb_true_iff in W1.
  - cbn [wellFormed forallb wellFormedPiece simpleOnly] in W, S.
    apply andb_true_iff in W as [W1 W]. apply andb_true_iff in S as [S1 S].
    apply andb_true_iff in W1 as [Hne Hn]. apply negb_true_iff in S1.
    replace ("{{" ++ n ++ "}}" ++ render ps) with (("{{" ++ n ++ "}}") ++ render ps)
      by (simpl; now rewrite !append_assoc).
    apply startsNowhere_app; [|now apply IH].
    apply startsNowhere_token; auto.
    + intros ->. discriminate.
    + destruct (simple_name_start n S1) as [H1 H2]. destruct Hc as [->| ->]; auto.
Qed.

Lemma startsNowhere_substituted (c : ascii) (y : string) (variables : object)
      (ps : list piece) :
  c = "#"%char \/ c = "/"%char ->
  wellFormed ps = true -> simpleOnly ps = true -> plainValues variables ps = true ->
  startsNowhere (String "{" (String "{" (String c y))) (substituted variables ps).
Proof.
  intros Hc W S P. rewrite <- render_resolvedPieces.
  apply startsNowhere_render; auto.
  - now apply wellFormed_resolvedPieces.
  - now apply simpleOnly_resolvedPieces.
Qed.

(** the simple stage and the whole engine agree on such a body *)
Lemma interpolate_pieces (fuel : nat) (variables : object) (ps : list piece) :
  wellFormed ps = true -> simpleOnly ps = true -> plainValues variables ps = true ->
  interpolateVariables (S fuel) (render ps) variables
  = Some (Normal (substituted variables ps), warningsOf variables ps).
Proof.
  intros W S P. apply interpolate_no_block.
  - now apply substituteSimple_pieces.
  - apply startsNowhere_includes; [discriminate|].
    apply (startsNowhere_substituted "#" ""); auto.
Qed.

End SubstitutionFacts.

Module BlockFacts.
Import Str JS Regex Types PromptConstructor SimpleBody Substitution Blocks.
Import StrFacts RegexFacts InterpolationFacts InterpolationProperties SubstitutionFacts.


(** ** trim *)






(** ** The pattern of a block *)








(** ** Bodies *)












End BlockFacts.

(* ===================================================================== *)
(** * The interpolation engine: plain text, simple bodies, blocks *)
(* ===================================================================== *)

Module InterpolationBehaviour.
Import Str JS Regex Types PromptConstructor SimpleBody Substitution Blocks EqualityBlocks.
Import Samples.
Import StrFacts RegexFacts InterpolationFacts InterpolationProperties.
Import SubstitutionFacts BlockFacts.

Lemma includes_longer (a b s : string) :
  includes a s = false -> includes (a ++ b) s = false.
Proof.
  induction s as [|c s IH]; cbn [includes]; intros H; apply orb_false_iff in H as [H1 H2].
  - now rewrite startsWith_append_false.
  - rewrite startsWith_append_false by exact H1. now apply IH.
Qed.

(** X17.  A text in which no two opening braces follow each other is
    returned as it is, with no warning, whatever the context holds: single
    braces, as those of JSON or of code, are no placeholders. *)
Theorem text_without_double_brace_is_unchanged
        (fuel : nat) (content : string) (variables : object) :
  includes "{{" content = false ->
  interpolateVariables (S fuel) content variables = Some (Normal content, []).
Proof.
  intros H. apply interpolate_no_block.
  - apply replace_no_match. intros pre s' ->. apply lit_fails.
    now apply (includes_false_suffix _ pre).
  - exact (includes_longer "{{" "#" content H).
Qed.

Lemma text_without_double_brace_is_unchanged_witness :
  interpolateVariables 1 "{ x: 1 } and }} too" [("x", VNum 2)]
  = Some (Normal "{ x: 1 } and }} too", []).
Proof.
  apply (text_without_double_brace_is_unchanged 0 "{ x: 1 } and }} too" [("x", VNum 2)]).
  reflexivity.
Defined.

(** X18.  For a body in which braces occur only as the delimiters of
    simple references, and a context whose values are formatted without a
    brace, the engine returns, at any call depth: it replaces each reference
    that has a value by the formatted value and keeps every other reference
    as it stands; it logs one "is undefined during interpolation" warning for
    each reference it keeps, in the order of the body, and nothing else.  The
    value of a reference is what [variables[name]] reads, a member of
    [Object.prototype] included. *)
Theorem simple_body_is_substituted
        (fuel : nat) (ps : list piece) (variables : object) :
  wellFormed ps = true -> simpleOnly ps = true -> plainValues variables ps = true ->
  interpolateVariables (S fuel) (render ps) variables
  = Some (Normal (substituted variables ps), warningsOf variables ps).
Proof.
  intros W So P. rewrite interpolateVariables_unfold.
  rewrite (substituteSimple_pieces variables ps W P). cbn [bind].
  rewrite processBlocks_no_block.
  - cbn [ret]. now rewrite app_nil_r.
  - apply startsNowhere_includes; [discriminate|].
    apply (startsNowhere_substituted "#" ""); auto.
Qed.

Lemma simple_body_is_substituted_witness :
  interpolateVariables 1 (render helloBody) [("name", VStr "John")]
  = Some (Normal "Hello John, you are {{ age }} years old!",
          ["Variable 'age' is undefined during interpolation"]).
Proof.
  apply (simple_body_is_substituted 0 helloBody [("name", VStr "John")]); reflexivity.
Defined.





(** ** A block is no block of another kind *)




(** ** The loop *)


Lemma join_empty_cons (x : string) (l : list string) : join "" (x :: l) = x ++ join "" l.
Proof.
  unfold join. destruct l as [|y l]; cbn [String.concat]; [now rewrite append_nil_r|].
  reflexivity.
Qed.

















(** what the two cases amount to: a number against its digits, the
    prototype against the text of [Object.prototype.toString], and an object
    with an own [toString] *)
Example equality_block_samples :
  option_map fst (interpolateVariables 2 (equalsBlock "count" "5" "five")
                                       [("count", VNum 5)])
  = Some (Normal "five")
  /\ option_map fst (interpolateVariables 2 (equalsBlock "__proto__" "[object Object]" "hit")
                                          [])
     = Some (Normal "hit")
  /\ option_map fst (interpolateVariables 2 (equalsBlock "o" "x" "hit")
                                          [("o", VObj [("toString", VStr "x")])])
     = Some (Thrown CannotConvertToPrimitive).
Proof. repeat split; vm_compute; reflexivity. Qed.

Lemma length_zero_empty (s : string) : (String.length s =? 0)%nat = (s =? "").
Proof. destruct s; reflexivity. Qed.

(** X22.  The truthiness that [{{#if}}] tests is that of JavaScript but for
    three values: the empty list counts as false, and NaN and the BigInt zero
    count as true.  This holds of every value that a variable can be read as:
    data, and the functions of [Object.prototype]. *)
Theorem isTruthy_and_truthiness (v : found) :
  isTruthy v = match v with
               | Data (VArr []) => false
               | Data VNaN => true
               | Data (VBigInt 0) => true
               | _ => toBoolean v
               end.
Proof.
  destruct v as [[| |b|n| |s|l|o|n]|f]; cbn [isTruthy toBoolean]; try reflexivity.
  - now rewrite length_zero_empty.
  - destruct l; reflexivity.
  - now destruct n.
Qed.

End InterpolationBehaviour.

(* ===================================================================== *)
(** * Construction of prompts from stored templates *)
(* ===================================================================== *)

Module ConstructionBehaviour.
Import Str JS Regex Types PromptConstructor TemplateRegistry RegistryStates Resolution.
Import SimpleBody Substitution Samples RegistrySamples Construction ConstructionSamples.
Import StrFacts RegistryFacts ResolutionFacts InterpolationFacts SubstitutionFacts.
Import ValidationBehaviour.

Lemma promptRegistry_reachable : reachable promptRegistry.
Proof.
  apply reach_register
    with (fuel := 1) (r := success tt) (template := promptChild)
         (reg := {| templates := [("base", promptBase)]; inheritanceCache := [] |});
    [|reflexivity].
  apply reach_register
    with (fuel := 1) (r := success tt) (template := promptBase) (reg := empty);
    [|reflexivity].
  exact reach_empty.
Defined.

(** the resolved template declares the variables of every template on the
    chain *)
Lemma Resolved_variables (ts : jsmap IPromptTemplate) (id0 : string) (r : IPromptTemplate) :
  Resolved ts id0 r ->
  forall a ta v,
    a = id0 \/ Steps ts id0 a ->
    mapGet ts a = Some ta ->
    In v (orEmptyList (variables ta)) ->
    In v (orEmptyList (variables r)).
Proof.
  induction 1 as [id0 t Hget Hext|id0 t p Hget Hext _ IH]; intros a ta v Ha Hta Hv.
  - destruct Ha as [->|Hs]; [congruence|].
    inversion Hs as [? ? (t' & Ht & He & Hb)|? ? ? (t' & Ht & He & Hb)]; congruence.
  - cbn [mergeTemplates variables]. unfold orEmptyList at 1. cbn [read].
    apply in_or_app. destruct Ha as [->|Hs].
    + right. congruence.
    + left. apply (IH a ta v); auto.
      inversion Hs as [? ? (t' & Ht & He & Hb)|? b ? (t' & Ht & He & Hb) Hrest]; subst;
        assert (t' = t) by congruence; subst t'; auto.
Qed.

Lemma Resolved_fields (ts : jsmap IPromptTemplate) (id0 : string) (r t : IPromptTemplate) :
  Resolved ts id0 r -> mapGet ts id0 = Some t ->
  id r = id t /\ content r = content t.
Proof.
  intros Hr Ht. destruct Hr as [id0 t' Hget Hext|id0 t' p Hget Hext _];
    assert (t' = t) by congruence; subst t'; [auto|].
  cbn [mergeTemplates id content]. split; [reflexivity|].
  now destruct (negb (content t =? "")).
Qed.

(** X23.  The template that [getResolved] returns declares every variable
    of the stored template and of every template it extends, directly or
    through others. *)
Theorem resolved_template_inherits_variables
        (fuel : nat) (reg reg' : Registry) (id0 a : string) (r ta : IPromptTemplate)
        (v : IVariable) :
  reachable reg ->
  getResolved fuel reg id0 = Some (success r, reg') ->
  a = id0 \/ Steps (templates reg) id0 a ->
  get reg a = success ta ->
  In v (orEmptyList (variables ta)) ->
  In v (orEmptyList (variables r)).
Proof.
  intros Hreach H Ha Hta Hv.
  destruct (getResolved_coherent _ _ _ _ _ (reachable_coherent reg Hreach) H) as [Hr _].
  apply (Resolved_variables _ _ _ Hr a ta v Ha); [|exact Hv].
  unfold get in Hta. destruct (mapGet (templates reg) a); [|discriminate].
  now injection Hta as ->.
Qed.

Lemma resolved_template_inherits_variables_witness :
  In (variable "title" "string")
     (orEmptyList (variables (mergeTemplates promptBase promptChild))).
Proof.
  apply (resolved_template_inherits_variables 2 promptRegistry
           {| templates := templates promptRegistry;
              inheritanceCache := [("base", promptBase);
                                   ("child", mergeTemplates promptBase promptChild)] |}
           "child" "base" (mergeTemplates promptBase promptChild) promptBase
           (variable "title" "string") promptRegistry_reachable).
  - reflexivity.
  - right. apply steps_one. exists promptChild. repeat split. discriminate.
  - reflexivity.
  - left. reflexivity.
Defined.

(** X24.  With [validateVariables] set, [construct] fails when the context
    has no value for a required variable that the template or any template it
    extends declares: the error is "Context validation failed: ..." and names
    the variable, nothing is interpolated and no warning is logged.  A
    variable has no value when [context.variables[name]] reads null or
    undefined; a name of [Object.prototype] always has one. *)
Theorem construct_requires_inherited_variables
        (generateId : string) (now : Z) (estimateTokens : string -> Z)
        (reg : Registry) (id0 a : string) (ta : IPromptTemplate) (v : IVariable)
        (context : IPromptContext) :
  reachable reg ->
  exists_ reg id0 = true ->
  a = id0 \/ Steps (templates reg) id0 a ->
  get reg a = success ta ->
  In v (orEmptyList (variables ta)) ->
  var_required v = Some true ->
  isNullish (getProp (ctx_variables context) (var_name v)) = true ->
  exists n, forall fuel, n <= fuel ->
    exists messages reg',
      construct generateId now estimateTokens fuel reg id0 context validating
      = Some (failure (ValidationFailed messages), [], reg')
      /\ In ("Required variable '" ++ var_name v ++ "' is missing") messages
      /\ constructionErrorMessage (ValidationFailed messages)
         = "Context validation failed: " ++ join ", " messages.
Proof.
  intros Hreach Hhas Ha Hta Hv Hreq Hnull.
  pose proof (reachable_coherent reg Hreach) as Hco.
  destruct (Resolved_exists (templates reg) id0) as (r & Hr); auto.
  { now apply reachable_resolves. }
  { now apply reachable_parentsStored. }
  assert (Hta' : mapGet (templates reg) a = Some ta).
  { unfold get in Hta. destruct (mapGet (templates reg) a); [|discriminate].
    now injection Hta as ->. }
  pose proof (Resolved_variables _ _ _ Hr a ta v Ha Hta' Hv) as Hin.
  destruct reg as [ts cache]. cbn [templates inheritanceCache] in *.
  destruct (Resolved_warm ts cache id0 r Hco Hr) as (n & reg' & Hn).
  exists n. intros fuel Hle.
  exists (map message (errors (validateContext r context))), reg'.
  unfold construct. rewrite (getResolved_mono _ _ _ _ Hn fuel Hle).
  assert (Hvars : exists vars, read (variables r) = Some vars /\ In v vars).
  { unfold orEmptyList in Hin. destruct (read (variables r)) as [vars|]; [eauto|].
    contradiction. }
  destruct Hvars as (vars & Hvars & Hin').
  pose proof (checkVariables_missing vars (ctx_variables context) v Hin' Hreq Hnull)
    as Herr.
  unfold constructFromTemplate, validateContext. rewrite Hvars. cbn [valid errors].
  destruct (checkVariables vars (ctx_variables context)) as [|e es] eqn:E;
    [contradiction|].
  cbn [enabled validating validateVariables andb negb List.length Nat.eqb].
  repeat split.
  change ("Required variable '" ++ var_name v ++ "' is missing")
    with (message {| err_type := missing_variable;
                     message := missingMessage (var_name v) |}).
  now apply in_map.
Qed.

Lemma construct_requires_inherited_variables_witness :
  exists n, forall fuel, n <= fuel ->
    exists messages reg',
      construct "prompt-1" 0 (fun _ => 0%Z) fuel promptRegistry "child"
                (contextOf [("name", VStr "Ann")]) validating
      = Some (failure (ValidationFailed messages), [], reg')
      /\ In ("Required variable '" ++ var_name (variable "title" "string") ++ "' is missing")
            messages
      /\ constructionErrorMessage (ValidationFailed messages)
         = "Context validation failed: " ++ join ", " messages.
Proof.
  apply (construct_requires_inherited_variables "prompt-1" 0 (fun _ => 0%Z)
           promptRegistry "child" "base" promptBase (variable "title" "string")
           (contextOf [("name", VStr "Ann")]) promptRegistry_reachable).
  - reflexivity.
  - right. apply steps_one. exists promptChild. repeat split. discriminate.
  - reflexivity.
  - left. reflexivity.
  - reflexivity.
  - reflexivity.
Defined.

(** X25.  Without validation, [construct] succeeds for every stored
    template whose content holds only simple references, given values that
    are formatted without a brace: the prompt has the substituted content, the
    identifier of the template and the context as it was given, and the
    warnings are those of the references without a value.  The content is that
    of the stored template itself, never that of a template it extends.  The
    value of a reference is what [context.variables[name]] reads, a member of
    [Object.prototype] included. *)
Theorem construct_of_simple_body
        (generateId : string) (now : Z) (estimateTokens : string -> Z)
        (reg : Registry) (id0 : string) (t : IPromptTemplate) (ps : list piece)
        (context : IPromptContext) (options : option IPromptConstructionOptions) :
  reachable reg ->
  get reg id0 = success t ->
  content t = render ps ->
  wellFormed ps = true -> simpleOnly ps = true ->
  plainValues (ctx_variables context) ps = true ->
  enabled options validateVariables = false ->
  exists n, forall fuel, n <= fuel ->
    exists prompt reg',
      construct generateId now estimateTokens fuel reg id0 context options
      = Some (success prompt, warningsOf (ctx_variables context) ps, reg')
      /\ prompt_content prompt = substituted (ctx_variables context) ps
      /\ templateId prompt = id0
      /\ prompt_id prompt = generateId
      /\ prompt_context prompt = context.
Proof.
  intros Hreach Hget Hcontent W So P Hoff.
  pose proof (reachable_coherent reg Hreach) as Hco.
  assert (Ht : mapGet (templates reg) id0 = Some t).
  { unfold get in Hget. destruct (mapGet (templates reg) id0); [|discriminate].
    now injection Hget as ->. }
  destruct (Resolved_exists (templates reg) id0) as (r & Hr).
  { now apply reachable_resolves. }
  { now apply reachable_parentsStored. }
  { unfold mapHas. now rewrite Ht. }
  destruct (Resolved_fields _ _ _ _ Hr Ht) as [Hid Hc].
  destruct (reachable_keyed reg Hreach id0 t (mapGet_In _ _ _ _ Ht)) as (Hkey & _).
  destruct reg as [ts cache]. cbn [templates inheritanceCache] in *.
  destruct (Resolved_warm ts cache id0 r Hco Hr) as (n & reg' & Hn).
  exists (S n). intros fuel Hle. destruct fuel as [|fuel]; [lia|].
  unfold construct. rewrite (getResolved_mono _ _ _ _ Hn (S fuel)) by lia.
  unfold constructFromTemplate. rewrite Hoff. cbn [andb].
  rewrite Hc, Hcontent, (interpolate_pieces fuel _ ps W So P).
  eexists. exists reg'. split; [reflexivity|].
  cbn [prompt_content templateId prompt_id prompt_context]. repeat split; congruence.
Qed.

Lemma construct_of_simple_body_witness :
  exists n, forall fuel, n <= fuel ->
    exists prompt reg',
      construct "prompt-1" 0 (fun _ => 0%Z) fuel promptRegistry "child"
                (contextOf [("name", VStr "Ann")]) None
      = Some (success prompt,
              warningsOf (ctx_variables (contextOf [("name", VStr "Ann")]))
                         [Text "Dear "; Ref "name"; Text ", "; Ref "title"],
              reg')
      /\ prompt_content prompt
         = substituted (ctx_variables (contextOf [("name", VStr "Ann")]))
                       [Text "Dear "; Ref "name"; Text ", "; Ref "title"]
      /\ templateId prompt = "child"
      /\ prompt_id prompt = "prompt-1"
      /\ prompt_context prompt = contextOf [("name", VStr "Ann")].
Proof.
  apply (construct_of_simple_body "prompt-1" 0 (fun _ => 0%Z) promptRegistry "child"
           promptChild [Text "Dear "; Ref "name"; Text ", "; Ref "title"]
           (contextOf [("name", VStr "Ann")]) None promptRegistry_reachable);
    reflexivity.
Defined.

(** an exception of the interpolation is caught and returned as a failure,
    with the warnings logged before it; an inherited function is a value like
    any other *)
Example construct_catches_exception :
  construct "prompt-1" 0 (fun _ => 0%Z) 2
            {| templates := [("t", tagged "t" "T" "{{gone}} {{big}}" Absent [] [])];
               inheritanceCache := [] |}
            "t" (contextOf [("big", VObj [("n", VBigInt 1)])]) None
  = Some (failure (InterpolationFailed CannotSerializeBigInt),
          ["Variable 'gone' is undefined during interpolation"],
          {| templates := [("t", tagged "t" "T" "{{gone}} {{big}}" Absent [] [])];
             inheritanceCache := [("t", tagged "t" "T" "{{gone}} {{big}}" Absent [] [])] |})
  /\ constructionErrorMessage (InterpolationFailed CannotSerializeBigInt)
     = "Do not know how to serialize a BigInt".
Proof. split; vm_compute; reflexivity. Qed.

End ConstructionBehaviour.

(* ===================================================================== *)
(** * The parser: attributes, formats, validation *)
(* ===================================================================== *)

Module ParserBehaviour.
Import Str JS Regex Types PromptConstructor SimpleBody TemplateRegistry XmlTemplateParser.
Import Samples ParserVocabulary.
Import StrFacts RegexFacts InterpolationFacts InterpolationProperties.

(** ** parseAttributes *)

Lemma attributeRegex_sound (s key v rest : string) :
  attributeRegex s = Some ((key, v), rest) ->
  s = (key ++ "=" ++ dq ++ v ++ dq) ++ rest /\ key <> "" /\ v <> "".
Proof.
  unfold attributeRegex. intros H.
  apply plusGreedy_sound in H as (cap & r1 & -> & Hk & _ & H).
  apply lit_sound in H as (r2 & -> & H).
  apply plusGreedy_sound in H as (cap2 & r3 & -> & Hv & _ & H).
  apply lit_sound in H as (r4 & -> & H).
  injection H as <- <- <-. repeat split; auto.
  repeat (rewrite ?append_assoc; cbn [append]). reflexivity.
Qed.

Lemma attributeRegex_complete (key v rest : string) :
  validAttribute (key, v) = true ->
  stopsAt isWord rest = true ->
  attributeRegex ((key ++ "=" ++ dq ++ v ++ dq) ++ rest) = Some ((key, v), rest).
Proof.
  unfold validAttribute. cbn [fst snd]. intros H Hrest.
  apply andb_true_iff in H as [H H4]. apply andb_true_iff in H as [H H3].
  apply andb_true_iff in H as [H1 H2].
  apply negb_true_iff in H1, H3, H4.
  apply String.eqb_neq in H1, H3.
  unfold attributeRegex.
  replace ((key ++ "=" ++ dq ++ v ++ dq) ++ rest)
    with (key ++ ("=" ++ dq) ++ v ++ dq ++ rest)
    by (repeat (rewrite ?append_assoc; cbn [append]); reflexivity).
  apply plusGreedy_complete; auto.
  rewrite lit_complete.
  apply plusGreedy_complete; auto.
  now apply hasChar_false_allIn.
Qed.

Lemma renderAttributes_cons (kv : string * string) (kvs : attributes) :
  renderAttributes (kv :: kvs) = attribute (fst kv) (snd kv) ++ renderAttributes kvs.
Proof.
  unfold renderAttributes. cbn [map]. apply InterpolationBehaviour.join_empty_cons.
Qed.

Lemma renderAttributes_stops (kvs : attributes) :
  stopsAt isWord (renderAttributes kvs) = true.
Proof.
  destruct kvs as [|kv kvs]; [reflexivity|]. rewrite renderAttributes_cons. reflexivity.
Qed.

Lemma hits_attributes (kvs : attributes) :
  forallb validAttribute kvs = true ->
  hits (scanFrom attributeRegex (renderAttributes kvs) 0)
  = map (fun kv => (fst kv ++ "=" ++ dq ++ snd kv ++ dq, kv)) kvs.
Proof.
  induction kvs as [|[k v] kvs IH]; intros H; [reflexivity|].
  cbn [forallb] in H. apply andb_true_iff in H as [Hkv H].
  rewrite renderAttributes_cons. cbn [fst snd map]. unfold attribute.
  replace ((" " ++ k ++ "=" ++ dq ++ v ++ dq) ++ renderAttributes kvs)
    with (String " " ((k ++ "=" ++ dq ++ v ++ dq) ++ renderAttributes kvs))
    by (repeat (rewrite ?append_assoc; cbn [append]); reflexivity).
  cbn [scanFrom].
  change (attributeRegex (String " " ((k ++ "=" ++ dq ++ v ++ dq) ++ renderAttributes kvs)))
    with (@None (string * string * string)).
  cbn [hits].
  rewrite (scanFrom_hit_first _ attributeRegex (k ++ "=" ++ dq ++ v ++ dq)
             (renderAttributes kvs) (k, v)).
  - cbn [hits]. now rewrite (IH H).
  - destruct k; discriminate.
  - apply attributeRegex_complete; [exact Hkv | apply renderAttributes_stops].
Qed.

Lemma attrGet_attrSet (a : attributes) (k v key : string) :
  attrGet (attrSet a k v) key = if k =? key then Some v else attrGet a key.
Proof.
  induction a as [|[k' w] a IH]; cbn [attrSet attrGet]; [reflexivity|].
  destruct (String.eqb_spec k' k) as [->|Hne]; cbn [attrGet].
  - now destruct (k =? key).
  - rewrite IH. destruct (String.eqb_spec k' key) as [->|Hk]; [|reflexivity].
    destruct (String.eqb_spec k key) as [->|_]; [congruence | reflexivity].
Qed.

Lemma attrGet_assignments (kvs : attributes) (key : string) :
  forall acc,
    attrGet (fold_left (fun acc h => attrAssign acc (fst (snd h)) (snd (snd h)))
                       (map (fun kv => (fst kv ++ "=" ++ dq ++ snd kv ++ dq, kv)) kvs)
                       acc) key
    = if key =? "__proto__" then attrGet acc key
      else match lastValue kvs key with
           | Some v => Some v
           | None => attrGet acc key
           end.
Proof.
  induction kvs as [|[k v] kvs IH]; intros acc; cbn [map fold_left fst snd lastValue].
  - now destruct (key =? "__proto__").
  - rewrite IH. unfold attrAssign.
    destruct (key =? "__proto__") eqn:Ekey.
    + apply String.eqb_eq in Ekey.
      destruct (String.eqb_spec k "__proto__") as [Hk|Hk]; [reflexivity|].
      rewrite attrGet_attrSet.
      destruct (String.eqb_spec k key); [congruence | reflexivity].
    + apply String.eqb_neq in Ekey.
      destruct (lastValue kvs key); [reflexivity|].
      destruct (String.eqb_spec k "__proto__") as [Hk|Hk].
      * destruct (String.eqb_spec k key); [congruence | reflexivity].
      * rewrite attrGet_attrSet. now destruct (k =? key).
Qed.

(** X26.  [parseAttributes] reads back what a document writes: for
    attributes whose keys are made of word characters and whose values hold no
    double quote, none of them empty, the record has for each key the value of
    the last attribute of that key, and no property for a key that the text
    does not have.  An attribute named [__proto__] is the exception: it
    leaves no property behind. *)
Theorem parseAttributes_reads_attributes (kvs : attributes) (key : string) :
  forallb validAttribute kvs = true ->
  attrGet (parseAttributes (renderAttributes kvs)) key
  = if key =? "__proto__" then None else lastValue kvs key.
Proof.
  intros Hvalid. unfold parseAttributes, scan.
  rewrite (hits_attributes kvs Hvalid), attrGet_assignments. cbn [attrGet].
  destruct (key =? "__proto__"); [reflexivity|]. now destruct (lastValue kvs key).
Qed.

Lemma parseAttributes_reads_attributes_witness :
  attrGet (parseAttributes
             (renderAttributes [("id", "base"); ("__proto__", "x"); ("id", "other")])) "id"
  = Some "other"
  /\ attrGet (parseAttributes
                (renderAttributes [("id", "base"); ("__proto__", "x"); ("id", "other")]))
             "__proto__"
     = None.
Proof.
  split.
  - apply (parseAttributes_reads_attributes
             [("id", "base"); ("__proto__", "x"); ("id", "other")] "id").
    reflexivity.
  - apply (parseAttributes_reads_attributes
             [("id", "base"); ("__proto__", "x"); ("id", "other")] "__proto__").
    reflexivity.
Defined.

(** ** parse *)

Lemma In_attrSet (a : attributes) (k v j w : string) :
  In (j, w) (attrSet a k v) -> (j = k /\ w = v) \/ In (j, w) a.
Proof.
  induction a as [|[k' u] a IH]; cbn [attrSet].
  - intros [H|[]]. injection H as <- <-. now left.
  - destruct (String.eqb_spec k' k) as [->|Hne].
    + intros [H|H]; [injection H as <- <-; now left | right; now right].
    + intros [H|H]; [right; now left|].
      destruct (IH H) as [?|?]; [now left | right; now right].
Qed.

Lemma attrGet_In (a : attributes) (k v : string) : attrGet a k = Some v -> In (k, v) a.
Proof.
  induction a as [|[k' u] a IH]; cbn [attrGet]; [discriminate|].
  destruct (String.eqb_spec k' k) as [->|Hne].
  - intros H. injection H as ->. now left.
  - intros H. right. auto.
Qed.

(** no attribute is read with an empty value *)
Lemma In_attrAssign (a : attributes) (k v j w : string) :
  In (j, w) (attrAssign a k v) -> (j = k /\ w = v) \/ In (j, w) a.
Proof.
  unfold attrAssign. destruct (k =? "__proto__"); [now right | apply In_attrSet].
Qed.

Lemma parseAttributes_values (s k v : string) :
  attrGet (parseAttributes s) k = Some v -> v <> "".
Proof.
  intros H. apply attrGet_In in H. revert H. unfold parseAttributes.
  assert (Hhits : forall h, In h (hits (scan attributeRegex s)) -> snd (snd h) <> "").
  { intros [t [key val]] Hh. apply hits_In, scanFrom_hit in Hh as (pre & s' & rest & _ & Hrx & _).
    apply attributeRegex_sound in Hrx as (_ & _ & Hv). exact Hv. }
  assert (Hgen : forall (l : list (string * (string * string))) (acc : attributes),
             (forall h, In h l -> snd (snd h) <> "") ->
             (forall j w, In (j, w) acc -> w <> "") ->
             In (k, v) (fold_left (fun acc h => attrAssign acc (fst (snd h)) (snd (snd h)))
                                  l acc) ->
             v <> "").
  { induction l as [|h l IH]; intros acc Hl Hacc Hin; cbn [fold_left] in Hin.
    - exact (Hacc _ _ Hin).
    - apply (IH (attrAssign acc (fst (snd h)) (snd (snd h)))); auto.
      + intros h' Hh'. apply Hl. now right.
      + intros j w Hjw. apply In_attrAssign in Hjw as [[_ ->]|Hjw]; [|eauto].
        apply Hl. now left. }
  apply Hgen; [exact Hhits | intros j w []].
Qed.

Lemma parseXmlContent_fields (parseVariables : string -> list IVariable)
      (content : string) (t : IPromptTemplate) :
  parseXmlContent parseVariables content = Some t ->
  id t <> "" /\ name t <> "" /\ Types.content t <> "".
Proof.
  unfold parseXmlContent.
  destruct (Regex.search rootRegex content) as [attrs|]; [|discriminate].
  destruct (attrGet (parseAttributes attrs) "id") as [i|] eqn:Ei; [|discriminate].
  destruct (attrGet (parseAttributes attrs) "name") as [n|] eqn:En; [|discriminate].
  match goal with |- context [if ?b =? "" then _ else _] => destruct (String.eqb_spec b "") as [|Hc] end;
    [discriminate|].
  intros H. injection H as <-. cbn [id name Types.content]. repeat split.
  - exact (parseAttributes_values _ _ _ Ei).
  - exact (parseAttributes_values _ _ _ En).
  - exact Hc.
Qed.

Lemma register_required_fields (fuel : nat) (reg reg' : Registry) (t : IPromptTemplate)
      (e : RegistryError) :
  id t <> "" -> name t <> "" -> Types.content t <> "" ->
  register fuel reg t = Some (failure e, reg') ->
  e <> IdRequired /\ e <> NameRequired /\ e <> ContentRequired.
Proof.
  intros Hid Hname Hcontent. unfold register.
  apply String.eqb_neq in Hid, Hname, Hcontent. rewrite Hid, Hname, Hcontent.
  destruct (negb (extendsOrEmpty t =? "")).
  - destruct (checkCircularInheritance _ _ _) as [[[]|e0]|] eqn:E; [|intros H|discriminate].
    + destruct (clearInheritanceCache _ _ _ _); discriminate.
    + injection H as <- _. unfold checkCircularInheritance in E.
      pose proof (RegistryBehaviour.checkLoop_failure (templates reg) (id t)
                    (extendsOrEmpty t) _ [] (extendsOrEmpty t) e0
                    (fun v (H : In v []) => match H with end) (or_introl eq_refl) E)
        as Hshape.
      destruct e0; try contradiction; repeat split; discriminate.
  - destruct (clearInheritanceCache _ _ _ _); discriminate.
Qed.

(** X27.  [parse] takes every content for XML when no format is given, and
    fails with "Unsupported format: ..." for any other format whatever the
    content is.  A parse that succeeds returns the content as [raw] and a
    template whose id, name and content are not empty, so that [register]
    never rejects it for a required field. *)
Theorem parse_outcome (parseVariables : string -> list IVariable) (content : string) :
  parse parseVariables content None = parse parseVariables content (Some xml)
  /\ (forall f, f <> xml ->
        parse parseVariables content (Some f) = failure (UnsupportedFormat f)
        /\ parseErrorMessage (UnsupportedFormat f) = "Unsupported format: " ++ formatName f)
  /\ (forall format r,
        parse parseVariables content format = success r ->
        parsed_raw r = content /\ parsed_format r = xml
        /\ id (parsed_template r) <> "" /\ name (parsed_template r) <> ""
        /\ Types.content (parsed_template r) <> ""
        /\ forall fuel reg e reg',
            register fuel reg (parsed_template r) = Some (failure e, reg') ->
            e <> IdRequired /\ e <> NameRequired /\ e <> ContentRequired).
Proof.
  split; [|split].
  - unfold parse, detectFormat. now destruct (_ || _).
  - intros f Hf. split; [|reflexivity]. unfold parse. destruct f; congruence.
  - intros format r H.
    assert (Hp : parseXmlContent parseVariables content = Some (parsed_template r)
                 /\ parsed_raw r = content /\ parsed_format r = xml).
    { unfold parse in H.
      destruct (match format with Some f => f | None => detectFormat content end) eqn:Ef;
        try discriminate.
      destruct (parseXmlContent parseVariables content) as [t|]; [|discriminate].
      injection H as <-. auto. }
    destruct Hp as (Hp & Hraw & Hfmt).
    destruct (parseXmlContent_fields _ _ _ Hp) as (Hid & Hname & Hcontent).
    split; [exact Hraw|]. split; [exact Hfmt|]. split; [exact Hid|].
    split; [exact Hname|]. split; [exact Hcontent|].
    intros fuel reg e reg' Hr.
    exact (register_required_fields _ _ _ _ _ Hid Hname Hcontent Hr).
Qed.

Lemma parse_outcome_witness :
  exists r, parse (fun _ => []) parentXml None = success r
    /\ parsed_raw r = parentXml /\ id (parsed_template r) <> "".
Proof.
  destruct (parse (fun _ => []) parentXml None) as [r|e] eqn:E;
    [|vm_compute in E; discriminate].
  exists r. split; [reflexivity|].
  destruct (parse_outcome (fun _ => []) parentXml) as (_ & _ & H).
  destruct (H None r E) as (Hraw & _ & Hid & _). now split.
Defined.

(** ** validate *)

Lemma variableErrors_nil (v : IVariable) :
  variableErrors v = [] <-> var_name v <> "" /\ var_type v <> "".
Proof.
  unfold variableErrors.
  destruct (String.eqb_spec (var_name v) ""), (String.eqb_spec (var_type v) "");
    cbn [app]; split; try discriminate; try tauto; intros [? ?]; contradiction.
Qed.

Lemma flat_map_nil (A B : Type) (f : A -> list B) (l : list A) :
  flat_map f l = [] <-> forall x, In x l -> f x = [].
Proof.
  induction l as [|a l IH]; cbn [flat_map]; [simpl; tauto|]. split.
  - intros H x [<-|Hx]; apply app_eq_nil in H as [H1 H2]; [exact H1 | now apply IH].
  - intros H. rewrite (H a (or_introl eq_refl)). apply IH. intros x Hx. apply H. now right.
Qed.

(** X28.  [validate] accepts a template exactly when its id, its name and
    its content are not empty and every declared variable has a name and a
    type; warnings play no part. *)
Theorem validate_valid_iff (template : IPromptTemplate) :
  valid (validate template) = true
  <-> id template <> "" /\ name template <> "" /\ content template <> ""
      /\ forall vars, read (variables template) = Some vars ->
           forall v, In v vars -> var_name v <> "" /\ var_type v <> "".
Proof.
  unfold validate. cbn [valid].
  destruct (String.eqb_spec (id template) "") as [Hi|Hi];
    [split; [discriminate | intros (H & _); contradiction]|].
  destruct (String.eqb_spec (name template) "") as [Hn|Hn];
    [split; [discriminate | intros (_ & H & _); contradiction]|].
  destruct (String.eqb_spec (content template) "") as [Hc|Hc];
    [split; [discriminate | intros (_ & _ & H & _); contradiction]|].
  cbn [app]. destruct (read (variables template)) as [vars|].
  - destruct (flat_map variableErrors vars) as [|e es] eqn:E; cbn [List.length Nat.eqb].
    + split; [|reflexivity]. intros _.
      split; [exact Hi|]. split; [exact Hn|]. split; [exact Hc|].
      intros vars' Hv v Hin. injection Hv as <-. apply variableErrors_nil.
      exact (proj1 (flat_map_nil _ _ _ _) E v Hin).
    + split; [discriminate|]. intros (_ & _ & _ & H). exfalso.
      assert (flat_map variableErrors vars = []) as E'.
      { apply flat_map_nil. intros v Hin. apply variableErrors_nil. now apply (H vars). }
      congruence.
  - split; [|reflexivity]. intros _.
    split; [exact Hi|]. split; [exact Hn|]. split; [exact Hc|]. discriminate.
Qed.

(** ** The references of a body *)

Lemma hits_keeps_app (C : Type) (t : string) (l : list (segment C)) :
  hits (keeps C t ++ l)%list = hits l.
Proof. induction t as [|c t IH]; simpl; auto. Qed.

Lemma hits_render (ps : list piece) :
  wellFormed ps = true ->
  forall acc,
    fold_left (fun references h =>
                 if negb (trim (snd h) =? "") then setAdd references (trim (snd h))
                 else references)
              (hits (scanFrom referenceRegex (render ps) 0)) acc
    = fold_left (fun references p =>
                   match p with
                   | Text _ => references
                   | Ref n => if negb (trim n =? "") then setAdd references (trim n)
                              else references
                   end) ps acc.
Proof.
  change referenceRegex with simpleRegex.
  induction ps as [|[t|n] ps IH]; intros W acc; [reflexivity| |];
    cbn [wellFormed forallb wellFormedPiece] in W;
    apply andb_true_iff in W as [W1 W]; cbn [render fold_left].
  - rewrite scanFrom_keep_prefix.
    + rewrite hits_keeps_app. now apply IH.
    + intros pre s' E Hne. eapply simpleRegex_fails_in_plain_text; eauto.
  - apply andb_true_iff in W1 as [Hne Hn].
    assert (Hne' : n <> "") by (intros ->; discriminate).
    unfold noBrace in Hn. apply andb_true_iff in Hn as [_ Hn].
    apply negb_true_iff, hasChar_false_allIn in Hn.
    replace ("{{" ++ n ++ "}}" ++ render ps) with (("{{" ++ n ++ "}}") ++ render ps)
      by (simpl; now rewrite !append_assoc).
    rewrite (scanFrom_hit_first _ simpleRegex ("{{" ++ n ++ "}}") (render ps) n);
      [|discriminate | now apply simpleRegex_complete].
    cbn [hits fold_left snd]. now apply IH.
Qed.

Lemma existsb_names (r : string) (vars : list IVariable) :
  existsb (String.eqb r) (map var_name vars) = existsb (fun v => var_name v =? r) vars.
Proof.
  induction vars as [|v vars IH]; [reflexivity|].
  cbn [map existsb]. rewrite IH. f_equal. apply String.eqb_sym.
Qed.

(** X29.  For a content in which braces occur only as the delimiters of
    references, the warnings of [validate] are the note on inheritance, when
    the template extends another, followed by one "Referenced variable ... is
    not defined in template variables" for each distinct trimmed name between
    [{{] and [}}] that no declared variable has, in the order of first
    occurrence.  The directives count as names: [#if show] and [/if] are
    reported unless variables of these names are declared. *)
Theorem validate_reference_warnings (template : IPromptTemplate) (ps : list piece) :
  content template = render ps ->
  wellFormed ps = true ->
  warnings (validate template)
  = ((match read (extends template) with
      | Some e => if e =? "" then [] else [inheritanceWarning]
      | None => []
      end)
     ++ map referenceWarning
            (filter (fun ref =>
                       negb (existsb (fun v => var_name v =? ref)
                                     (match read (variables template) with
                                      | Some vars => vars
                                      | None => []
                                      end)))
                    (referencesOf ps)))%list.
Proof.
  intros Hcontent W. unfold validate. cbn [warnings]. f_equal.
  - destruct (read (extends template)) as [e|]; [|reflexivity]. now destruct (e =? "").
  - unfold extractVariableReferences, scan, referencesOf. cbv zeta.
    rewrite Hcontent, (hits_render ps W []).
    generalize (fold_left (fun references p =>
                             match p with
                             | Text _ => references
                             | Ref n => if negb (trim n =? "") then setAdd references (trim n)
                                        else references
                             end) ps []) as refs.
    intros refs. induction refs as [|r refs IH]; [reflexivity|].
    cbn [flat_map filter]. rewrite IH.
    assert (E : existsb (String.eqb r)
                        match read (variables template) with
                        | Some vars => map var_name vars
                        | None => []
                        end
                = existsb (fun v => var_name v =? r)
                          match read (variables template) with
                          | Some vars => vars
                          | None => []
                          end).
    { destruct (read (variables template)) as [vars|]; [|reflexivity].
      apply existsb_names. }
    rewrite E.
    destruct (existsb (fun v => var_name v =? r) _); reflexivity.
Qed.

Lemma validate_reference_warnings_witness :
  warnings (validate (authored "{{#if show}}Hi {{ name }}{{/if}} {{name}}"
                               [variable "name" "string"; variable "show" "boolean"]
                               (Val "base")))
  = ((match read (extends (authored "{{#if show}}Hi {{ name }}{{/if}} {{name}}"
                                    [variable "name" "string"; variable "show" "boolean"]
                                    (Val "base"))) with
      | Some e => if e =? "" then [] else [inheritanceWarning]
      | None => []
      end)
     ++ map referenceWarning
            (filter (fun ref =>
                       negb (existsb (fun v => var_name v =? ref)
                                     (match read (variables
                                                    (authored "{{#if show}}Hi {{ name }}{{/if}} {{name}}"
                                                              [variable "name" "string";
                                                               variable "show" "boolean"]
                                                              (Val "base"))) with
                                      | Some vars => vars
                                      | None => []
                                      end)))
                    (referencesOf [Ref "#if show"; Text "Hi "; Ref " name "; Ref "/if";
                                   Text " "; Ref "name"])))%list.
Proof.
  apply (validate_reference_warnings
           (authored "{{#if show}}Hi {{ name }}{{/if}} {{name}}"
                     [variable "name" "string"; variable "show" "boolean"] (Val "base"))
           [Ref "#if show"; Text "Hi "; Ref " name "; Ref "/if"; Text " "; Ref "name"]);
    reflexivity.
Defined.

(** what the witness amounts to *)
Example validate_reports_directives :
  warnings (validate (authored "{{#if show}}Hi {{ name }}{{/if}} {{name}}"
                               [variable "name" "string"; variable "show" "boolean"]
                               (Val "base")))
  = [ inheritanceWarning;
      referenceWarning "#if show";
      referenceWarning "/if" ].
Proof. vm_compute. reflexivity. Qed.

(** ** parseContextLoading *)

(** X30.  Every level that [parseContextLoading] reads has a depth that is
    not zero: a [depth] attribute that is missing, that is no number or that
    is zero gives depth 1.  No level has a condition. *)
Theorem parsed_levels_have_depth (content : string) (c : IContextLoading) :
  parseContextLoading content = Some c ->
  exists ls, levels c = Some ls
    /\ forall l, In l ls -> depth l <> 0%Z /\ condition l = None.
Proof.
  unfold parseContextLoading.
  destruct (Regex.search (elementWithAttributes "context_loading") content)
    as [[attrs levelsContent]|]; [|discriminate].
  intros H. injection H as <-. cbn [levels]. eexists. split; [reflexivity|].
  intros l Hl. apply in_map_iff in Hl as ([t [a b]] & <- & _). cbn [depth condition snd].
  split; [|reflexivity].
  destruct (match attrGet (parseAttributes a) "depth" with
            | Some d => parseInt d
            | None => None
            end) as [n|]; [|discriminate].
  destruct (Z.eqb_spec n 0); [discriminate | assumption].
Qed.

Lemma parsed_levels_have_depth_witness :
  exists ls, levels parentContextLoading = Some ls
    /\ forall l, In l ls -> depth l <> 0%Z /\ condition l = None.
Proof.
  apply (parsed_levels_have_depth parentXml parentContextLoading).
  vm_compute. reflexivity.
Defined.

End ParserBehaviour.
